(** * Lottery generator: sampling algorithms and drum simulation

    A shallow embedding of the number-selection algorithms
    ([createPoolAndPick], [getWeightedNumbers], [getAdaptiveNumbers],
    [getSequentialNumbers], [pickFromWeights]) and of the physics
    simulation ([SimBall.update], [resolveCollisions],
    [animateSimulation], [runHeadlessSimulation]) of the lottery page,
    followed by the properties established about them.

    Conventions of the embedding:
    - a JavaScript array is a [list]; [a[i]] is stdpp's lookup [a !! i]
      (out of range: [None], JavaScript's [undefined]); [a.splice(i,1)]
      is [delete i a]; an in-place write [a[i] = v] is [<[i:=v]> a];
    - a [while] loop whose trip count is not bounded by its shape takes a
      fuel argument and answers [OutOfFuel] when it is used up;
    - [Math.random()] and the [rng] argument are oracles: a stream
      [nat -> number] read through a call counter;
    - the numbers of the physics code are kept abstract behind the
      interface [JSNumber], with one instance for IEEE-754 doubles
      (Rocq's primitive floats) and one for the real numbers;
    - the weights of the sampling algorithms are exact rationals [Q]. *)

From stdpp Require Import base list sorting.
From Stdlib Require Import Floats.
From Stdlib Require Import ZArith QArith Qround Qpower Reals Lia Lra.
From Stdlib Require Import Psatz.
From Stdlib Require Import Strings.Byte.
From Stdlib Require Import RNsatz.
From Stdlib Require Ascii String.

Set Default Proof Using "Type".

(** ** Configuration (config.js) *)

Module CONFIG.
Definition TOTAL_NUMBERS : Z := 45.
Definition MAIN_NUMBERS_COUNT : nat := 6.
Definition BONUS_COUNT : nat := 1.
Definition TOTAL_DRAW_COUNT : nat := 7.
Definition SIM_EXTRACTION_INTERVAL : Z := 2000.
Definition SIM_CANVAS_WIDTH : Z := 600.
Definition SIM_CANVAS_HEIGHT : Z := 400.
Definition SIM_DRUM_RADIUS : Z := 180.
Definition SIM_SUCTION_RADIUS : Z := 30.
Definition ADAPTIVE_DECAY_RATE : Q := 96 # 100.
Definition ADAPTIVE_REWARD : Q := 1.
Definition WEIGHTED_POWER : Z := 1.
Definition ADAPTIVE_POWER : Z := 10.
End CONFIG.

(** What a call can do: return a value, throw, or still be running when
    the fuel of the model is used up. *)
Inductive Outcome (A : Type) : Type :=
  | Returned (a : A)
  | Threw
  | OutOfFuel.
Arguments Returned {A} a.
Arguments Threw {A}.
Arguments OutOfFuel {A}.

(** The integers [a, a+1, ..., a+n-1], the index range of a counting
    [for] loop. *)
Definition zrange (a : Z) (n : nat) : list Z :=
  map (fun k => (a + Z.of_nat k)%Z) (seq 0 n).

(** ** The sampling algorithms *)

Module Algorithms.

Local Open Scope Q_scope.

(** An element of a result array: a number, or [undefined] ([None]). *)
Abbreviation Value := (option Z) (only parsing).

(** ToBoolean of such an element. *)
Definition truthyValue (v : Value) : bool :=
  match v with
  | Some z => negb (z =? 0)%Z
  | None => false
  end.

(** [array[index]] for a computed index. *)
Definition at_ {A : Type} (array : list A) (index : Z) : option A :=
  if (index <? 0)%Z then None else array !! Z.to_nat index.

(** [array.includes(v)]. *)
Definition includes (array : list Value) (v : Value) : bool :=
  bool_decide (v ∈ array).

(** [Math.floor(randomVal * n)]. *)
Definition scaled (randomVal : Q) (n : nat) : Z :=
  Qfloor (randomVal * inject_Z (Z.of_nat n)).

(** [Math.round]: nearest integer, halves upwards. *)
Definition Math_round (v : Q) : Z := Qfloor (v + (1 # 2)).

(** An object whose keys are integers, as the list of its entries in
    enumeration order: array-index keys ascending, then the other keys
    in insertion order. Keys are written and parsed back unchanged. *)
Abbreviation Obj A := (list (Z * A)) (only parsing).

Definition isArrayIndex (k : Z) : bool :=
  ((0 <=? k) && (k <? 4294967295))%Z.

Fixpoint objGet {A : Type} (key : Z) (o : Obj A) : option A :=
  match o with
  | [] => None
  | (k, v) :: o' => if (k =? key)%Z then Some v else objGet key o'
  end.

(** [o[key] = v]. *)
Fixpoint objSet {A : Type} (key : Z) (v : A) (o : Obj A) : Obj A :=
  match o with
  | [] => [(key, v)]
  | (k, a) :: o' =>
      if (k =? key)%Z then (k, v) :: o'
      else if isArrayIndex key && (negb (isArrayIndex k) || (key <? k)%Z)
           then (key, v) :: o
           else (k, a) :: objSet key v o'
  end.

(** [o[key] op= ...] when [key] is a key of [o]; nothing otherwise. *)
Definition objAlter {A : Type} (f : A -> A) (key : Z) (o : Obj A) : Obj A :=
  map (fun e => if (fst e =? key)%Z then (fst e, f (snd e)) else e) o.

(** [delete o[key]]. *)
Definition objDelete {A : Type} (key : Z) (o : Obj A) : Obj A :=
  filter (fun e => fst e ≠ key) o.

(** An entry of the history: an array of numbers, or anything else. *)
Inductive HistoryEntry : Type :=
  | ArrayOf (draw : list Z)
  | NotAnArray.

(** *** createPoolAndPick *)

Definition buildPool (weights : Obj Q) (power : Z) : list Z :=
  flat_map (fun e =>
              let count := Math_round (Qpower (snd e) power * 10) in
              replicate (Z.to_nat count) (fst e))
           weights.

(** The [while] loop; [k] counts the calls of [rng] made so far. *)
Fixpoint pickLoop (fuel : nat) (pool : list Z) (rng : nat -> Q) (k : nat)
    (result : list Value) : Outcome (list Value) :=
  if Nat.ltb (length result) CONFIG.TOTAL_DRAW_COUNT then
    match fuel with
    | O => OutOfFuel
    | S fuel' =>
        let randomVal := rng k in
        let index := scaled randomVal (length pool) in
        let num := at_ pool index in
        if negb (includes result num)
        then pickLoop fuel' pool rng (S k) (result ++ [num])
        else pickLoop fuel' pool rng (S k) result
    end
  else Returned result.

Definition createPoolAndPick (fuel : nat) (weights : Obj Q) (power : Z)
    (rng : nat -> Q) : Outcome (list Value) :=
  pickLoop fuel (buildPool weights power) rng 0 [].

(** *** getWeightedNumbers *)

(** [for (i = 1; i <= TOTAL_NUMBERS; i++) o[i] = v]. *)
Definition allNumbers (v : Q) : Obj Q :=
  map (fun i => (i, v)) (zrange 1 (Z.to_nat CONFIG.TOTAL_NUMBERS)).

Definition countDraw (frequency : Obj Q) (entry : HistoryEntry) : Obj Q :=
  match entry with
  | ArrayOf draw =>
      foldl (fun fr num =>
               objAlter (fun v => if Qeq_bool v 0 then v else v + 1) num fr)
            frequency draw
  | NotAnArray => frequency
  end.

(** The [frequency] object handed to [createPoolAndPick]. *)
Definition frequencyWeights (winningNumbers : list HistoryEntry) : Obj Q :=
  foldl countDraw (allNumbers 1) winningNumbers.

Definition getWeightedNumbers (fuel : nat) (rng : nat -> Q)
    (winningNumbers : list HistoryEntry) : Outcome (list Value) :=
  createPoolAndPick fuel (frequencyWeights winningNumbers)
                    CONFIG.WEIGHTED_POWER rng.

(** *** getAdaptiveNumbers *)

Record AdaptiveCache : Type := {
  cachedAdaptiveWeights : option (Obj Q);
  cachedAdaptiveHistoryLength : nat
}.

Definition noAdaptiveCache : AdaptiveCache :=
  {| cachedAdaptiveWeights := None; cachedAdaptiveHistoryLength := 0 |}.

Definition RECENT_LIMIT : nat := 100.

(** The body of the loop over the recent draws. *)
Definition trendStep (weights : Obj Q) (entry : HistoryEntry) : Obj Q :=
  match entry with
  | ArrayOf draw =>
      let decayed :=
        foldl (fun ws w =>
                 objAlter (fun v => v * CONFIG.ADAPTIVE_DECAY_RATE) w ws)
              weights (zrange 1 (Z.to_nat CONFIG.TOTAL_NUMBERS)) in
      foldl (fun ws num =>
               objAlter (fun v => v + CONFIG.ADAPTIVE_REWARD) num ws)
            decayed draw
  | NotAnArray => weights
  end.

(** The weights computed on a cache miss: the loop runs from
    [history.length - 1] down to [0]. *)
Definition adaptiveWeights (winningNumbers : list HistoryEntry) : Obj Q :=
  let history := take RECENT_LIMIT winningNumbers in
  foldl trendStep (allNumbers 1) (rev history).

(** The cache test and update: the new cache and the weights that are
    sampled. *)
Definition adaptiveLookup (c : AdaptiveCache)
    (winningNumbers : list HistoryEntry) : AdaptiveCache * Obj Q :=
  let recomputed :=
    let weights := adaptiveWeights winningNumbers in
    ({| cachedAdaptiveWeights := Some weights;
        cachedAdaptiveHistoryLength := length winningNumbers |}, weights) in
  match cachedAdaptiveWeights c with
  | Some cached =>
      if Nat.eqb (cachedAdaptiveHistoryLength c) (length winningNumbers)
      then (c, cached)
      else recomputed
  | None => recomputed
  end.

Definition getAdaptiveNumbers (fuel : nat) (rng : nat -> Q)
    (c : AdaptiveCache) (winningNumbers : list HistoryEntry)
    : AdaptiveCache * Outcome (list Value) :=
  let (c', weights) := adaptiveLookup c winningNumbers in
  (c', createPoolAndPick fuel weights CONFIG.ADAPTIVE_POWER rng).

(** *** getSequentialNumbers *)

(** Source number -> (destination number -> count). *)
Abbreviation Transitions := (Obj (Obj Z)) (only parsing).

(** [[sequence[i], sequence[j]] = [sequence[j], sequence[i]]], for an
    index [j] inside the array (where [Math.random() < 1] puts it). *)
Definition swap (i : nat) (j : Z) (sequence : list Z) : list Z :=
  match sequence !! i, at_ sequence j with
  | Some a, Some b => <[Z.to_nat j:=a]> (<[i:=b]> sequence)
  | _, _ => sequence
  end.

(** The Fisher-Yates loop, from index [i] down to 1; [k] counts the
    calls of [Math.random]. *)
Fixpoint shuffle (i : nat) (sequence : list Z) (Math_random : nat -> Q)
    (k : nat) : list Z * nat :=
  match i with
  | O => (sequence, k)
  | S i' =>
      let j := scaled (Math_random k) (i + 1) in
      shuffle i' (swap i j sequence) Math_random (S k)
  end.

(** [transitions[current][next] = (transitions[current][next] || 0) + 1],
    after [transitions[current]] is created if missing. *)
Definition bump (current next : Z) (transitions : Transitions) : Transitions :=
  let row := default [] (objGet current transitions) in
  objSet current (objSet next (default 0 (objGet next row) + 1)%Z row)
         transitions.

(** "Record transitions (State -> Next State)". *)
Fixpoint record (sequence : list Z) (transitions : Transitions) : Transitions :=
  match sequence with
  | current :: rest =>
      match rest with
      | next :: _ => record rest (bump current next transitions)
      | [] => transitions
      end
  | [] => transitions
  end.

(** The body of [history.forEach]. *)
Definition learnDraw (Math_random : nat -> Q) (st : Transitions * nat)
    (entry : HistoryEntry) : Transitions * nat :=
  match entry with
  | ArrayOf draw =>
      if Nat.ltb (length draw) 6 then st
      else
        let (sequence, k) :=
          shuffle (length draw - 1) draw Math_random (snd st) in
        (record sequence (fst st), k)
  | NotAnArray => st
  end.

(** The learning phase over [allWinningNumbers] ([None]: the global is
    not defined). *)
Definition buildTransitions (allWinningNumbers : option (list HistoryEntry))
    (Math_random : nat -> Q) (k : nat) : Transitions * nat :=
  foldl (learnDraw Math_random) ([], k) (default [] allWinningNumbers).

(** "Use cached version if available". *)
Definition transitionsLookup (cachedTransitions : option Transitions)
    (allWinningNumbers : option (list HistoryEntry))
    (Math_random : nat -> Q) (k : nat) : Transitions * nat :=
  match cachedTransitions with
  | Some transitions => (transitions, k)
  | None => buildTransitions allWinningNumbers Math_random k
  end.

(** *** pickFromWeights *)

Fixpoint scanWeights (entries : Obj Z) (randomWeight : Q) : option Z :=
  match entries with
  | [] => None
  | (num, weight) :: rest =>
      let randomWeight := randomWeight - inject_Z weight in
      if Qle_bool randomWeight 0 then Some num
      else scanWeights rest randomWeight
  end.

(** [None] is the [NaN] that [parseInt(undefined)] gives for an empty
    object. *)
Definition pickFromWeights (weights : Obj Z) (rng : nat -> Q) (k : nat)
    : Value * nat :=
  let totalWeight := foldl Z.add 0%Z (map snd weights) in
  let r := rng k in
  let randomWeight := r * inject_Z totalWeight in
  match scanWeights weights randomWeight with
  | Some num => (Some num, S k)
  | None => (fst <$> head weights, S k)
  end.

(** The numbers 1..45 that are not in [result]. *)
Definition available (result : list Value) : list Z :=
  filter (fun i => Some i ∉ result)
         (zrange 1 (Z.to_nat CONFIG.TOTAL_NUMBERS)).

(** "Pick a random available number". *)
Definition pickAvailable (result : list Value) (rng : nat -> Q) (k : nat)
    : Value * nat :=
  let avail := available result in
  (at_ avail (scaled (rng k) (length avail)), S k).

(** The candidates of the current number: its learned transitions, less
    the numbers already picked. *)
Definition candidatesOf (transitions : Transitions) (result : list Value)
    (currentNum : Value) : option (Obj Z) :=
  match currentNum with
  | Some c =>
      match objGet c transitions with
      | Some row =>
          Some (foldl (fun cs picked =>
                         match picked with
                         | Some p => objDelete p cs
                         | None => cs
                         end) row result)
      | None => None
      end
  | None => None
  end.

(** "Follow the Chain": the [while (result.length < 6)] loop. *)
Fixpoint followChain (fuel : nat) (transitions : Transitions)
    (rng : nat -> Q) (k : nat) (result : list Value) (currentNum : Value)
    : Outcome (list Value * nat) :=
  if Nat.ltb (length result) 6 then
    match fuel with
    | O => OutOfFuel
    | S fuel' =>
        let '(nextNum, k) :=
          match candidatesOf transitions result currentNum with
          | Some candidates =>
              if Nat.ltb 0 (length candidates)
              then pickFromWeights candidates rng k
              else (None, k)
          | None => (None, k)
          end in
        let '(nextNum, k) :=
          if truthyValue nextNum then (nextNum, k)
          else pickAvailable result rng k in
        followChain fuel' transitions rng k (result ++ [nextNum]) nextNum
    end
  else Returned (result, k).

(** One call: the new value of [cachedTransitions] and the draw. *)
Definition getSequentialNumbers (fuel : nat) (rng : nat -> Q)
    (cachedTransitions : option Transitions)
    (allWinningNumbers : option (list HistoryEntry))
    (Math_random : nat -> Q)
    : option Transitions * Outcome (list Value) :=
  let transitions :=
    fst (transitionsLookup cachedTransitions allWinningNumbers Math_random 0) in
  let r := rng O in
  let firstNum := (scaled r (Z.to_nat CONFIG.TOTAL_NUMBERS) + 1)%Z in
  (Some transitions,
   match followChain fuel transitions rng 1 [Some firstNum] (Some firstNum) with
   | Returned (result, k) =>
       let (bonus, _) := pickAvailable result rng k in
       Returned (result ++ [bonus])
   | Threw => Threw
   | OutOfFuel => OutOfFuel
   end).

(** *** Vocabulary of the properties *)

Local Open Scope Z_scope.

(** How often [n] occurs in a draw, and in the draws of a history. *)
Definition occurrencesIn (n : Z) (draw : list Z) : nat :=
  length (filter (fun m => m = n) draw).

Definition numbersOf (winningNumbers : list HistoryEntry) : list Z :=
  flat_map (fun entry =>
              match entry with
              | ArrayOf draw => draw
              | NotAnArray => []
              end) winningNumbers.

Definition occurrences (n : Z) (winningNumbers : list HistoryEntry) : nat :=
  occurrencesIn n (numbersOf winningNumbers).

(** The weight the frequency object holds for [n] ([0] when [n] is not
    a key). *)
Definition frequencyWeight (winningNumbers : list HistoryEntry) (n : Z) : Q :=
  default 0%Q (objGet n (frequencyWeights winningNumbers)).

(** The history of the example: the draw 1..6, twice. *)
Definition twice : list HistoryEntry :=
  [ArrayOf [1; 2; 3; 4; 5; 6]; ArrayOf [1; 2; 3; 4; 5; 6]].

(** What the [k]-th call of [rng] selects from the pool. *)
Definition draw (pool : list Z) (rng : nat -> Q) (k : nat) : Value :=
  at_ pool (scaled (rng k) (length pool)).




(** Two histories of one draw each. *)
Definition lowDraw : list HistoryEntry := [ArrayOf [1; 2; 3; 4; 5; 6]].
Definition highDraw : list HistoryEntry := [ArrayOf [40; 41; 42; 43; 44; 45]].

(** The transitions recorded for a draw shuffled by a [Math.random] that
    is constantly 0, and the value of [cachedTransitions] after a first
    call that learned from that draw. *)
Definition learnedOnce : option (Obj (Obj Z)) :=
  fst (getSequentialNumbers 5 (fun _ => 0%Q) None (Some lowDraw)
                            (fun _ => 0%Q)).

(** An [rng] in [0,1) that cycles through 0, 0.1, ..., 0.9. *)
Definition spread (k : nat) : Q := Z.of_nat (k mod 10) # 10.

End Algorithms.

(** ** The other generators *)

Module Generators.
Import Algorithms.

Local Open Scope Q_scope.

(** *** getRandomNumbers (rng.js) *)

(** The [while (numbers.length < count)] loop; [k] counts the calls of
    [rng] made so far. *)
Fixpoint randomLoop (fuel : nat) (rng : nat -> Q) (k : nat) (count max : Z)
    (numbers : list Z) : Outcome (list Z) :=
  if (Z.of_nat (length numbers) <? count)%Z then
    match fuel with
    | O => OutOfFuel
    | S fuel' =>
        let randomVal := rng k in
        let num := (Qfloor (randomVal * inject_Z max) + 1)%Z in
        if negb (bool_decide (num ∈ numbers))
        then randomLoop fuel' rng (S k) count max (numbers ++ [num])
        else randomLoop fuel' rng (S k) count max numbers
    end
  else Returned numbers.

(** [getRandomNumbers(rng, count, max)]; a missing argument takes its
    default, [TOTAL_DRAW_COUNT] and [TOTAL_NUMBERS]. *)
Definition getRandomNumbers (fuel : nat) (rng : nat -> Q)
    (count max : option Z) : Outcome (list Z) :=
  randomLoop fuel rng 0
             (default (Z.of_nat CONFIG.TOTAL_DRAW_COUNT) count)
             (default CONFIG.TOTAL_NUMBERS max) [].

(** *** getNonFrequencyNumbers *)

Definition countColdDraw (frequency : Obj Q) (entry : HistoryEntry) : Obj Q :=
  match entry with
  | ArrayOf draw =>
      foldl (fun fr num => objAlter (fun v => v + 1) num fr) frequency draw
  | NotAnArray => frequency
  end.

(** The [frequency] object after the history is counted. *)
Definition coldFrequency (winningNumbers : list HistoryEntry) : Obj Q :=
  foldl countColdDraw (allNumbers 0) winningNumbers.

(** "Invert weights": [weights[i] = 100 / (frequency[i] + 1)] for
    [i = 1..45]. Every such [i] is a key of [frequency]; the default
    stands for a read that does not occur. *)
Definition coldWeights (winningNumbers : list HistoryEntry) : Obj Q :=
  let frequency := coldFrequency winningNumbers in
  map (fun i => (i, 100 / (default 0 (objGet i frequency) + 1)))
      (zrange 1 (Z.to_nat CONFIG.TOTAL_NUMBERS)).


(** *** Vocabulary of the properties *)

(** The weight an object holds for [n] ([0] when [n] is not a key). *)
Definition weightOf (weights : Obj Q) (n : Z) : Q :=
  default 0 (objGet n weights).

(** The copies of [n] in the pool built from [weights]. *)
Definition copies (weights : Obj Q) (power : Z) (n : Z) : nat :=
  occurrencesIn n (buildPool weights power).

(** The sum of the weights of some entries of a weight object. *)
Definition totalWeight (entries : Obj Z) : Z :=
  foldl Z.add 0%Z (map snd entries).


(** An [rng] that walks through 0, 1/45, 2/45, ... *)
Definition stepping (k : nat) : Q := Z.of_nat (k mod 45) # 45.




(** Every key of every learned row is one of the [known] numbers. *)
Definition rowsWithin (known : Z -> Prop) (transitions : Transitions) : Prop :=
  forall c row n,
    objGet c transitions = Some row -> n ∈ map fst row -> known n.



End Generators.

(** ** The random number generators (rng.js) *)

Module RNG.

Local Open Scope Z_scope.

(** [ToInt32] and [ToUint32] of an integral number. *)
Definition ToInt32 (z : Z) : Z := (z + 2 ^ 31) mod 2 ^ 32 - 2 ^ 31.
Definition ToUint32 (z : Z) : Z := z mod 2 ^ 32.

(** [a << b], [a >>> b], [a | b], [a ^ b] and [Math.imul(a, b)]. *)
Definition shl (a b : Z) : Z :=
  ToInt32 (Z.shiftl (ToInt32 a) (ToUint32 b mod 32)).
Definition shru (a b : Z) : Z := Z.shiftr (ToUint32 a) (ToUint32 b mod 32).
Definition bor (a b : Z) : Z := Z.lor (ToInt32 a) (ToInt32 b).
Definition bxor (a b : Z) : Z := Z.lxor (ToInt32 a) (ToInt32 b).
Definition Math_imul (a b : Z) : Z := ToInt32 (ToInt32 a * ToInt32 b).

(** *** 'secure' *)

(** The [k]-th call; [getRandomValues k] is what the platform writes
    into the one-element [Uint32Array]. *)
Definition secure (getRandomValues : nat -> Z) (k : nat) : Q :=
  let array_0 := ToUint32 (getRandomValues k) in
  (inject_Z array_0 / inject_Z (0xFFFFFFFF + 1))%Q.

(** *** 'vrf' *)

(** [hashArray[i]]; a missing element is [undefined], which the bit
    operators read as 0. *)
Definition byteAt (hashArray : list byte) (i : nat) : Z :=
  default 0 (Z.of_N <$> (Byte.to_N <$> hashArray !! i)).

(** "Use first 4 bytes for randomness". *)
Definition vrfValue (hashArray : list byte) : Z :=
  bor (bor (bor (shl (byteAt hashArray 0) 24) (shl (byteAt hashArray 1) 16))
           (shl (byteAt hashArray 2) 8))
      (byteAt hashArray 3).

(** One call; [digest c] is the SHA-256 digest of [seed + c]. The new
    counter and the value. *)
Definition vrf (digest : Z -> list byte) (counter : Z) : Z * Q :=
  let counter := counter + 1 in
  let hashArray := digest counter in
  let value := vrfValue hashArray in
  (counter, (inject_Z (shru value 0) / inject_Z (0xFFFFFFFF + 1))%Q).

(** *** 'blockchain' *)

(** The body of the loop over the characters of the block hash;
    [c] is [hash.charCodeAt(i)]. *)
Definition hashStep (seedVal c : Z) : Z :=
  let seedVal := shl seedVal 5 - seedVal + c in
  bor seedVal 0.

(** The seed of the generator: the hash of the string, plus
    [Date.now()]. *)
Definition blockchainSeed (hash : list Z) (now : Z) : Z :=
  foldl hashStep 0 hash + now.

(** One call of the generator (Mulberry32); [seedVal] is an integral
    number, added to without wrap-around. The new [seedVal] and the
    value. *)
Definition mulberry32 (seedVal : Z) : Z * Q :=
  let seedVal := seedVal + 0x6D2B79F5 in
  let t := seedVal in
  let t := Math_imul (bxor t (shru t 15)) (bor t 1) in
  let t := bxor t (t + Math_imul (bxor t (shru t 7)) (bor t 61)) in
  (seedVal, (inject_Z (shru (bxor t (shru t 14)) 0) / inject_Z 4294967296)%Q).

(** *** Vocabulary of the properties *)

(** The string hash [s[0]*31^(n-1) + ... + s[n-1]], unbounded. *)
Definition hashCode (hash : list Z) : Z :=
  foldl (fun h c => 31 * h + c) 0 hash.

(** The number whose base-256 digits, most significant first, are the
    first four bytes. *)
Definition firstFourBytes (hashArray : list byte) : Z :=
  byteAt hashArray 0 * 2 ^ 24 + byteAt hashArray 1 * 2 ^ 16
  + byteAt hashArray 2 * 2 ^ 8 + byteAt hashArray 3.

End RNG.

(** ** The policy network (ai.js) *)

Module DeepLearning.
Import Algorithms.

Local Open Scope Q_scope.

(** *** prepareData *)

(** "One-hot encode target (Index 0 is unused, 1-45 used)". *)
Definition oneHot (targetNum : Value) : list Z :=
  let y := replicate 46 0%Z in
  match targetNum with
  | Some t => if ((1 <=? t) && (t <=? 45))%Z then <[Z.to_nat t:=1%Z]> y else y
  | None => y
  end.

(** The sliding windows of one draw, for [i = 0 .. draw.length -
    windowSize - 1]. *)
Definition windowsOf (draw : list Z) (windowSize : nat)
    : list (list Q * list Z) :=
  map (fun i =>
         let x := map (fun n => inject_Z n / 45) (take windowSize (drop i draw)) in
         let targetNum := draw !! (i + windowSize)%nat in
         (x, oneHot targetNum))
      (seq 0 (length draw - windowSize)).

(** The rows pushed to [xs] and [ys], in order. *)
Definition prepareData (history : list HistoryEntry) (windowSize : nat)
    : list (list Q) * list (list Z) :=
  let rows :=
    flat_map (fun entry =>
                match entry with
                | ArrayOf draw =>
                    if Nat.ltb (length draw) (windowSize + 1) then []
                    else windowsOf draw windowSize
                | NotAnArray => []
                end) history in
  (map fst rows, map snd rows).

(** *** getDeepLearningNumbers *)

(** What [model.predict] answers for an input sequence: the entry [i]
    of the probability array. An element of the input sequence is a
    number, or [NaN] ([None]). *)
Abbreviation Policy := (list (option Q) -> Z -> Q) (only parsing).

(** "Let's pick 5 random numbers to start the chain", scaled by 45. *)
Definition seedSequence (rng : nat -> Q) : list (option Q) :=
  map (fun i => Some (inject_Z (Qfloor (rng i * 45) + 1) / 45)) (seq 0 5).

(** The loop over [i = 1 .. 45] that samples from the distribution. *)
Fixpoint sampleFrom (probabilities : Z -> Q) (randomVal cumulative : Q)
    (indices : list Z) : option Z :=
  match indices with
  | [] => None
  | i :: rest =>
      let cumulative := cumulative + probabilities i in
      if Qle_bool randomVal cumulative then Some i
      else sampleFrom probabilities randomVal cumulative rest
  end.

(** One pass of the [while] loop picks [num]. *)
Definition pickNumber (probabilities : Z -> Q) (rng : nat -> Q) (k : nat)
    (result : list Value) : Value * nat :=
  let r := rng k in
  let indices := zrange 1 45 in
  let totalProb := foldl (fun total i => total + probabilities i) 0 indices in
  let randomVal := r * totalProb in
  let num :=
    match sampleFrom probabilities randomVal 0 indices with
    | Some i => i
    | None => (Qfloor (r * 45) + 1)%Z
    end in
  if includes result (Some num)
  then pickAvailable result rng (S k)
  else (Some num, S k).

(** The [while (result.length < 7)] loop; [k] counts the calls of
    [rng]. *)
Fixpoint policyLoop (fuel : nat) (predict : Policy) (rng : nat -> Q)
    (k : nat) (inputSeq : list (option Q)) (result : list Value)
    : Outcome (list Value * nat) :=
  if Nat.ltb (length result) 7 then
    match fuel with
    | O => OutOfFuel
    | S fuel' =>
        let probabilities := predict inputSeq in
        let (num, k) := pickNumber probabilities rng k result in
        let inputSeq :=
          drop 1 inputSeq ++ [(fun n => inject_Z n / 45) <$> num] in
        policyLoop fuel' predict rng k inputSeq (result ++ [num])
    end
  else Returned (result, k).

(** One call; [model] is [None] as long as no network is trained. The
    new value of [cachedTransitions] and the draw. *)
Definition getDeepLearningNumbers (fuel : nat) (rng : nat -> Q)
    (model : option Policy)
    (cachedTransitions : option Transitions)
    (allWinningNumbers : option (list HistoryEntry))
    (Math_random : nat -> Q)
    : option Transitions * Outcome (list Value) :=
  match model with
  | None =>
      getSequentialNumbers fuel rng cachedTransitions allWinningNumbers
                           Math_random
  | Some predict =>
      (cachedTransitions,
       match policyLoop fuel predict rng 5 (seedSequence rng) [] with
       | Returned (result, _) => Returned result
       | Threw => Threw
       | OutOfFuel => OutOfFuel
       end)
  end.

(** *** Vocabulary of the properties *)

(** A history of simulation results has seven numbers in each entry. *)
Definition simulationData (history : list HistoryEntry) : Prop :=
  forall entry, entry ∈ history ->
    exists draw, entry = ArrayOf draw /\ length draw = 7%nat.

(** A network that puts all the probability on the number 7. *)
Definition alwaysSeven : Policy :=
  fun _ i => if (i =? 7)%Z then 1 else 0.

(** The calls of [rng] a run makes. *)
Definition rngCalls (fuel : nat) (predict : Policy) (rng : nat -> Q) : nat :=
  match policyLoop fuel predict rng 5 (seedSequence rng) [] with
  | Returned (_, k) => k
  | _ => O
  end.

End DeepLearning.

(** ** JavaScript numbers, abstractly *)

Class JSNumber (num : Type) : Type := {
  ofZ : Z -> num;
  nadd : num -> num -> num;
  nsub : num -> num -> num;
  nmul : num -> num -> num;
  ndiv : num -> num -> num;
  nopp : num -> num;
  nlt : num -> num -> bool;
  nle : num -> num -> bool;
  Math_sqrt : num -> num;
  Math_abs : num -> num;
  Math_cos : num -> num;
  Math_sin : num -> num;
  Math_atan2 : num -> num -> num;
  Math_PI : num;
  (** [a[Math.floor(v)]]: the index the lookup uses, if [Math.floor(v)]
      is an array index at all. *)
  floorIndex : num -> option nat;
  (** ToBoolean: [false] for [0] and [NaN]. *)
  truthy : num -> bool
}.

Declare Scope js_scope.
Delimit Scope js_scope with js.
Notation "a + b" := (nadd a b) : js_scope.
Notation "a - b" := (nsub a b) : js_scope.
Notation "a * b" := (nmul a b) : js_scope.
Notation "a / b" := (ndiv a b) : js_scope.
Notation "- a" := (nopp a) : js_scope.
Notation "a <? b" := (nlt a b) : js_scope.
Notation "a >? b" := (nlt b a) : js_scope.
Notation "a >=? b" := (nle b a) : js_scope.

(** A decimal literal [p/q] with [q] a power of ten: the division of two
    exactly represented integers is correctly rounded, so on doubles this
    is the double the literal denotes. *)
Definition dec {num : Type} `{JSNumber num} (p q : Z) : num :=
  (ofZ p / ofZ q)%js.

(** ** The IEEE-754 instance *)

Module Double.
Definition of_Z (z : Z) : float :=
  match z with
  | Z0 => PrimFloat.zero
  | Zpos _ => PrimFloat.of_uint63 (Uint63.of_Z z)
  | Zneg p => PrimFloat.opp (PrimFloat.of_uint63 (Uint63.of_Z (Zpos p)))
  end.

Definition PI : float := 0x1.921fb54442d18p+1%float.

(** [Math.floor] of a finite non-negative double, as an index. *)
Definition floor_index (v : float) : option nat :=
  match Prim2SF v with
  | S754_zero _ => Some 0%nat
  | S754_finite false m e =>
      Some (Z.to_nat (match e with
                      | Zneg k => Z.shiftr (Zpos m) (Zpos k)
                      | _ => Z.shiftl (Zpos m) e
                      end))
  | _ => None
  end.

Definition is_truthy (v : float) : bool :=
  negb (PrimFloat.eqb v PrimFloat.zero) && PrimFloat.eqb v v.

(** The transcendental functions are those of the host. *)
Class HostMath : Type := {
  host_cos : float -> float;
  host_sin : float -> float;
  host_atan2 : float -> float -> float
}.

#[export] Instance number `{HostMath} : JSNumber float := {|
  ofZ := of_Z;
  nadd := PrimFloat.add;
  nsub := PrimFloat.sub;
  nmul := PrimFloat.mul;
  ndiv := PrimFloat.div;
  nopp := PrimFloat.opp;
  nlt := PrimFloat.ltb;
  nle := PrimFloat.leb;
  Math_sqrt := PrimFloat.sqrt;
  Math_abs := PrimFloat.abs;
  Math_cos := host_cos;
  Math_sin := host_sin;
  Math_atan2 := host_atan2;
  Math_PI := PI;
  floorIndex := floor_index;
  truthy := is_truthy
|}.

(** A stand-in host whose [cos] is constantly 1 and whose [sin] and
    [atan2] are constantly 0: right at the argument 0. *)
Definition constantHost : HostMath :=
  {| host_cos := fun _ => 1%float;
     host_sin := fun _ => 0%float;
     host_atan2 := fun _ _ => 0%float |}.

End Double.

(** ** The real-number instance *)

Module Real.
Definition ltb (a b : R) : bool := if Rlt_dec a b then true else false.
Definition leb (a b : R) : bool := if Rle_dec a b then true else false.

Definition atan2 (y x : R) : R :=
  if Rlt_dec 0 x then atan (y / x)
  else if Rlt_dec x 0 then
    (if Rle_dec 0 y then atan (y / x) + PI else atan (y / x) - PI)
  else if Rlt_dec 0 y then PI / 2
  else if Rlt_dec y 0 then - PI / 2
  else 0.

Definition floor_index (v : R) : option nat :=
  if Rle_dec 0 v then Some (Z.to_nat (Int_part v)) else None.

Definition is_truthy (v : R) : bool :=
  if Req_EM_T v 0 then false else true.

#[export] Instance number : JSNumber R := {|
  ofZ := IZR;
  nadd := Rplus;
  nsub := Rminus;
  nmul := Rmult;
  ndiv := Rdiv;
  nopp := Ropp;
  nlt := ltb;
  nle := leb;
  Math_sqrt := sqrt;
  Math_abs := Rabs;
  Math_cos := cos;
  Math_sin := sin;
  Math_atan2 := atan2;
  Math_PI := PI;
  floorIndex := floor_index;
  truthy := is_truthy
|}.
End Real.

(** ** The drum simulation (simulation.js) *)

Module Simulation.

Section Physics.
Context {num : Type} `{JSNumber num}.
(** [Math.random()]: the [k]-th call returns [Math_random k]. *)
Variable Math_random : nat -> num.

Local Open Scope js_scope.

(** A computation that calls [Math.random()]: it threads the number of
    calls made so far. *)
Definition Rand (A : Type) : Type := nat -> A * nat.
Definition ret {A : Type} (a : A) : Rand A := fun k => (a, k).
Definition bind {A B : Type} (m : Rand A) (f : A -> Rand B) : Rand B :=
  fun k => let (a, k') := m k in f a k'.
Definition random : Rand num := fun k => (Math_random k, S k).

Notation "'do' x <- m 'in' f" := (bind m (fun x => f))
  (at level 10, x name, m at level 100, f at level 200).

(** [array.forEach] / a [for] loop over the elements, in order. *)
Fixpoint forEach {A B : Type} (f : A -> Rand B) (l : list A) : Rand (list B) :=
  match l with
  | [] => ret []
  | a :: l' => do a' <- f a in do l'' <- forEach f l' in ret (a' :: l'')
  end.

(** [n] runs of a loop body. *)
Fixpoint times {A : Type} (n : nat) (f : A -> Rand A) (a : A) : Rand A :=
  match n with
  | O => ret a
  | S n' => do a' <- f a in times n' f a'
  end.

(** The fields of a [SimBall] (and of the ball objects of the headless
    run); the colour is of the renderer only. *)
Record Ball : Type := {
  ball_id : Z;
  ball_x : num;
  ball_y : num;
  ball_vx : num;
  ball_vy : num;
  ball_radius : num;
  ball_mass : num;
  ball_elasticity : num;
  ball_friction : num
}.

Definition with_pos (b : Ball) (x y : num) : Ball :=
  {| ball_id := ball_id b; ball_x := x; ball_y := y;
     ball_vx := ball_vx b; ball_vy := ball_vy b;
     ball_radius := ball_radius b; ball_mass := ball_mass b;
     ball_elasticity := ball_elasticity b; ball_friction := ball_friction b |}.

Definition with_vel (b : Ball) (vx vy : num) : Ball :=
  {| ball_id := ball_id b; ball_x := ball_x b; ball_y := ball_y b;
     ball_vx := vx; ball_vy := vy;
     ball_radius := ball_radius b; ball_mass := ball_mass b;
     ball_elasticity := ball_elasticity b; ball_friction := ball_friction b |}.

Definition with_radius (b : Ball) (r : num) : Ball :=
  {| ball_id := ball_id b; ball_x := ball_x b; ball_y := ball_y b;
     ball_vx := ball_vx b; ball_vy := ball_vy b;
     ball_radius := r; ball_mass := ball_mass b;
     ball_elasticity := ball_elasticity b; ball_friction := ball_friction b |}.

(** Machine properties. The canvas is 600 x 400, so [drumCenter] is
    (300, 200) before and after [initSimulationCanvas]. *)
Definition drumCenter_x : num := ofZ 300.
Definition drumCenter_y : num := ofZ 200.
Definition drumRadius : num := ofZ CONFIG.SIM_DRUM_RADIUS.
Definition suctionRadius : num := ofZ CONFIG.SIM_SUCTION_RADIUS.

(** *** class SimBall *)

Definition SimBall_new (i : Z) : Rand Ball :=
  do r1 <- random in
  let angle := r1 * Math_PI * ofZ 2 in
  do r2 <- random in
  let r := r2 * (drumRadius - ofZ 20) in
  do r3 <- random in
  do r4 <- random in
  do r5 <- random in
  ret {| ball_id := i;
         ball_radius := ofZ 10;
         ball_x := drumCenter_x + Math_cos angle * r;
         ball_y := drumCenter_y + Math_sin angle * r;
         ball_vx := (r3 - dec 5 10) * ofZ 15;
         ball_vy := (r4 - dec 5 10) * ofZ 15;
         ball_mass := ofZ 1 + (r5 - dec 5 10) * dec 5 100;
         ball_elasticity := dec 85 100;
         ball_friction := dec 99 100 |}.

(** The air jet of [update]. *)
Definition airJet (turbulenceVal : num) (b : Ball) : Rand Ball :=
  if turbulenceVal >? ofZ 0 then
    let jetWidth := ofZ 60 in
    let jetHeight := ofZ 100 in
    if Math_abs (ball_x b - drumCenter_x) <? jetWidth / ofZ 2 then
      if ball_y b >? drumCenter_y + drumRadius - jetHeight then
        let lift := turbulenceVal * dec 8 10 in
        do r1 <- random in
        let vy := ball_vy b - (lift + r1 * ofZ 2) in
        do r2 <- random in
        let vx := ball_vx b + (r2 - dec 5 10) * ofZ 2 in
        ret (with_vel b vx vy)
      else if ball_y b >? drumCenter_y then
        let vy := ball_vy b - turbulenceVal * dec 1 10 in
        do r1 <- random in
        let vx := ball_vx b + (r1 - dec 5 10) * ofZ 5 in
        ret (with_vel b vx vy)
      else ret b
    else ret b
  else ret b.

(** The circular wall of [update]. *)
Definition wallCollision (b : Ball) : Ball :=
  let dx := ball_x b - drumCenter_x in
  let dy := ball_y b - drumCenter_y in
  let dist := Math_sqrt (dx * dx + dy * dy) in
  if dist + ball_radius b >? drumRadius then
    let nx := dx / dist in
    let ny := dy / dist in
    let overlap := dist + ball_radius b - drumRadius in
    let b := with_pos b (ball_x b - nx * overlap) (ball_y b - ny * overlap) in
    let dot := ball_vx b * nx + ball_vy b * ny in
    let b := with_vel b ((ball_vx b - ofZ 2 * dot * nx) * ball_elasticity b)
                        ((ball_vy b - ofZ 2 * dot * ny) * ball_elasticity b) in
    let tx := - ny in
    let ty := nx in
    let tDot := ball_vx b * tx + ball_vy b * ty in
    with_vel b (ball_vx b - tx * tDot * dec 5 100)
               (ball_vy b - ty * tDot * dec 5 100)
  else b.

Definition update (turbulenceVal : num) (gravityVal : option num) (b : Ball)
    : Rand Ball :=
  let g := default (dec 3 10) gravityVal in
  let b := with_vel b (ball_vx b) (ball_vy b + g) in
  do b <- airJet turbulenceVal b in
  let b := with_vel b (ball_vx b * ball_friction b)
                      (ball_vy b * ball_friction b) in
  let b := with_pos b (ball_x b + ball_vx b) (ball_y b + ball_vy b) in
  ret (wallCollision b).

(** *** initSimulation *)

Definition newBalls : Rand (list Ball) :=
  forEach SimBall_new (zrange 1 (Z.to_nat CONFIG.TOTAL_NUMBERS)).

(** *** resolveCollisions *)

(** The body of the two nested loops, for the balls at one pair of
    indices: [None] when the two do not touch. *)
Definition collide (b1 b2 : Ball) : option (Ball * Ball) :=
  let dx := ball_x b2 - ball_x b1 in
  let dy := ball_y b2 - ball_y b1 in
  let distance := Math_sqrt (dx * dx + dy * dy) in
  if distance <? ball_radius b1 + ball_radius b2 then
    let angle := Math_atan2 dy dx in
    let sin := Math_sin angle in
    let cos := Math_cos angle in
    let vx1 := ball_vx b1 * cos + ball_vy b1 * sin in
    let vy1 := ball_vy b1 * cos - ball_vx b1 * sin in
    let vx2 := ball_vx b2 * cos + ball_vy b2 * sin in
    let vy2 := ball_vy b2 * cos - ball_vx b2 * sin in
    let vx1Final := ((ball_mass b1 - ball_mass b2) * vx1
                     + ofZ 2 * ball_mass b2 * vx2)
                    / (ball_mass b1 + ball_mass b2) in
    let vx2Final := ((ball_mass b2 - ball_mass b1) * vx2
                     + ofZ 2 * ball_mass b1 * vx1)
                    / (ball_mass b1 + ball_mass b2) in
    let b1' := with_vel b1 (vx1Final * cos - vy1 * sin)
                           (vy1 * cos + vx1Final * sin) in
    let b2' := with_vel b2 (vx2Final * cos - vy2 * sin)
                           (vy2 * cos + vx2Final * sin) in
    let overlap := (ball_radius b1 + ball_radius b2 - distance) / ofZ 2 in
    Some (with_pos b1' (ball_x b1 - overlap * cos) (ball_y b1 - overlap * sin),
          with_pos b2' (ball_x b2 + overlap * cos) (ball_y b2 + overlap * sin))
  else None.

(** One pass of an inner-loop body: the two balls are read from the
    array and written back in place. *)
Definition resolvePair (rule : Ball -> Ball -> option (Ball * Ball))
    (i j : nat) (balls : list Ball) : list Ball :=
  match balls !! i, balls !! j with
  | Some b1, Some b2 =>
      match rule b1 b2 with
      | Some (b1', b2') => <[j:=b2']> (<[i:=b1']> balls)
      | None => balls
      end
  | _, _ => balls
  end.

(** [for i in 0..n-1, for j in i+1..n-1]. *)
Definition allPairs (rule : Ball -> Ball -> option (Ball * Ball))
    (balls : list Ball) : list Ball :=
  foldl (fun bs i =>
           foldl (fun bs' j => resolvePair rule i j bs') bs
                 (seq (S i) (length bs - S i)))
        balls (seq 0 (length balls)).

Definition resolveCollisions (simBalls : list Ball) : list Ball :=
  allPairs collide simBalls.

(** *** animateSimulation *)

(** The module-level state of simulation.js, with the draws handed to
    [addToHistory] so far. *)
Record SimState : Type := {
  simRunning : bool;
  simBalls : list Ball;
  simSelected : list Z;
  lastExtractionTime : num;
  simHistory : list (list Z)
}.

(** What one animation frame reads from the page: the timestamp of the
    callback and the parsed values of the controls that exist. *)
Record Frame : Type := {
  timestamp : num;
  turbulenceSlider : option num;
  gravitySlider : option num;
  sizeSlider : option num;
  intervalInput : option num
}.



(** The suction zone of the animated drum. *)
Definition inSuction (b : Ball) : bool :=
  let dx := ball_x b - drumCenter_x in
  let dy := ball_y b - (drumCenter_y - drumRadius + ofZ 20) in
  let dist := Math_sqrt (dx * dx + dy * dy) in
  dist <? suctionRadius.

(** The first ball, in array order, that a test accepts. *)
Definition firstBall (test : Ball -> bool) (balls : list Ball)
    : option (nat * Ball) :=
  list_find (fun b => Is_true (test b)) balls.

Definition isLast (selected : list Z) : bool :=
  Nat.eqb (length selected) CONFIG.TOTAL_DRAW_COUNT.

(** The draw handed to [addToHistory]: the six main numbers sorted, then
    the bonus. *)
Definition finalResult (selected : list Z) : list Z :=
  merge_sort Z.le (take CONFIG.MAIN_NUMBERS_COUNT selected)
    ++ option_list (selected !! CONFIG.MAIN_NUMBERS_COUNT).

(** "Extraction Logic (Air Suction with Interval)". *)
Definition extraction (f : Frame) (s : SimState) : SimState :=
  if Nat.ltb (length (simSelected s)) CONFIG.TOTAL_DRAW_COUNT then
    let interval :=
      match intervalInput f with
      | Some v => v * ofZ 1000
      | None => ofZ CONFIG.SIM_EXTRACTION_INTERVAL
      end in
    if negb (truthy (lastExtractionTime s))
       || (timestamp f - lastExtractionTime s >=? interval) then
      match firstBall inSuction (simBalls s) with
      | Some (i, b) =>
          let selected := simSelected s ++ [ball_id b] in
          {| simSelected := selected;
             simBalls := delete i (simBalls s);
             lastExtractionTime := timestamp f;
             simRunning := if isLast selected then false else simRunning s;
             simHistory := if isLast selected
                           then simHistory s ++ [finalResult selected]
                           else simHistory s |}
      | None => s
      end
    else s
  else s.

Definition animateSimulation (f : Frame) (s : SimState) : Rand SimState :=
  if negb (simRunning s) then ret s
  else
    let turbulence := default (ofZ 5) (turbulenceSlider f) in
    let gravity :=
      match gravitySlider f with
      | Some v => v * dec 1 10
      | None => dec 3 10
      end in
    let ballSize := default (ofZ 10) (sizeSlider f) in
    do balls <- forEach (fun ball =>
                           update turbulence (Some gravity)
                                  (with_radius ball ballSize))
                        (simBalls s) in
    let balls := resolveCollisions balls in
    ret (extraction f
           {| simRunning := simRunning s; simBalls := balls;
              simSelected := simSelected s;
              lastExtractionTime := lastExtractionTime s;
              simHistory := simHistory s |}).

(** *** runHeadlessSimulation *)

Definition center_x : num := ofZ CONFIG.SIM_CANVAS_WIDTH / ofZ 2.
Definition center_y : num := ofZ CONFIG.SIM_CANVAS_HEIGHT / ofZ 2.
Definition drumR : num := ofZ CONFIG.SIM_DRUM_RADIUS.

Definition STEPS_PER_EXTRACTION : Z := 30.
Definition turbulence : num := ofZ 5.
Definition gravity : num := dec 3 10.

(** "Initialize balls (Simplified SimBall logic)". *)
Definition headlessBall (i : Z) : Rand Ball :=
  do r1 <- random in
  let angle := r1 * Math_PI * ofZ 2 in
  do r2 <- random in
  let r := r2 * (drumR - ofZ 20) in
  do r3 <- random in
  do r4 <- random in
  ret {| ball_id := i;
         ball_x := center_x + Math_cos angle * r;
         ball_y := center_y + Math_sin angle * r;
         ball_vx := (r3 - dec 5 10) * ofZ 15;
         ball_vy := (r4 - dec 5 10) * ofZ 15;
         ball_radius := ofZ 10;
         ball_mass := ofZ 1;
         ball_elasticity := dec 85 100;
         ball_friction := dec 99 100 |}.

Definition headlessBalls : Rand (list Ball) :=
  forEach headlessBall (zrange 1 (Z.to_nat CONFIG.TOTAL_NUMBERS)).

(** "Update positions": the body of [balls.forEach]. *)
Definition moveBall (b : Ball) : Rand Ball :=
  let b := with_vel b (ball_vx b) (ball_vy b + gravity) in
  do b <- (if (Math_abs (ball_x b - center_x) <? ofZ 30)
              && (ball_y b >? center_y + drumR - ofZ 50)
           then
             let vy := ball_vy b - turbulence * dec 8 10 in
             do r <- random in
             ret (with_vel b (ball_vx b + (r - dec 5 10) * ofZ 2) vy)
           else ret b) in
  let b := with_vel b (ball_vx b * ball_friction b)
                      (ball_vy b * ball_friction b) in
  let b := with_pos b (ball_x b + ball_vx b) (ball_y b + ball_vy b) in
  let dx := ball_x b - center_x in
  let dy := ball_y b - center_y in
  let dist := Math_sqrt (dx * dx + dy * dy) in
  if dist + ball_radius b >? drumR then
    let nx := dx / dist in
    let ny := dy / dist in
    let overlap := dist + ball_radius b - drumR in
    let b := with_pos b (ball_x b - nx * overlap) (ball_y b - ny * overlap) in
    let dot := ball_vx b * nx + ball_vy b * ny in
    ret (with_vel b ((ball_vx b - ofZ 2 * dot * nx) * ball_elasticity b)
                    ((ball_vy b - ofZ 2 * dot * ny) * ball_elasticity b))
  else ret b.

(** "Resolve Collisions (Simplified O(N^2))": the body for one pair. *)
Definition collideHeadless (b1 b2 : Ball) : option (Ball * Ball) :=
  let dx := ball_x b2 - ball_x b1 in
  let dy := ball_y b2 - ball_y b1 in
  let distSq := dx * dx + dy * dy in
  let radSum := ball_radius b1 + ball_radius b2 in
  if distSq <? radSum * radSum then
    let dist := Math_sqrt distSq in
    let nx := dx / dist in
    let ny := dy / dist in
    let v1n := ball_vx b1 * nx + ball_vy b1 * ny in
    let v2n := ball_vx b2 * nx + ball_vy b2 * ny in
    let v1nFinal := v2n in
    let v2nFinal := v1n in
    let tx := - ny in
    let ty := nx in
    let v1t := ball_vx b1 * tx + ball_vy b1 * ty in
    let v2t := ball_vx b2 * tx + ball_vy b2 * ty in
    let b1' := with_vel b1 (v1nFinal * nx + v1t * tx)
                           (v1nFinal * ny + v1t * ty) in
    let b2' := with_vel b2 (v2nFinal * nx + v2t * tx)
                           (v2nFinal * ny + v2t * ty) in
    let overlap := (radSum - dist) / ofZ 2 in
    Some (with_pos b1' (ball_x b1 - nx * overlap) (ball_y b1 - ny * overlap),
          with_pos b2' (ball_x b2 + nx * overlap) (ball_y b2 + ny * overlap))
  else None.

(** One physics step of the headless loop. *)
Definition physicsStep (balls : list Ball) : Rand (list Ball) :=
  do balls <- forEach moveBall balls in
  ret (allPairs collideHeadless balls).

(** The suction test of the headless extraction attempt. *)
Definition inSuctionHeadless (b : Ball) : bool :=
  let suctionY := center_y - drumR + ofZ 20 in
  let dx := ball_x b - center_x in
  let dy := ball_y b - suctionY in
  dx * dx + dy * dy
    <? ofZ CONFIG.SIM_SUCTION_RADIUS * ofZ CONFIG.SIM_SUCTION_RADIUS.

(** "Extraction Attempt". *)
Definition extractionAttempt (balls : list Ball) (selected : list Z)
    : list Ball * list Z :=
  match firstBall inSuctionHeadless balls with
  | Some (candidateIdx, b) => (delete candidateIdx balls, selected ++ [ball_id b])
  | None => (balls, selected)
  end.

(** The right operand of the "Safety break" test. *)
Definition safetyBreak : bool :=
  (STEPS_PER_EXTRACTION * 1000 >? 1000000)%Z.

(** The physics loop, up to its exit: the balls still in the drum and
    the ids extracted. *)
Fixpoint physicsLoop (fuel : nat) (balls : list Ball) (selected : list Z)
    : Rand (Outcome (list Ball * list Z)) :=
  if Nat.ltb (length selected) CONFIG.TOTAL_DRAW_COUNT then
    match fuel with
    | O => ret OutOfFuel
    | S fuel' =>
        do balls <- times (Z.to_nat STEPS_PER_EXTRACTION) physicsStep balls in
        let '(balls, selected) := extractionAttempt balls selected in
        if Nat.ltb (length selected) CONFIG.TOTAL_DRAW_COUNT && safetyBreak
        then ret (Returned (balls, selected))
        else physicsLoop fuel' balls selected
    end
  else ret (Returned (balls, selected)).

(** "Fill if missing (rare safety fallback)". Reading [.id] of a
    missing element throws. *)
Fixpoint fillLoop (fuel : nat) (balls : list Ball) (selected : list Z)
    : Rand (Outcome (list Z)) :=
  if Nat.ltb (length selected) CONFIG.TOTAL_DRAW_COUNT then
    match fuel with
    | O => ret OutOfFuel
    | S fuel' =>
        do r <- random in
        match floorIndex (r * ofZ (Z.of_nat (length balls))) with
        | Some idx =>
            match balls !! idx with
            | Some b => fillLoop fuel' (delete idx balls)
                                 (selected ++ [ball_id b])
            | None => ret Threw
            end
        | None => ret Threw
        end
    end
  else ret (Returned selected).

Definition runHeadlessSimulation (fuel : nat) : Rand (Outcome (list Z)) :=
  do balls <- headlessBalls in
  do looped <- physicsLoop fuel balls [] in
  match looped with
  | Returned (balls, selected) => fillLoop fuel balls selected
  | Threw => ret Threw
  | OutOfFuel => ret OutOfFuel
  end.

(** *** batchRunSimulations *)

(** The [for] loop of [step]: up to [chunk] runs, as long as
    [i < count]; [run] is one call of [runHeadlessSimulation]. *)
Fixpoint chunkLoop (run : Rand (Outcome (list Z))) (chunk : nat)
    (count i : Z) (results : list (list Z))
    : Rand (Outcome (Z * list (list Z))) :=
  match chunk with
  | O => ret (Returned (i, results))
  | S chunk' =>
      if (i <? count)%Z then
        do result <- run in
        match result with
        | Returned selected =>
            chunkLoop run chunk' count (i + 1)%Z (results ++ [selected])
        | Threw => ret Threw
        | OutOfFuel => ret OutOfFuel
        end
      else ret (Returned (i, results))
  end.

(** [step], run again through [setTimeout] until [i >= count].
    [progressCb] is handed [Math.round((i / count) * 100)]; [reported]
    lists the values of [i] at its calls. *)
Fixpoint step (steps : nat) (run : Rand (Outcome (list Z))) (count i : Z)
    (results : list (list Z)) (reported : list Z)
    : Rand (Outcome (list (list Z) * list Z)) :=
  match steps with
  | O => ret OutOfFuel
  | S steps' =>
      do chunked <- chunkLoop run 10 count i results in
      match chunked with
      | Returned (i, results) =>
          let reported := reported ++ [i] in
          if (i <? count)%Z
          then step steps' run count i results reported
          else ret (Returned (results, reported))
      | Threw => ret Threw
      | OutOfFuel => ret OutOfFuel
      end
  end.

(** The results the promise resolves with, and the progress reported. *)
Definition batchRunSimulations (steps fuel : nat) (count : Z)
    : Rand (Outcome (list (list Z) * list Z)) :=
  step steps (runHeadlessSimulation fuel) count 0%Z [] [].

(** *** Vocabulary of the properties *)

Local Open Scope nat_scope.

Definition ids (balls : list Ball) : list Z := map ball_id balls.

(** A per-ball update that keeps the id of the ball. *)
Definition keepsId (f : Ball -> Rand Ball) : Prop :=
  forall b k, ball_id (fst (f b k)) = ball_id b.

(** A pair rule that keeps the ids of both balls. *)
Definition keepsIds (rule : Ball -> Ball -> option (Ball * Ball)) : Prop :=
  forall b1 b2 b1' b2',
    rule b1 b2 = Some (b1', b2') ->
    ball_id b1' = ball_id b1 /\ ball_id b2' = ball_id b2.





(** One pass of the physics loop: thirty physics steps, then the
    extraction attempt. The state is the balls in the drum, the ids
    selected, and the number of calls of [Math.random] so far. *)
Definition attempt (st : list Ball * list Z * nat) : list Ball * list Z * nat :=
  let '(balls, selected, k) := st in
  let (moved, k') :=
    times (Z.to_nat STEPS_PER_EXTRACTION) physicsStep balls k in
  (extractionAttempt moved selected, k').

Definition selectedOf (st : list Ball * list Z * nat) : list Z := snd (fst st).

(** What one pass of the physics loop keeps: no id is selected twice or
    selected and still in the drum, and every id is one of the [known]
    ones. *)
Definition sound (known : list Z) (balls : list Ball) (selected : list Z)
    : Prop :=
  NoDup (selected ++ ids balls)
  /\ forall id : Z, id ∈ selected ++ ids balls -> id ∈ known.

(** A run that makes one [Math.random] call and always extracts the
    same seven balls. *)
Definition sameRun : Rand (Outcome (list Z)) :=
  fun k => (Returned [3; 14; 15; 9; 26; 5; 35]%Z, S k).

End Physics.

(** *** Vocabulary of the properties over the real numbers *)

Section OverTheReals.
#[local] Existing Instance Real.number.
Local Open Scope R_scope.


Definition constantRandom : nat -> R := fun _ => 0%R.


(** Twice the kinetic energy of a ball per unit of mass. *)
Definition speedSq (b : @Ball R) : R :=
  ball_vx b * ball_vx b + ball_vy b * ball_vy b.

(** The component of the velocity of [b] along the direction (ux, uy). *)
Definition along (ux uy : R) (b : @Ball R) : R :=
  ball_vx b * ux + ball_vy b * uy.

(** The collision axis [resolveCollisions] works with. *)
Definition axisAngle (b1 b2 : @Ball R) : R :=
  Real.atan2 (ball_y b2 - ball_y b1) (ball_x b2 - ball_x b1).

(** The distance of the centres, and the collision normal of the
    headless loop. *)
Definition centreDistance (b1 b2 : @Ball R) : R :=
  sqrt ((ball_x b2 - ball_x b1) * (ball_x b2 - ball_x b1)
        + (ball_y b2 - ball_y b1) * (ball_y b2 - ball_y b1)).




(** Two overlapping balls of mass 1, three units apart in [x] and four
    in [y]. *)
Definition lower : @Ball R :=
  {| ball_id := 1; ball_x := 0; ball_y := 0; ball_vx := 1; ball_vy := 0;
     ball_radius := 10; ball_mass := 1;
     ball_elasticity := 85 / 100; ball_friction := 99 / 100 |}.

Definition upper : @Ball R :=
  {| ball_id := 2; ball_x := 3; ball_y := 4; ball_vx := -1; ball_vy := 2;
     ball_radius := 10; ball_mass := 1;
     ball_elasticity := 85 / 100; ball_friction := 99 / 100 |}.

(** The distance of the centre of a ball from the centre of the drum. *)
Definition fromCentre (b : @Ball R) : R :=
  sqrt ((ball_x b - 300) * (ball_x b - 300)
        + (ball_y b - 200) * (ball_y b - 200)).

(** The ball lies within the wall of the drum. *)
Definition insideDrum (b : @Ball R) : Prop :=
  fromCentre b + ball_radius b <= 180.

(** A [Math.random] that keeps to [0,1). *)
Definition unitRandom (Math_random : nat -> R) : Prop :=
  forall k, 0 <= Math_random k < 1.

(** Twice the kinetic energy of a ball, and its momentum along the
    direction (ux, uy). *)
Definition kinetic (b : @Ball R) : R := ball_mass b * speedSq b.

Definition momentum (ux uy : R) (b : @Ball R) : R :=
  ball_mass b * along ux uy b.

(** A ball three times as heavy as [lower], at the same place. *)
Definition heavy : @Ball R :=
  {| ball_id := 1; ball_x := 0; ball_y := 0; ball_vx := 1; ball_vy := 0;
     ball_radius := 10; ball_mass := 3;
     ball_elasticity := 85 / 100; ball_friction := 99 / 100 |}.

(** A ball of the animated drum that has crossed the wall on the right,
    moving outwards and upwards. *)
Definition escaping : @Ball R :=
  {| ball_id := 1; ball_x := 480; ball_y := 200; ball_vx := 4; ball_vy := 3;
     ball_radius := 10; ball_mass := 1;
     ball_elasticity := 85 / 100; ball_friction := 99 / 100 |}.
(** The unit vector from the centre of the drum to the ball. *)
Definition outward_x (b : @Ball R) : R := (ball_x b - 300) / fromCentre b.
Definition outward_y (b : @Ball R) : R := (ball_y b - 200) / fromCentre b.

End OverTheReals.

(** *** Vocabulary of the properties over the doubles *)

Section OverTheDoubles.
Local Open Scope nat_scope.

(** [Math.random()] returning 0 at every call. *)
Definition allZero : nat -> float := fun _ => 0%float.

(** The ball the headless run creates for number [i] when [Math.random]
    is [allZero]: at the centre of the canvas, moving up and left. *)
Definition centred (i : Z) : @Ball float :=
  {| ball_id := i;
     ball_x := 300%float; ball_y := 200%float;
     ball_vx := (-7.5)%float; ball_vy := (-7.5)%float;
     ball_radius := 10%float; ball_mass := 1%float;
     ball_elasticity := (Double.of_Z 85 / Double.of_Z 100)%float;
     ball_friction := (Double.of_Z 99 / Double.of_Z 100)%float |}.

(** A ball whose position and velocity are [NaN]. *)
Definition lost (i : Z) : @Ball float :=
  {| ball_id := i;
     ball_x := nan; ball_y := nan; ball_vx := nan; ball_vy := nan;
     ball_radius := 10%float; ball_mass := 1%float;
     ball_elasticity := (Double.of_Z 85 / Double.of_Z 100)%float;
     ball_friction := (Double.of_Z 99 / Double.of_Z 100)%float |}.

(** The state the loop is caught in: the ball 45 has been extracted and
    the other 44 balls are lost. *)
Definition caught (k : nat) : list (@Ball float) * list Z * nat :=
  (map lost (zrange 1 44), [45%Z], k).

(** A [Math.random] that scatters its values over 0, 0.001, ..., 0.999. *)
Definition scattered (k : nat) : float :=
  let z := Z.of_nat k in
  (Double.of_Z (((z * 613 + 511) * (z + 13)) mod 1000)
   / Double.of_Z 1000)%float.

End OverTheDoubles.

End Simulation.

(** ** The page: utilities, history and chart (utils.js, ui.js,
    chart-renderer.js) *)

Module UI.
Import Algorithms.

Local Open Scope Z_scope.

Import String.StringSyntax.
Local Delimit Scope string_scope with string.

Abbreviation string := String.string (only parsing).

(** *** CONFIG.RANGES *)

Record Range : Type := {
  range_max : Z;
  range_class : string;
  range_color : string
}.

Definition RANGES : list Range :=
  [ {| range_max := 10; range_class := "range-1"; range_color := "#fbc531" |};
    {| range_max := 20; range_class := "range-2"; range_color := "#0984e3" |};
    {| range_max := 30; range_class := "range-3"; range_color := "#e84118" |};
    {| range_max := 40; range_class := "range-4"; range_color := "#7f8fa6" |};
    {| range_max := 45; range_class := "range-5"; range_color := "#4cd137" |}
  ]%string.

(** *** utils.js *)

(** The first range with [num <= range.max]: the [for ... of] loops of
    [getBallRangeClass] and [getBallColor], and [RANGES.find]. *)
Definition findRange (num : Z) : option Range :=
  snd <$> list_find (fun range => num <= range_max range) RANGES.

Definition getBallRangeClass (num : Z) : string :=
  match findRange num with
  | Some range => range_class range
  | None => "range-5"%string
  end.

(** [None]: reading [.color] of a missing last range would throw. *)
Definition getBallColor (num : Z) : option string :=
  match findRange num with
  | Some range => Some (range_color range)
  | None => range_color <$> last RANGES
  end.

Definition getAlgoName (algo : string) : string :=
  if String.eqb algo "weighted" then "Frequency (Weighted)"%string
  else if String.eqb algo "adaptive" then "Trend (Adaptive)"%string
  else if String.eqb algo "non-frequency" then "Non-Frequency (Cold)"%string
  else if String.eqb algo "sequential" then "Sequential (AI/RL)"%string
  else "Pure Random"%string.

(** *** ui.js: addToHistory *)

(** [s.includes(sub)]. *)
Fixpoint includesString (s sub : string) : bool :=
  String.prefix sub s
  || match s with
     | String.EmptyString => false
     | String.String _ rest => includesString rest sub
     end.

(** The balls of the new history entry: the main numbers, the bonus. *)
Definition historyBalls (numbers : list Z) (algoName : string)
    : list Z * option Z :=
  let mainNumbers := take CONFIG.MAIN_NUMBERS_COUNT numbers in
  let mainNumbers :=
    if negb (includesString algoName "Sequential"%string)
    then merge_sort Z.le mainNumbers
    else mainNumbers in
  (mainNumbers, numbers !! CONFIG.MAIN_NUMBERS_COUNT).

(** The main numbers [generateNumbers] (main.js) logs for the same
    draw. *)
Definition loggedMain (numbers : list Z) (selectedAlgo : string) : list Z :=
  let mainNumbers := take CONFIG.MAIN_NUMBERS_COUNT numbers in
  if negb (String.eqb selectedAlgo "sequential")
  then merge_sort Z.le mainNumbers
  else mainNumbers.

(** *** ui.js: the pages of the winning history *)

Definition PAGE_SIZE : Z := 20.

Inductive Button : Type := First | Prev | Next | Last.

(** One listener of a navigation button, run on [currentHistoryIndex];
    [total] is [allWinningNumbers.length]. *)
Definition listener (total : Z) (button : Button) (currentHistoryIndex : Z)
    : Z :=
  match button with
  | First => if 0 <? currentHistoryIndex then 0 else currentHistoryIndex
  | Prev =>
      if 0 <? currentHistoryIndex
      then Z.max 0 (currentHistoryIndex - PAGE_SIZE)
      else currentHistoryIndex
  | Next =>
      if currentHistoryIndex + PAGE_SIZE <? total
      then currentHistoryIndex + PAGE_SIZE
      else currentHistoryIndex
  | Last =>
      if currentHistoryIndex + PAGE_SIZE <? total
      then (total - 1) / PAGE_SIZE * PAGE_SIZE
      else currentHistoryIndex
  end.

(** The state of the history tab: the index of the first item shown,
    the listeners [initHistoryNavigation] has attached so far to each
    button, and whether the container holds rendered items. *)
Record Pager : Type := {
  currentHistoryIndex : Z;
  listeners : nat;
  populated : bool
}.

(** [renderHistoryPage]: the indices shown with their round numbers. *)
Definition renderHistoryPage (total : Z) (currentHistoryIndex : Z)
    : list (Z * Z) :=
  let endIndex := Z.min (currentHistoryIndex + PAGE_SIZE) total in
  map (fun i => (i, total - i))
      (zrange currentHistoryIndex (Z.to_nat (endIndex - currentHistoryIndex))).

(** [renderWinningHistory], with the data loaded: the listeners are
    attached once more, and unless items are already there the first
    page is rendered. *)
Definition renderWinningHistory (total : Z) (p : Pager) : Pager :=
  let attached := S (listeners p) in
  if populated p
  then {| currentHistoryIndex := currentHistoryIndex p;
          listeners := attached; populated := true |}
  else {| currentHistoryIndex := 0; listeners := attached;
          populated := negb (bool_decide (renderHistoryPage total 0 = [])) |}.

(** A click on a button runs every listener attached to it, in the
    order of attachment. *)
Definition click (total : Z) (button : Button) (p : Pager) : Pager :=
  {| currentHistoryIndex :=
       Nat.iter (listeners p) (listener total button) (currentHistoryIndex p);
     listeners := listeners p;
     populated := populated p |}.

(** [updateNavButtons]: are First/Prev hidden, are Next/Last hidden. *)
Definition updateNavButtons (total : Z) (currentHistoryIndex : Z)
    : bool * bool :=
  (currentHistoryIndex <=? 0, total <=? currentHistoryIndex + PAGE_SIZE).

(** *** chart-renderer.js *)

(** [if (num >= 1 && num <= TOTAL_NUMBERS) frequency[num]++]. *)
Definition countNumber (frequency : list Z) (num : Z) : list Z :=
  if (1 <=? num) && (num <=? CONFIG.TOTAL_NUMBERS)
  then alter Z.succ (Z.to_nat num) frequency
  else frequency.

(** "Main Frequency": the [frequency] array after the history. *)
Definition mainFrequency (winningNumbers : list HistoryEntry) : list Z :=
  foldl (fun frequency entry =>
           match entry with
           | ArrayOf draw => foldl countNumber frequency draw
           | NotAnArray => frequency
           end)
        (replicate (Z.to_nat (CONFIG.TOTAL_NUMBERS + 1)) 0) winningNumbers.

(** "First Number Frequency (Start Number)". *)
Definition firstNumFrequency (winningNumbers : list HistoryEntry) : list Z :=
  foldl (fun frequency entry =>
           match entry with
           | ArrayOf (firstNum :: _) => countNumber frequency firstNum
           | _ => frequency
           end)
        (replicate (Z.to_nat (CONFIG.TOTAL_NUMBERS + 1)) 0) winningNumbers.

(** The [data] array of a dataset: the entries 1..45 of its frequency
    array. *)
Definition dataOf (frequency : list Z) : list Z :=
  map (fun i => default 0 (frequency !! Z.to_nat i))
      (zrange 1 (Z.to_nat CONFIG.TOTAL_NUMBERS)).

(** [parseInt(s, 16)] of a string of two hexadecimal digits. *)
Definition hexDigit (c : Ascii.ascii) : option Z :=
  let n := Z.of_nat (Ascii.nat_of_ascii c) in
  if (48 <=? n) && (n <=? 57) then Some (n - 48)
  else if (97 <=? n) && (n <=? 102) then Some (n - 87)
  else if (65 <=? n) && (n <=? 70) then Some (n - 55)
  else None.

Definition parseHexPair (s : string) : option Z :=
  match s with
  | String.String hi (String.String lo String.EmptyString) =>
      match hexDigit hi, hexDigit lo with
      | Some h, Some l => Some (16 * h + l)
      | _, _ => None
      end
  | _ => None
  end.

(** The red, green and blue parts of a colour ["#rrggbb"]. *)
Definition rgbOf (color : string) : option (Z * Z * Z) :=
  match parseHexPair (String.substring 1 2 color),
        parseHexPair (String.substring 3 2 color),
        parseHexPair (String.substring 5 2 color) with
  | Some r, Some g, Some b => Some (r, g, b)
  | _, _, _ => None
  end.

(** The colour of the bar of the number [i]. *)
Definition barColor (i : Z) : option (Z * Z * Z) :=
  match findRange i with
  | Some range => rgbOf (range_color range)
  | None => Some (76, 209, 55)
  end.

(** *** Vocabulary of the properties *)

(** The states the history tab goes through while the data stays the
    same: openings of the tab and clicks on the four buttons. *)
Inductive visited (total : Z) : Pager -> Prop :=
  | visit_load :
      visited total {| currentHistoryIndex := 0; listeners := 0;
                       populated := false |}
  | visit_open (p : Pager) :
      visited total p -> visited total (renderWinningHistory total p)
  | visit_click (p : Pager) (button : Button) :
      visited total p -> visited total (click total button p).

(** The history tab of a page with 100 draws, opened twice. *)
Definition openedTwice : Pager :=
  renderWinningHistory 100
    (renderWinningHistory 100
       {| currentHistoryIndex := 0; listeners := 0; populated := false |}).

(** The index of the first item of the last page. *)
Definition lastPage (total : Z) : Z := (total - 1) / PAGE_SIZE * PAGE_SIZE.

(** The numbers of 1..45 among the numbers of the draws. *)
Definition charted (winningNumbers : list HistoryEntry) : list Z :=
  filter (fun num => 1 <= num <= 45) (numbersOf winningNumbers).

End UI.

(** * Index ranges *)

Section Ranges.
Local Open Scope Z_scope.

Lemma zrange_spec (a : Z) (n : nat) (z : Z) :
  z ∈ zrange a n <-> a <= z < a + Z.of_nat n.
Proof.
  unfold zrange. rewrite list_elem_of_fmap. split.
  - intros (k & -> & Hk). apply elem_of_seq in Hk. lia.
  - intros Hz. exists (Z.to_nat (z - a)). split; [lia|].
    apply elem_of_seq. lia.
Qed.

Lemma zrange_NoDup (a : Z) (n : nat) : NoDup (zrange a n).
Proof.
  unfold zrange. apply NoDup_fmap_2; [|apply NoDup_seq].
  intros x y Hxy. lia.
Qed.

Lemma length_zrange (a : Z) (n : nat) : length (zrange a n) = n.
Proof. unfold zrange. by rewrite length_map, length_seq. Qed.

End Ranges.

(** * Properties of the sampling algorithms *)

Module AlgorithmsFacts.
Import Algorithms.

Local Open Scope Z_scope.

(** ** Objects *)

Lemma objAlter_keys {A : Type} (f : A -> A) (key : Z) (o : Obj A) :
  map fst (objAlter f key o) = map fst o.
Proof.
  unfold objAlter. induction o as [|[k v] o IH]; [done|].
  cbn [map fst snd]. rewrite IH. by destruct (k =? key).
Qed.

Lemma objGet_alter {A : Type} (f : A -> A) (key n : Z) (o : Obj A) :
  objGet n (objAlter f key o)
  = if n =? key then f <$> objGet n o else objGet n o.
Proof.
  unfold objAlter. induction o as [|[k v] o IH]; cbn [map objGet fst snd].
  - by destruct (n =? key).
  - destruct (k =? key) eqn:Hk; cbn [objGet].
    + destruct (k =? n) eqn:Hn.
      * assert ((n =? key) = true) as -> by lia. done.
      * apply IH.
    + destruct (k =? n) eqn:Hn.
      * assert ((n =? key) = false) as -> by lia. done.
      * apply IH.
Qed.

Lemma objGet_allNumbers (v : Q) (n : Z) :
  1 <= n <= 45 -> objGet n (allNumbers v) = Some v.
Proof.
  intros Hn. unfold allNumbers.
  assert (n ∈ zrange 1 (Z.to_nat CONFIG.TOTAL_NUMBERS)) as Hin.
  { apply zrange_spec. unfold CONFIG.TOTAL_NUMBERS. lia. }
  induction (zrange 1 (Z.to_nat CONFIG.TOTAL_NUMBERS)) as [|i l IH].
  - by apply elem_of_nil in Hin.
  - cbn [map objGet]. destruct (i =? n) eqn:Hi; [done|].
    apply IH. apply Z.eqb_neq in Hi.
    apply elem_of_cons in Hin as [Heq|]; [congruence|done].
Qed.

Lemma allNumbers_keys (v : Q) :
  map fst (allNumbers v) = zrange 1 (Z.to_nat CONFIG.TOTAL_NUMBERS).
Proof.
  unfold allNumbers. rewrite map_map. cbn [fst]. apply map_id.
Qed.

(** ** getWeightedNumbers: the frequency weights *)

Lemma occurrences_cons (n : Z) (draw : list Z) (h : list HistoryEntry) :
  occurrences n (ArrayOf draw :: h) = (occurrencesIn n draw + occurrences n h)%nat.
Proof.
  unfold occurrences, occurrencesIn, numbersOf. cbn [flat_map].
  by rewrite filter_app, length_app.
Qed.

Lemma Q_succ (a : Z) : (inject_Z a + 1)%Q = inject_Z (a + 1).
Proof.
  unfold Qplus, inject_Z. cbn [Qnum Qden]. f_equal. lia.
Qed.

Lemma Qeq_bool_pos (a : Z) : 1 <= a -> Qeq_bool (inject_Z a) 0 = false.
Proof.
  intros Ha. apply not_true_iff_false. intros Hq.
  apply Qeq_bool_eq in Hq. unfold Qeq, inject_Z in Hq. cbn in Hq. lia.
Qed.

Lemma countDraw_numbers (fr : Obj Q) (draw : list Z) (n c : Z) :
  0 <= c ->
  objGet n fr = Some (inject_Z (1 + c)) ->
  objGet n (countDraw fr (ArrayOf draw))
  = Some (inject_Z (1 + (c + Z.of_nat (occurrencesIn n draw)))).
Proof.
  cbn [countDraw]. revert fr c.
  induction draw as [|m draw IH]; intros fr c Hc Hget; cbn [foldl].
  - rewrite Hget. do 2 f_equal. unfold occurrencesIn. cbn. lia.
  - unfold occurrencesIn. rewrite filter_cons. case_decide as Hm.
    + subst m. cbn [length].
      rewrite (IH _ (c + 1)); [do 2 f_equal; unfold occurrencesIn; lia|lia|].
      rewrite objGet_alter, Z.eqb_refl, Hget. cbn [fmap option_fmap option_map].
      rewrite Qeq_bool_pos by lia. rewrite Q_succ. do 2 f_equal. lia.
    + rewrite (IH _ c); [done|done|].
      rewrite objGet_alter.
      assert ((n =? m) = false) as -> by lia. done.
Qed.

Lemma frequencyWeights_from (fr : Obj Q) (winningNumbers : list HistoryEntry)
    (n c : Z) :
  0 <= c ->
  objGet n fr = Some (inject_Z (1 + c)) ->
  objGet n (foldl countDraw fr winningNumbers)
  = Some (inject_Z (1 + (c + Z.of_nat (occurrences n winningNumbers)))).
Proof.
  revert fr c.
  induction winningNumbers as [|entry h IH]; intros fr c Hc Hget; cbn [foldl].
  - rewrite Hget. do 2 f_equal. unfold occurrences. cbn. lia.
  - destruct entry as [draw|].
    + rewrite (IH _ (c + Z.of_nat (occurrencesIn n draw))).
      * do 2 f_equal. rewrite occurrences_cons. lia.
      * lia.
      * by apply countDraw_numbers.
    + rewrite (IH _ c); [|done|done].
      do 2 f_equal.
Qed.

Lemma frequencyWeights_keys (winningNumbers : list HistoryEntry) :
  map fst (frequencyWeights winningNumbers)
  = zrange 1 (Z.to_nat CONFIG.TOTAL_NUMBERS).
Proof.
  unfold frequencyWeights. rewrite <- (allNumbers_keys 1%Q).
  generalize (allNumbers 1%Q).
  induction winningNumbers as [|entry h IH]; intros fr; cbn [foldl]; [done|].
  rewrite IH. destruct entry as [draw|]; [|done].
  cbn [countDraw]. revert fr.
  induction draw as [|m draw IHd]; intros fr; cbn [foldl]; [done|].
  by rewrite IHd, objAlter_keys.
Qed.

Lemma frequencyWeights_get (winningNumbers : list HistoryEntry) (n : Z) :
  1 <= n <= 45 ->
  objGet n (frequencyWeights winningNumbers)
  = Some (inject_Z (1 + Z.of_nat (occurrences n winningNumbers))).
Proof.
  intros Hn. unfold frequencyWeights.
  rewrite (frequencyWeights_from _ _ n 0); [done|done|].
  by apply objGet_allNumbers.
Qed.

(** C9. [getWeightedNumbers] samples from a mapping that has exactly the
    keys 1..45 and gives each number the weight 1 plus the number of its
    occurrences in the history: the weight is at least 1, it grows with
    the number of occurrences (weakly and strictly), and for the history
    [[1..6],[1..6]] the weight of 1 is 3 and that of 7 is 1. *)
Theorem frequency_weights_count_occurrences
    (winningNumbers winningNumbers' : list HistoryEntry) (n m : Z)
    (Hn : 1 <= n <= 45) (Hm : 1 <= m <= 45) :
  (forall (fuel : nat) (rng : nat -> Q),
      getWeightedNumbers fuel rng winningNumbers
      = createPoolAndPick fuel (frequencyWeights winningNumbers) 1 rng)
  /\ map fst (frequencyWeights winningNumbers) = zrange 1 45
  /\ objGet n (frequencyWeights winningNumbers)
     = Some (inject_Z (1 + Z.of_nat (occurrences n winningNumbers)))
  /\ (1 <= frequencyWeight winningNumbers n)%Q
  /\ ((occurrences n winningNumbers <= occurrences m winningNumbers')%nat ->
      (frequencyWeight winningNumbers n
       <= frequencyWeight winningNumbers' m)%Q)
  /\ ((occurrences n winningNumbers < occurrences m winningNumbers')%nat ->
      (frequencyWeight winningNumbers n
       < frequencyWeight winningNumbers' m)%Q)
  /\ frequencyWeight twice 1 = 3%Q
  /\ frequencyWeight twice 7 = 1%Q.
Proof.
  unfold frequencyWeight.
  rewrite !frequencyWeights_get by lia. cbn [from_option]. unfold id.
  split; [reflexivity|].
  split; [apply frequencyWeights_keys|].
  split; [reflexivity|].
  split; [unfold Qle; cbn; lia|].
  split; [intros Hle; unfold Qle; cbn; lia|].
  split; [intros Hlt; unfold Qlt; cbn; lia|].
  split; reflexivity.
Qed.

Lemma frequency_weights_count_occurrences_witness :
  objGet 3 (frequencyWeights twice) = Some 3%Q
  /\ (frequencyWeight twice 9 < frequencyWeight twice 3)%Q.
Proof.
  pose proof (frequency_weights_count_occurrences twice twice 9 3
                ltac:(lia) ltac:(lia)) as (_ & _ & _ & _ & _ & Hlt & _).
  pose proof (frequency_weights_count_occurrences twice twice 3 3
                ltac:(lia) ltac:(lia)) as (_ & _ & Hget & _).
  split; [exact Hget|].
  apply Hlt. vm_compute. lia.
Defined.

(** ** createPoolAndPick: the re-draw loop *)

Lemma scaled_range (r : Q) (n : nat) :
  (0 <= r)%Q -> (r < 1)%Q -> (0 < n)%nat -> 0 <= scaled r n < Z.of_nat n.
Proof.
  intros Hr0 Hr1 Hn. unfold scaled.
  assert (0 < inject_Z (Z.of_nat n))%Q as Hpos.
  { change 0%Q with (inject_Z 0). rewrite <- Zlt_Qlt. lia. }
  split.
  - change 0 with (Qfloor 0). apply Qfloor_resp_le.
    apply Qmult_le_0_compat; [done|]. by apply Qlt_le_weak.
  - rewrite Zlt_Qlt. eapply Qle_lt_trans; [apply Qfloor_le|].
    rewrite <- (Qmult_1_l (inject_Z (Z.of_nat n))) at 2.
    by apply Qmult_lt_compat_r.
Qed.


Lemma draw_in_pool (pool : list Z) (rng : nat -> Q) (k : nat) :
  (0 <= rng k)%Q -> (rng k < 1)%Q -> pool <> [] ->
  exists z, draw pool rng k = Some z /\ z ∈ pool.
Proof.
  intros H0 H1 Hpool. unfold draw, at_.
  destruct (scaled_range (rng k) (length pool) H0 H1) as [Hlo Hhi].
  { destruct pool; [done|cbn; lia]. }
  assert ((scaled (rng k) (length pool) <? 0) = false) as -> by lia.
  destruct (pool !! Z.to_nat (scaled (rng k) (length pool))) as [z|] eqn:Hz.
  - exists z. split; [done|]. by eapply list_elem_of_lookup_2.
  - apply lookup_ge_None in Hz. lia.
Qed.


Lemma includes_spec (array : list Value) (v : Value) :
  includes array v = true <-> v ∈ array.
Proof. unfold includes. apply bool_decide_eq_true. Qed.















(** ** createPoolAndPick on positive weights *)





(** ** The caches *)

(** C6. After any call of [getAdaptiveNumbers] (history [h1]), the next
    call (history [h2]) samples from the mapping the first call sampled
    from, and leaves the cache as it is, when [h2] is as long as [h1];
    it recomputes the mapping from [h2] and caches it when the lengths
    differ. Only the length is compared: [lowDraw] and [highDraw] have
    the same length and different adaptive weights, and a call with
    [highDraw] after one with [lowDraw] samples from the weights of
    [lowDraw]. *)
Theorem adaptive_cache_keyed_by_length
    (c0 : AdaptiveCache) (h1 h2 : list HistoryEntry)
    (fuel1 fuel2 : nat) (rng1 rng2 : nat -> Q) :
  let c1 := fst (getAdaptiveNumbers fuel1 rng1 c0 h1) in
  let sampled1 := snd (adaptiveLookup c0 h1) in
  getAdaptiveNumbers fuel1 rng1 c0 h1
  = (c1, createPoolAndPick fuel1 sampled1 CONFIG.ADAPTIVE_POWER rng1)
  /\ cachedAdaptiveWeights c1 = Some sampled1
  /\ cachedAdaptiveHistoryLength c1 = length h1
  /\ (length h2 = length h1 ->
      getAdaptiveNumbers fuel2 rng2 c1 h2
      = (c1, createPoolAndPick fuel2 sampled1 CONFIG.ADAPTIVE_POWER rng2))
  /\ (length h2 <> length h1 ->
      getAdaptiveNumbers fuel2 rng2 c1 h2
      = ({| cachedAdaptiveWeights := Some (adaptiveWeights h2);
            cachedAdaptiveHistoryLength := length h2 |},
         createPoolAndPick fuel2 (adaptiveWeights h2)
                           CONFIG.ADAPTIVE_POWER rng2))
  /\ (length highDraw = length lowDraw
      /\ adaptiveWeights highDraw <> adaptiveWeights lowDraw
      /\ snd (adaptiveLookup
                (fst (getAdaptiveNumbers fuel1 rng1 noAdaptiveCache lowDraw))
                highDraw)
         = adaptiveWeights lowDraw).
Proof.
  cbv zeta. unfold getAdaptiveNumbers.
  assert (cachedAdaptiveWeights (adaptiveLookup c0 h1).1
          = Some (adaptiveLookup c0 h1).2
          /\ cachedAdaptiveHistoryLength (adaptiveLookup c0 h1).1 = length h1)
    as [Hw Hl].
  { unfold adaptiveLookup.
    destruct (cachedAdaptiveWeights c0) as [cached|] eqn:Hc; [|done].
    destruct (Nat.eqb_spec (cachedAdaptiveHistoryLength c0) (length h1));
      cbn [fst snd cachedAdaptiveWeights cachedAdaptiveHistoryLength]; done. }
  destruct (adaptiveLookup c0 h1) as [c1 sampled1] eqn:Hcall.
  cbn [fst snd] in *.
  split; [done|]. split; [done|]. split; [done|].
  split; [|split].
  - intros Hlen. unfold adaptiveLookup. rewrite Hw, Hl, <- Hlen.
    by rewrite Nat.eqb_refl.
  - intros Hlen. unfold adaptiveLookup. rewrite Hw, Hl.
    by destruct (Nat.eqb_spec (length h1) (length h2)); [congruence|].
  - split; [reflexivity|]. split; [|reflexivity].
    intros Heq. apply (f_equal (objGet 1)) in Heq. vm_compute in Heq.
    discriminate Heq.
Qed.

(** C5, what the code does instead. The first call of
    [getSequentialNumbers] leaves a transition model in
    [cachedTransitions]; every later call, whatever the history and its
    length, uses that model and leaves it in place. With the one-draw
    history [lowDraw] at the first call and the empty history at the
    second, the second call still uses the model learned from [lowDraw],
    not the empty model a rebuild would give. *)
Theorem sequential_cache_never_rebuilt
    (cached : option (Obj (Obj Z)))
    (h1 h2 : option (list HistoryEntry))
    (fuel1 fuel2 : nat) (rng1 rng2 Math_random1 Math_random2 : nat -> Q) :
  let c1 := fst (getSequentialNumbers fuel1 rng1 cached h1 Math_random1) in
  (exists transitions,
      c1 = Some transitions
      /\ transitionsLookup c1 h2 Math_random2 0 = (transitions, O)
      /\ fst (getSequentialNumbers fuel2 rng2 c1 h2 Math_random2) = c1)
  /\ (length lowDraw <> length (@nil HistoryEntry)
      /\ fst (getSequentialNumbers fuel2 rng2 learnedOnce (Some [])
                                   Math_random2)
         = learnedOnce
      /\ learnedOnce
         <> Some (fst (buildTransitions (Some []) Math_random2 0))).
Proof.
  cbv zeta. split.
  - unfold getSequentialNumbers. cbn [fst]. eexists. split; [reflexivity|].
    split; reflexivity.
  - split; [cbn; lia|]. split; [reflexivity|].
    vm_compute. discriminate.
Qed.

(** ** getSequentialNumbers: no number is drawn twice *)

Lemma scanWeights_key (entries : Obj Z) (randomWeight : Q) (num : Z) :
  scanWeights entries randomWeight = Some num -> num ∈ map fst entries.
Proof.
  revert randomWeight.
  induction entries as [|[key weight] entries IH]; intros rw; cbn [scanWeights].
  - done.
  - cbn [map fst]. destruct (Qle_bool _ _).
    + intros [= ->]. apply elem_of_cons. by left.
    + intros Hscan. apply elem_of_cons. right. by eapply IH.
Qed.

Lemma pickFromWeights_key (weights : Obj Z) (rng : nat -> Q) (k : nat) :
  weights <> [] ->
  exists num, pickFromWeights weights rng k = (Some num, S k)
              /\ num ∈ map fst weights.
Proof.
  intros Hne. unfold pickFromWeights.
  destruct (scanWeights weights _) as [num|] eqn:Hscan.
  - exists num. split; [done|]. by eapply scanWeights_key.
  - destruct weights as [|[key weight] weights]; [done|].
    exists key. split; [done|]. cbn [map fst]. apply elem_of_cons. by left.
Qed.

Lemma objDelete_keys {A : Type} (key n : Z) (o : Obj A) :
  n ∈ map fst (objDelete key o) -> n <> key /\ n ∈ map fst o.
Proof.
  unfold objDelete. intros Hn.
  apply list_elem_of_fmap in Hn as ([k v] & -> & Hin).
  apply list_elem_of_filter in Hin as [Hne Hin]. cbn [fst] in *.
  split; [done|]. apply list_elem_of_fmap. by exists (k, v).
Qed.

Lemma candidatesOf_fresh (transitions : Obj (Obj Z)) (result : list Value)
    (currentNum : Value) (candidates : Obj Z) (n : Z) :
  candidatesOf transitions result currentNum = Some candidates ->
  n ∈ map fst candidates -> Some n ∉ result.
Proof.
  unfold candidatesOf. destruct currentNum as [c|]; [|done].
  destruct (objGet c transitions) as [row|]; [|done].
  intros [= <-]. revert row.
  induction result as [|picked result IH]; intros row Hn; cbn [foldl] in Hn.
  - apply not_elem_of_nil.
  - apply not_elem_of_cons. split; [|by eapply IH].
    destruct picked as [p|]; [|done].
    assert (n ∈ map fst (objDelete p row)) as Hdel.
    { clear IH. revert Hn. generalize (objDelete p row). intros o.
      revert o. induction result as [|q result IHr]; intros o; cbn [foldl].
      - done.
      - intros Hn. apply IHr in Hn. destruct q as [q|]; [|done].
        by apply objDelete_keys in Hn as [_ ?]. }
    apply objDelete_keys in Hdel as [Hne _]. congruence.
Qed.

Lemma available_nonempty (result : list Value) :
  (length result < 45)%nat -> available result <> [].
Proof.
  intros Hlen Hnil.
  assert (length (Some <$> zrange 1 45) <= length result)%nat as Hle.
  { apply submseteq_length, NoDup_submseteq.
    - apply NoDup_fmap_2; [intros x y [=]; done|apply zrange_NoDup].
    - intros v Hv. apply list_elem_of_fmap in Hv as (i & -> & Hi).
      destruct (decide (Some i ∈ result)) as [|Hnot]; [done|].
      assert (i ∈ available result) as Hav
        by (unfold available; by apply list_elem_of_filter).
      rewrite Hnil in Hav. by apply elem_of_nil in Hav. }
  rewrite length_fmap, length_zrange in Hle. lia.
Qed.

Lemma pickAvailable_fresh (result : list Value) (rng : nat -> Q) (k : nat) :
  (0 <= rng k)%Q -> (rng k < 1)%Q -> (length result < 45)%nat ->
  exists z, pickAvailable result rng k = (Some z, S k)
            /\ (Some z ∉ result) /\ 1 <= z <= 45.
Proof.
  intros H0 H1 Hlen. unfold pickAvailable.
  pose proof (available_nonempty result Hlen) as Hne.
  destruct (draw_in_pool (available result) rng k H0 H1 Hne) as (z & Hz & Hin).
  exists z. unfold draw in Hz. rewrite Hz. split; [done|].
  unfold available in Hin. apply list_elem_of_filter in Hin as [Hfresh Hrange].
  split; [done|]. apply zrange_spec in Hrange.
  unfold CONFIG.TOTAL_NUMBERS in Hrange. lia.
Qed.

(** One pass of the chain loop adds a number that is not yet picked. *)
Lemma followChain_step (fuel : nat) (transitions : Obj (Obj Z))
    (rng : nat -> Q) (k : nat) (picked : list Z) (currentNum : Value) :
  (forall j, (0 <= rng j)%Q /\ (rng j < 1)%Q) ->
  (length picked < 6)%nat ->
  exists z k',
    followChain (S fuel) transitions rng k (Some <$> picked) currentNum
    = followChain fuel transitions rng k' (Some <$> (picked ++ [z])) (Some z)
    /\ z ∉ picked.
Proof.
  intros Hrng Hlen. cbn [followChain]. rewrite length_fmap.
  apply Nat.ltb_lt in Hlen as Hlt. rewrite Hlt.
  assert (forall k0, exists z,
             pickAvailable (Some <$> picked) rng k0 = (Some z, S k0)
             /\ z ∉ picked) as Hfallback.
  { intros k0.
    destruct (pickAvailable_fresh (Some <$> picked) rng k0) as (z & Hz & Hf & _);
      [apply Hrng|apply Hrng|rewrite length_fmap; lia|].
    exists z. split; [done|]. intros Hin. apply Hf.
    by apply list_elem_of_fmap_2. }
  destruct (candidatesOf transitions (Some <$> picked) currentNum)
    as [candidates|] eqn:Hcand.
  - destruct (Nat.ltb_spec 0 (length candidates)) as [Hpos|Hzero].
    + destruct (pickFromWeights_key candidates rng k) as (num & Hpick & Hkey).
      { destruct candidates; [cbn in Hpos; lia|done]. }
      rewrite Hpick. cbn [truthyValue].
      destruct (num =? 0) eqn:Hnum; cbn [negb].
      * destruct (Hfallback (S k)) as (z & -> & Hz).
        exists z, (S (S k)). split; [|done]. by rewrite fmap_app.
      * exists num, (S k). split; [by rewrite fmap_app|].
        intros Hin.
        apply (candidatesOf_fresh _ _ _ _ num Hcand Hkey).
        by apply list_elem_of_fmap_2.
    + cbn [truthyValue]. destruct (Hfallback k) as (z & -> & Hz).
      exists z, (S k). split; [|done]. by rewrite fmap_app.
  - cbn [truthyValue]. destruct (Hfallback k) as (z & -> & Hz).
    exists z, (S k). split; [|done]. by rewrite fmap_app.
Qed.

Lemma followChain_distinct (transitions : Obj (Obj Z)) (rng : nat -> Q) :
  (forall j, (0 <= rng j)%Q /\ (rng j < 1)%Q) ->
  forall (fuel k : nat) (picked : list Z) (currentNum : Value),
    NoDup picked ->
    (length picked <= 6)%nat ->
    (6 - length picked <= fuel)%nat ->
    exists main k',
      followChain fuel transitions rng k (Some <$> picked) currentNum
      = Returned (Some <$> main, k')
      /\ NoDup main /\ length main = 6%nat.
Proof.
  intros Hrng fuel.
  induction fuel as [|fuel IH]; intros k picked currentNum Hnd Hlen Hfuel.
  - exists picked, k. cbn [followChain]. rewrite length_fmap.
    assert (Nat.ltb (length picked) 6 = false) as ->
      by (apply Nat.ltb_ge; lia).
    split; [done|]. split; [done|lia].
  - destruct (decide (length picked = 6%nat)) as [Hfull|Hless].
    + exists picked, k. cbn [followChain]. rewrite length_fmap, Hfull.
      cbn. done.
    + destruct (followChain_step fuel transitions rng k picked currentNum)
        as (z & k' & -> & Hz); [done|lia|].
      apply IH.
      * apply NoDup_app. split; [done|]. split; [|apply NoDup_singleton].
        intros x Hx Hx'. by apply list_elem_of_singleton in Hx' as ->.
      * rewrite length_app. cbn [length]. lia.
      * rewrite length_app. cbn [length]. lia.
Qed.



End AlgorithmsFacts.

(** * Properties of the drum simulation *)

Module SimulationFacts.
Import Simulation.

Local Open Scope nat_scope.

(** C3 (as amended). [STEPS_PER_EXTRACTION] is the constant 30, so the
    test [STEPS_PER_EXTRACTION * 1000 > 1000000] of the safety break
    compares 30000 with 1000000: it is false on every evaluation, and so
    is the whole break condition, whatever has been selected. *)
Theorem safety_break_is_constantly_false :
  STEPS_PER_EXTRACTION = 30%Z
  /\ (STEPS_PER_EXTRACTION * 1000)%Z = 30000%Z
  /\ safetyBreak = false
  /\ forall selected : list Z,
       Nat.ltb (length selected) CONFIG.TOTAL_DRAW_COUNT && safetyBreak = false.
Proof.
  split; [reflexivity|]. split; [reflexivity|]. split; [reflexivity|].
  intros selected. apply andb_false_r.
Qed.

(** C3, refuted as stated: the test does not evaluate to true. *)
Lemma safety_break_is_not_true : safetyBreak <> true.
Proof. discriminate. Qed.

Section Generic.
Context {num : Type} `{JSNumber num}.
Variable Math_random : nat -> num.

Abbreviation Ball := (@Ball num).
Abbreviation SimState := (@SimState num).

(** ** Ball identities *)

Lemma forEach_ids (f : Ball -> Rand Ball) (balls : list Ball) (k : nat) :
  keepsId f -> ids (fst (forEach f balls k)) = ids balls.
Proof.
  intros Hf. revert k.
  induction balls as [|b balls IH]; intros k; [done|].
  cbn [forEach]. unfold bind. specialize (Hf b k).
  destruct (f b k) as [b' k']. specialize (IH k').
  destruct (forEach f balls k') as [balls' k'']. cbn [ret fst] in *.
  unfold ids in *. cbn [map]. by rewrite Hf, IH.
Qed.

Lemma times_ids (n : nat) (f : list Ball -> Rand (list Ball))
    (balls : list Ball) (k : nat) :
  (forall bs j, ids (fst (f bs j)) = ids bs) ->
  ids (fst (times n f balls k)) = ids balls.
Proof.
  intros Hf. revert balls k.
  induction n as [|n IH]; intros balls k; [done|].
  cbn [times]. unfold bind. specialize (Hf balls k).
  destruct (f balls k) as [balls' k']. cbn [fst] in Hf.
  by rewrite IH.
Qed.

Lemma resolvePair_ids (rule : Ball -> Ball -> option (Ball * Ball))
    (i j : nat) (balls : list Ball) :
  keepsIds rule -> ids (resolvePair rule i j balls) = ids balls.
Proof.
  intros Hrule. unfold resolvePair.
  destruct (balls !! i) as [b1|] eqn:Hi; [|done].
  destruct (balls !! j) as [b2|] eqn:Hj; [|done].
  destruct (rule b1 b2) as [[b1' b2']|] eqn:Hr; [|done].
  destruct (Hrule _ _ _ _ Hr) as [H1 H2].
  unfold ids. rewrite !list_fmap_insert, H1, H2.
  rewrite (list_insert_id (map ball_id balls) i);
    [|by rewrite list_lookup_fmap, Hi].
  apply list_insert_id. by rewrite list_lookup_fmap, Hj.
Qed.

Lemma allPairs_ids (rule : Ball -> Ball -> option (Ball * Ball))
    (balls : list Ball) :
  keepsIds rule -> ids (allPairs rule balls) = ids balls.
Proof.
  intros Hrule. unfold allPairs.
  generalize (seq 0 (length balls)). intros outer. revert balls.
  induction outer as [|i outer IH]; intros balls; [done|].
  cbn [foldl]. rewrite IH.
  generalize (seq (S i) (length balls - S i)). intros inner. revert balls.
  induction inner as [|j inner IHj]; intros balls; [done|].
  cbn [foldl]. rewrite IHj. by apply resolvePair_ids.
Qed.


Lemma collideHeadless_keepsIds : keepsIds collideHeadless.
Proof.
  intros b1 b2 b1' b2'. unfold collideHeadless.
  destruct (nlt _ _); [|done]. by intros [= <- <-].
Qed.




Lemma moveBall_keepsId : keepsId (moveBall Math_random).
Proof.
  intros b k. unfold moveBall, bind, random, ret.
  destruct (_ && _); cbn [fst]; by destruct (nlt _ _).
Qed.

Lemma physicsStep_ids (balls : list Ball) (k : nat) :
  ids (fst (physicsStep Math_random balls k)) = ids balls.
Proof.
  unfold physicsStep, bind.
  pose proof (forEach_ids (moveBall Math_random) balls k moveBall_keepsId).
  destruct (forEach _ balls k) as [balls' k']. cbn [ret fst] in *.
  rewrite allPairs_ids; [done|apply collideHeadless_keepsIds].
Qed.

Lemma firstBall_Some (test : Ball -> bool) (balls : list Ball)
    (i : nat) (b : Ball) :
  firstBall test balls = Some (i, b) ->
  balls !! i = Some b /\ test b = true.
Proof.
  unfold firstBall. intros Hfind.
  apply list_find_Some in Hfind as (Hi & Ht & _).
  split; [done|]. by apply Is_true_true.
Qed.

Lemma ids_delete (i : nat) (balls : list Ball) :
  ids (delete i balls) = delete i (ids balls).
Proof.
  unfold ids. revert i.
  induction balls as [|b balls IH]; intros [|i]; cbn; [done..|].
  by rewrite <- IH.
Qed.

(** ** The animated drum: what one frame does to the selection *)



Lemma NoDup_move (selected balls : list Z) (i : nat) (id : Z) :
  balls !! i = Some id ->
  NoDup (selected ++ balls) ->
  NoDup ((selected ++ [id]) ++ delete i balls).
Proof.
  intros Hi Hnd.
  assert (selected ++ balls ≡ₚ (selected ++ [id]) ++ delete i balls) as <-;
    [|done].
  rewrite <- app_assoc. apply Permutation_app_head. cbn [app].
  by apply delete_Permutation.
Qed.





(** ** The headless run: the physics loop *)

Lemma physicsLoop_unroll (fuel : nat) (balls : list Ball) (selected : list Z)
    (k : nat) :
  (length selected < CONFIG.TOTAL_DRAW_COUNT)%nat ->
  physicsLoop Math_random (S fuel) balls selected k
  = let '(balls', selected', k') := attempt Math_random (balls, selected, k) in
    physicsLoop Math_random fuel balls' selected' k'.
Proof.
  intros Hlt. cbn [physicsLoop attempt]. apply Nat.ltb_lt in Hlt as ->.
  unfold bind.
  destruct (times _ _ balls k) as [moved k'].
  destruct (extractionAttempt moved selected) as [balls' selected'].
  by rewrite andb_false_r.
Qed.

(** The safety break never fires, so the physics loop ends only with a
    full selection: the fill loop that follows it has nothing to do. *)
Lemma physicsLoop_returns_full (fuel : nat) (balls : list Ball)
    (selected : list Z) (k : nat) (balls' : list Ball) (selected' : list Z)
    (k' : nat) :
  physicsLoop Math_random fuel balls selected k
  = (Returned (balls', selected'), k') ->
  (CONFIG.TOTAL_DRAW_COUNT <= length selected')%nat.
Proof.
  revert balls selected k.
  induction fuel as [|fuel IH]; intros balls selected k.
  - cbn [physicsLoop].
    destruct (Nat.ltb_spec (length selected) CONFIG.TOTAL_DRAW_COUNT);
      [done|]. by intros [= _ <- _].
  - destruct (Nat.ltb_spec (length selected) CONFIG.TOTAL_DRAW_COUNT)
      as [Hlt|Hge].
    + rewrite physicsLoop_unroll by done.
      destruct (attempt _ _) as [[b s] j]. apply IH.
    + cbn [physicsLoop]. apply Nat.ltb_ge in Hge as Hge'. rewrite Hge'.
      by intros [= _ <- _].
Qed.

(** If no number of passes ever completes the selection, the physics
    loop is still running whatever the fuel. *)
Lemma physicsLoop_stalls (st : list Ball * list Z * nat) :
  (forall i, (length (selectedOf (Nat.iter i (attempt Math_random) st))
              < CONFIG.TOTAL_DRAW_COUNT)%nat) ->
  forall fuel,
    fst (physicsLoop Math_random fuel (fst (fst st)) (selectedOf st) (snd st))
    = OutOfFuel.
Proof.
  intros Hnever fuel. revert st Hnever.
  induction fuel as [|fuel IH]; intros [[balls selected] k] Hnever;
    cbn [fst snd selectedOf].
  - specialize (Hnever O). cbn in Hnever.
    cbn [physicsLoop]. by apply Nat.ltb_lt in Hnever as ->.
  - rewrite physicsLoop_unroll by apply (Hnever O).
    specialize (IH (attempt Math_random (balls, selected, k))).
    destruct (attempt Math_random (balls, selected, k)) as [[balls' selected'] k'] eqn:Hst.
    apply IH. intros i. specialize (Hnever (S i)).
    by rewrite Nat.iter_succ_r, Hst in Hnever.
Qed.

Lemma runHeadlessSimulation_stalls :
  (forall i, (length (selectedOf
                (Nat.iter i (attempt Math_random)
                   (fst (headlessBalls Math_random 0), [],
                    snd (headlessBalls Math_random 0))))
              < CONFIG.TOTAL_DRAW_COUNT)%nat) ->
  forall fuel, fst (runHeadlessSimulation Math_random fuel 0) = OutOfFuel.
Proof.
  intros Hnever fuel. unfold runHeadlessSimulation, bind.
  pose proof (physicsLoop_stalls _ Hnever fuel) as Hloop.
  cbn [fst snd selectedOf] in Hloop.
  destruct (headlessBalls Math_random 0) as [balls k]. cbn [fst snd] in Hloop.
  destruct (physicsLoop Math_random fuel balls [] k) as [looped k'].
  cbn [fst] in Hloop. by subst looped.
Qed.

Lemma attempt_selected_grows (st : list Ball * list Z * nat) (i j : nat) :
  i <= j ->
  length (selectedOf (Nat.iter i (attempt Math_random) st))
  <= length (selectedOf (Nat.iter j (attempt Math_random) st)).
Proof.
  induction 1 as [|j Hle IH]; [done|].
  etransitivity; [exact IH|]. rewrite Nat.iter_succ.
  destruct (Nat.iter j (attempt Math_random) st) as [[balls selected] k].
  cbn [attempt]. unfold selectedOf, extractionAttempt.
  destruct (times _ _ balls k) as [moved k'].
  destruct (firstBall _ moved) as [[idx b]|]; cbn [fst snd]; [|done].
  rewrite length_app. lia.
Qed.

Lemma forEach_constant_cost {A B : Type} (f : A -> Rand B) (g : A -> B)
    (c : nat) (l : list A) (k : nat) :
  (forall a j, f a j = (g a, c + j)%nat) ->
  forEach f l k = (map g l, length l * c + k)%nat.
Proof.
  intros Hf. revert k.
  induction l as [|a l IH]; intros k; [done|].
  cbn [forEach map length]. unfold bind. rewrite Hf, IH. cbn [ret].
  f_equal. lia.
Qed.

End Generic.


End SimulationFacts.

(** * Ball-ball collisions over the real numbers *)

Module CollisionFacts.
Import Simulation.
#[local] Existing Instance Real.number.

Local Open Scope R_scope.

Abbreviation Ball := (@Ball R).



Lemma sin_cos_unit (a : R) : sin a * sin a + cos a * cos a = 1.
Proof. pose proof (sin2_cos2 a) as Hsc. unfold Rsqr in Hsc. exact Hsc. Qed.



Lemma lower_upper_touch :
  sqrt ((3 - 0) * (3 - 0) + (4 - 0) * (4 - 0)) < 10 + 10.
Proof.
  replace ((3 - 0) * (3 - 0) + (4 - 0) * (4 - 0)) with (5 * 5) by lra.
  rewrite sqrt_square; lra.
Qed.


End CollisionFacts.

(** * A headless run that never ends *)

Module HeadlessFacts.
Import Simulation SimulationFacts.
#[local] Existing Instance Double.number.

Local Open Scope nat_scope.

Section Stall.
(** The host's [Math.cos], [Math.sin] and [Math.atan2]; of them the run
    below needs only [cos 0 = 1] and [sin 0 = 0]. *)
Context {host : Double.HostMath}.
Hypothesis cos_zero : Double.host_cos 0%float = 1%float.
Hypothesis sin_zero : Double.host_sin 0%float = 0%float.

(** All 45 balls start at the same point. *)
Lemma headlessBall_allZero (i : Z) (k : nat) :
  headlessBall allZero i k = (centred i, 4 + k).
Proof using cos_zero sin_zero.
  unfold headlessBall, bind, random, ret, allZero.
  cbn [Math_cos Math_sin Math_PI nmul nadd nsub ndiv ofZ dec Double.number].
  change (0 * Double.PI * Double.of_Z 2)%float with 0%float.
  rewrite cos_zero, sin_zero. reflexivity.
Qed.

Lemma headlessBalls_allZero :
  headlessBalls allZero 0 = (map centred (zrange 1 45), 180).
Proof using cos_zero sin_zero.
  unfold headlessBalls.
  rewrite (forEach_constant_cost _ centred 4); [reflexivity|].
  apply headlessBall_allZero.
Qed.

Lemma nine_attempts :
  Nat.iter 9 (attempt allZero) (map centred (zrange 1 45), [], 180)
  = caught 189.
Proof. vm_compute. reflexivity. Qed.

Lemma caught_forever (k : nat) : attempt allZero (caught k) = caught k.
Proof. vm_compute. reflexivity. Qed.

Lemma caught_iter (k i : nat) : Nat.iter i (attempt allZero) (caught k) = caught k.
Proof.
  induction i as [|i IH]; [done|].
  rewrite Nat.iter_succ, IH. apply caught_forever.
Qed.

Lemma never_seven (i : nat) :
  length (selectedOf (Nat.iter i (attempt allZero)
                        (map centred (zrange 1 45), [], 180)))
  < CONFIG.TOTAL_DRAW_COUNT.
Proof.
  unfold CONFIG.TOTAL_DRAW_COUNT.
  destruct (Nat.le_gt_cases i 9) as [Hle|Hgt].
  - pose proof (attempt_selected_grows allZero
                  (map centred (zrange 1 45), [], 180) i 9 Hle) as Hgrow.
    rewrite nine_attempts in Hgrow.
    unfold caught, selectedOf in *. cbn [fst snd length] in Hgrow. lia.
  - replace i with ((i - 9) + 9) by lia.
    rewrite Nat.iter_add, nine_attempts, caught_iter.
    unfold caught, selectedOf. cbn [fst snd length]. lia.
Qed.

(** C1, the run that does not end. [Math.random()] returns 0 at every
    call ([cos 0 = 1] and [sin 0 = 0] is all that is asked of the host):
    the 45 balls start at one point, the first collision pass divides by
    a distance of 0 and leaves the balls 1..44 with [NaN] coordinates,
    ball 45 is extracted at the ninth attempt, and no later attempt
    finds a ball in the suction zone. The safety break never fires, so
    the call is still in its physics loop whatever the fuel: it returns
    nothing and the fill loop is never reached. *)
Theorem headless_run_never_returns (fuel : nat) :
  fst (runHeadlessSimulation allZero fuel 0) = OutOfFuel.
Proof using cos_zero sin_zero.
  apply runHeadlessSimulation_stalls. intros i.
  rewrite headlessBalls_allZero. cbn [fst snd]. apply never_seven.
Qed.

End Stall.

Lemma headless_run_never_returns_witness :
  fst (runHeadlessSimulation (H := Double.number (H := Double.constantHost))
                             allZero 1000 0)
  = OutOfFuel.
Proof.
  apply (headless_run_never_returns (host := Double.constantHost));
    reflexivity.
Defined.

End HeadlessFacts.

(** * Properties of the other generators and of the pool *)

Module GeneratorsFacts.
Import Algorithms Generators AlgorithmsFacts.

Local Open Scope Z_scope.

(** ** The composition of the pool *)

Lemma occurrencesIn_app (n : Z) (l1 l2 : list Z) :
  occurrencesIn n (l1 ++ l2) = (occurrencesIn n l1 + occurrencesIn n l2)%nat.
Proof. unfold occurrencesIn. by rewrite filter_app, length_app. Qed.

Lemma occurrencesIn_replicate (n key : Z) (c : nat) :
  occurrencesIn n (replicate c key) = if decide (key = n) then c else O.
Proof.
  unfold occurrencesIn. destruct (decide (key = n)) as [Hk|Hk].
  - induction c as [|c IH]; cbn [replicate]; [done|].
    rewrite filter_cons, decide_True by done. cbn [length]. by rewrite IH.
  - induction c as [|c IH]; cbn [replicate]; [done|].
    by rewrite filter_cons, decide_False.
Qed.

Lemma objGet_None_keys {A : Type} (n : Z) (o : Obj A) :
  objGet n o = None <-> n ∉ map fst o.
Proof.
  induction o as [|[k v] o IH]; cbn [objGet map fst].
  - split; [intros _; apply not_elem_of_nil|done].
  - rewrite not_elem_of_cons. destruct (Z.eqb_spec k n) as [->|Hne].
    + split; [done|]. by intros [? _].
    + rewrite IH. split; [by intros ?; split|by intros [_ ?]].
Qed.

Lemma copies_not_key (weights : Obj Q) (power n : Z) :
  n ∉ map fst weights -> copies weights power n = O.
Proof.
  unfold copies, buildPool. induction weights as [|[k v] ws IH]; [done|].
  cbn [map fst flat_map snd]. rewrite not_elem_of_cons. intros [Hne Hnot].
  rewrite occurrencesIn_app, occurrencesIn_replicate, IH by done.
  by rewrite decide_False by done.
Qed.

(** X1. In the pool [createPoolAndPick] builds from an object whose
    keys are pairwise distinct, a key [n] of weight [w] has exactly
    [Math.round(Math.pow(w, power) * 10)] copies (none when that is
    negative), and a number that is not a key has none. *)
Theorem pool_copies_follow_the_weight
    (weights : Obj Q) (power n : Z) (Hkeys : NoDup (map fst weights)) :
  copies weights power n
  = match objGet n weights with
    | Some w => Z.to_nat (Math_round (Qpower w power * 10))
    | None => O
    end.
Proof.
  destruct (objGet n weights) as [w|] eqn:Hget;
    [|by apply copies_not_key, objGet_None_keys].
  unfold copies, buildPool. induction weights as [|[k v] ws IH]; [done|].
  cbn [map fst flat_map snd objGet] in *.
  apply NoDup_cons in Hkeys as [Hfresh Hkeys].
  rewrite occurrencesIn_app, occurrencesIn_replicate.
  destruct (Z.eqb_spec k n) as [->|Hne].
  - injection Hget as ->. rewrite decide_True by done.
    fold (buildPool ws power). fold (copies ws power n).
    rewrite copies_not_key by done. lia.
  - rewrite decide_False by done. by apply IH.
Qed.

Lemma pool_copies_follow_the_weight_witness :
  copies (frequencyWeights twice) 1 3 = 30%nat.
Proof.
  rewrite (pool_copies_follow_the_weight (frequencyWeights twice) 1 3).
  - reflexivity.
  - rewrite frequencyWeights_keys. apply zrange_NoDup.
Defined.

Lemma Math_round_integer_times_ten (a : Z) :
  Math_round (Qpower (inject_Z a) 1 * 10) = 10 * a.
Proof.
  unfold Math_round.
  assert (Qpower (inject_Z a) 1 * 10 + (1 # 2) == (1 + (10 * a) * 2) # 2)%Q
    as ->.
  { change (Qpower (inject_Z a) 1) with (inject_Z a).
    unfold Qeq, Qplus, Qmult, inject_Z. cbn [Qnum Qden]. lia. }
  unfold Qfloor. rewrite Z.div_add by lia. change (1 / 2) with 0. lia.
Qed.

(** X2. The pool of [getWeightedNumbers] holds ten copies of each number
    1..45 for its base weight and ten more for each of its occurrences
    in the history, and no other number. *)
Theorem weighted_pool_has_ten_copies_per_occurrence
    (winningNumbers : list HistoryEntry) (n : Z) :
  copies (frequencyWeights winningNumbers) CONFIG.WEIGHTED_POWER n
  = if bool_decide (1 <= n <= 45)
    then (10 * (1 + occurrences n winningNumbers))%nat
    else O.
Proof.
  rewrite pool_copies_follow_the_weight
    by (rewrite frequencyWeights_keys; apply zrange_NoDup).
  case_bool_decide as Hn.
  - rewrite frequencyWeights_get by done.
    unfold CONFIG.WEIGHTED_POWER. rewrite Math_round_integer_times_ten. lia.
  - assert (objGet n (frequencyWeights winningNumbers) = None) as ->; [|done].
    apply objGet_None_keys. rewrite frequencyWeights_keys, zrange_spec.
    unfold CONFIG.TOTAL_NUMBERS. lia.
Qed.

(** ** getNonFrequencyNumbers *)

Lemma objGet_map_range {A : Type} (f : Z -> A) (l : list Z) (n : Z) :
  objGet n (map (fun i => (i, f i)) l)
  = if bool_decide (n ∈ l) then Some (f n) else None.
Proof.
  induction l as [|i l IH]; cbn [map objGet]; [done|].
  destruct (Z.eqb_spec i n) as [->|Hne].
  - by rewrite bool_decide_eq_true_2 by (apply elem_of_cons; by left).
  - rewrite IH. destruct (decide (n ∈ l)) as [Hin|Hin].
    + by rewrite !bool_decide_eq_true_2 by (try apply elem_of_cons; auto).
    + rewrite !bool_decide_eq_false_2; [done| |done].
      rewrite elem_of_cons. intros [Heq|Hin']; [by apply Hne|by apply Hin].
Qed.

Lemma countColdDraw_numbers (fr : Obj Q) (draw : list Z) (n c : Z) :
  objGet n fr = Some (inject_Z c) ->
  objGet n (countColdDraw fr (ArrayOf draw))
  = Some (inject_Z (c + Z.of_nat (occurrencesIn n draw))).
Proof.
  cbn [countColdDraw]. revert fr c.
  induction draw as [|m draw IH]; intros fr c Hget; cbn [foldl].
  - rewrite Hget. do 2 f_equal. unfold occurrencesIn. cbn. lia.
  - unfold occurrencesIn. rewrite filter_cons. case_decide as Hm.
    + subst m. cbn [length].
      rewrite (IH _ (c + 1)); [do 2 f_equal; unfold occurrencesIn; lia|].
      rewrite objGet_alter, Z.eqb_refl, Hget. cbn [fmap option_fmap option_map].
      by rewrite Q_succ.
    + rewrite (IH _ c); [done|].
      rewrite objGet_alter.
      assert ((n =? m) = false) as -> by lia. done.
Qed.

Lemma coldFrequency_from (fr : Obj Q) (winningNumbers : list HistoryEntry)
    (n c : Z) :
  objGet n fr = Some (inject_Z c) ->
  objGet n (foldl countColdDraw fr winningNumbers)
  = Some (inject_Z (c + Z.of_nat (occurrences n winningNumbers))).
Proof.
  revert fr c.
  induction winningNumbers as [|entry h IH]; intros fr c Hget; cbn [foldl].
  - rewrite Hget. do 2 f_equal. unfold occurrences. cbn. lia.
  - destruct entry as [draw|].
    + rewrite (IH _ (c + Z.of_nat (occurrencesIn n draw))).
      * do 2 f_equal. rewrite occurrences_cons. lia.
      * by apply countColdDraw_numbers.
    + rewrite (IH _ c); [|done]. do 2 f_equal.
Qed.

Lemma coldFrequency_get (winningNumbers : list HistoryEntry) (n : Z) :
  1 <= n <= 45 ->
  objGet n (coldFrequency winningNumbers)
  = Some (inject_Z (Z.of_nat (occurrences n winningNumbers))).
Proof.
  intros Hn. unfold coldFrequency.
  rewrite (coldFrequency_from _ _ n 0); [done|].
  by apply objGet_allNumbers.
Qed.

Lemma coldWeights_get (winningNumbers : list HistoryEntry) (n : Z) :
  1 <= n <= 45 ->
  objGet n (coldWeights winningNumbers)
  = Some (100 / (inject_Z (Z.of_nat (occurrences n winningNumbers)) + 1))%Q.
Proof.
  intros Hn. unfold coldWeights. cbv zeta.
  rewrite (objGet_map_range
             (fun i => (100 / (default 0 (objGet i
                                   (coldFrequency winningNumbers)) + 1))%Q)).
  rewrite bool_decide_eq_true_2
    by (apply zrange_spec; unfold CONFIG.TOTAL_NUMBERS; lia).
  by rewrite coldFrequency_get.
Qed.

Lemma cold_weight_value (a : nat) :
  (100 / (inject_Z (Z.of_nat a) + 1) == 100 # Pos.of_succ_nat a)%Q.
Proof.
  rewrite Q_succ. unfold Qdiv, Qinv, inject_Z. cbn [Qnum Qden].
  replace (Z.of_nat a + 1) with (Z.pos (Pos.of_succ_nat a)) by lia.
  unfold Qeq, Qmult. cbn [Qnum Qden]. lia.
Qed.

(** X3. [getNonFrequencyNumbers] samples from a mapping with exactly the
    keys 1..45 in which a number that occurs [c] times in the history
    has the weight [100 / (c + 1)]: the weight is positive, at most 100,
    and strictly smaller for a number that occurs more often. *)
Theorem cold_weights_fall_with_frequency
    (winningNumbers winningNumbers' : list HistoryEntry) (n m : Z)
    (Hn : 1 <= n <= 45) (Hm : 1 <= m <= 45) :
  map fst (coldWeights winningNumbers) = zrange 1 45
  /\ (weightOf (coldWeights winningNumbers) n
      == 100 # Pos.of_succ_nat (occurrences n winningNumbers))%Q
  /\ (0 < weightOf (coldWeights winningNumbers) n <= 100)%Q
  /\ ((occurrences n winningNumbers < occurrences m winningNumbers')%nat ->
      (weightOf (coldWeights winningNumbers') m
       < weightOf (coldWeights winningNumbers) n)%Q).
Proof.
  unfold weightOf. rewrite !coldWeights_get by done. cbn [from_option].
  unfold Datatypes.id. rewrite !cold_weight_value.
  split; [|split; [reflexivity|split]].
  - unfold coldWeights. cbv zeta. rewrite map_map. cbn [fst]. apply map_id.
  - unfold Qlt, Qle. cbn [Qnum Qden]. split; lia.
  - intros Hlt. unfold Qlt. cbn [Qnum Qden]. lia.
Qed.

Lemma cold_weights_fall_with_frequency_witness :
  (weightOf (coldWeights twice) 1 < weightOf (coldWeights twice) 7)%Q.
Proof.
  apply (cold_weights_fall_with_frequency twice twice 7 1); [lia|lia|].
  vm_compute. lia.
Defined.

Lemma cold_round (a : nat) (w : Q) :
  (w == 100 # Pos.of_succ_nat a)%Q ->
  Math_round (Qpower w 1 * 10)
  = (2000 + Z.of_nat (S a)) / (2 * Z.of_nat (S a)).
Proof.
  intros Hw. unfold Math_round.
  assert (Qpower w 1 * 10 + (1 # 2)
          == (2000 + Z.of_nat (S a)) # (2 * Pos.of_succ_nat a))%Q as ->.
  { change (Qpower w 1) with w. rewrite Hw.
    unfold Qeq, Qplus, Qmult. cbn [Qnum Qden]. lia. }
  unfold Qfloor. f_equal; lia.
Qed.

(** X4. In the pool of [getNonFrequencyNumbers] a number of 1..45 that
    occurs [c] times in the history has [Math.round(1000 / (c + 1))]
    copies: at least one as long as it occurs at most 1999 times, and
    none, so that it can no longer be drawn, from 2000 occurrences on. *)
Theorem cold_pool_drops_numbers_after_2000_occurrences
    (winningNumbers : list HistoryEntry) (n : Z) (Hn : 1 <= n <= 45) :
  let c := Z.of_nat (occurrences n winningNumbers) in
  copies (coldWeights winningNumbers) CONFIG.WEIGHTED_POWER n
  = Z.to_nat ((2000 + (c + 1)) / (2 * (c + 1)))
  /\ ((1 <= copies (coldWeights winningNumbers) CONFIG.WEIGHTED_POWER n)%nat
      <-> c <= 1999).
Proof.
  cbv zeta.
  assert (copies (coldWeights winningNumbers) CONFIG.WEIGHTED_POWER n
          = Z.to_nat ((2000 + (Z.of_nat (occurrences n winningNumbers) + 1))
                      / (2 * (Z.of_nat (occurrences n winningNumbers) + 1))))
    as Heq.
  { rewrite pool_copies_follow_the_weight.
    - rewrite coldWeights_get by done. unfold CONFIG.WEIGHTED_POWER.
      rewrite (cold_round (occurrences n winningNumbers))
        by apply cold_weight_value.
      do 2 f_equal; lia.
    - unfold coldWeights. cbv zeta. rewrite map_map. cbn [fst].
      rewrite map_id. apply zrange_NoDup. }
  split; [exact Heq|]. rewrite Heq.
  set (c := Z.of_nat (occurrences n winningNumbers)).
  assert (0 <= c) by lia.
  split.
  - intros Hone.
    destruct (Z.le_gt_cases c 1999) as [|Hbig]; [done|].
    rewrite Z.div_small in Hone by lia. cbn in Hone. lia.
  - intros Hsmall.
    assert (1 <= (2000 + (c + 1)) / (2 * (c + 1))); [|lia].
    apply Z.div_le_lower_bound; lia.
Qed.

Lemma cold_pool_drops_numbers_after_2000_occurrences_witness :
  copies (coldWeights twice) CONFIG.WEIGHTED_POWER 1 = 333%nat
  /\ copies (coldWeights twice) CONFIG.WEIGHTED_POWER 7 = 1000%nat.
Proof.
  split.
  - apply (cold_pool_drops_numbers_after_2000_occurrences twice 1). lia.
  - apply (cold_pool_drops_numbers_after_2000_occurrences twice 7). lia.
Defined.

(** ** pickFromWeights *)






(** ** getRandomNumbers *)

Lemma roll_range (r : Q) (max : Z) :
  (0 <= r)%Q -> (r < 1)%Q -> 0 < max ->
  1 <= Qfloor (r * inject_Z max) + 1 <= max.
Proof.
  intros Hr0 Hr1 Hmax.
  assert (0 < inject_Z max)%Q as Hpos.
  { change 0%Q with (inject_Z 0). rewrite <- Zlt_Qlt. lia. }
  assert (0 <= Qfloor (r * inject_Z max)).
  { change 0 with (Qfloor 0). apply Qfloor_resp_le.
    apply Qmult_le_0_compat; [done|]. by apply Qlt_le_weak. }
  assert (Qfloor (r * inject_Z max) < max); [|lia].
  rewrite Zlt_Qlt. eapply Qle_lt_trans; [apply Qfloor_le|].
  rewrite <- (Qmult_1_l (inject_Z max)) at 2.
  by apply Qmult_lt_compat_r.
Qed.



Lemma randomLoop_step (fuel : nat) (rng : nat -> Q) (k : nat) (count max : Z)
    (numbers : list Z) :
  Z.of_nat (length numbers) < count ->
  randomLoop (S fuel) rng k count max numbers
  = let num := Qfloor (rng k * inject_Z max) + 1 in
    if decide (num ∈ numbers)
    then randomLoop fuel rng (S k) count max numbers
    else randomLoop fuel rng (S k) count max (numbers ++ [num]).
Proof.
  intros Hless. cbn [randomLoop].
  destruct (Z.ltb_spec (Z.of_nat (length numbers)) count); [|lia].
  cbv zeta. unfold bool_decide. by destruct (decide_rel _ _ _); case_decide.
Qed.




Lemma randomLoop_starves (rng : nat -> Q) (count max : Z) :
  (forall k, (0 <= rng k)%Q /\ (rng k < 1)%Q) ->
  0 < max < count ->
  forall (fuel k : nat) (numbers : list Z),
    NoDup numbers ->
    (forall z, z ∈ numbers -> 1 <= z <= max) ->
    randomLoop fuel rng k count max numbers = OutOfFuel.
Proof.
  intros Hrng Hmax fuel.
  assert (forall numbers : list Z,
             NoDup numbers -> (forall z, z ∈ numbers -> 1 <= z <= max) ->
             Z.of_nat (length numbers) < count) as Hshort.
  { intros numbers Hnd Hin.
    assert (length numbers <= length (zrange 1 (Z.to_nat max)))%nat as Hle.
    { apply submseteq_length, NoDup_submseteq; [done|].
      intros z Hz. apply zrange_spec. apply Hin in Hz. lia. }
    rewrite length_zrange in Hle. lia. }
  induction fuel as [|fuel IH]; intros k numbers Hnd Hin.
  - cbn [randomLoop].
    destruct (Z.ltb_spec (Z.of_nat (length numbers)) count); [done|].
    specialize (Hshort numbers Hnd Hin). lia.
  - rewrite randomLoop_step by (by apply Hshort). cbv zeta.
    case_decide as Hold; [by apply IH|].
    apply IH.
    + apply NoDup_app. split; [done|]. split; [|apply NoDup_singleton].
      intros x Hx Hx'. by apply list_elem_of_singleton in Hx' as ->.
    + intros z Hz. apply elem_of_app in Hz as [Hz|Hz]; [by apply Hin|].
      apply list_elem_of_singleton in Hz as ->.
      apply roll_range; [apply Hrng|apply Hrng|lia].
Qed.

(** X7. [getRandomNumbers] asked for more numbers than [1..max] holds
    never returns: with [1 <= max < count] and an [rng] of [0,1) the
    loop is still running after any number of iterations. *)
Theorem getRandomNumbers_hangs_beyond_max
    (rng : nat -> Q) (count max : Z) (fuel : nat)
    (Hrng : forall k, (0 <= rng k)%Q /\ (rng k < 1)%Q)
    (Hmax : 0 < max < count) :
  getRandomNumbers fuel rng (Some count) (Some max) = OutOfFuel.
Proof.
  unfold getRandomNumbers. cbn [from_option]. unfold Datatypes.id.
  apply randomLoop_starves; [done|done|constructor|].
  intros z Hz. by apply elem_of_nil in Hz.
Qed.

Lemma getRandomNumbers_hangs_beyond_max_witness :
  getRandomNumbers 1000 stepping (Some 7) (Some 6) = OutOfFuel.
Proof.
  apply (getRandomNumbers_hangs_beyond_max stepping 7 6 1000).
  - intros k. unfold stepping, Qle, Qlt. cbn [Qnum Qden].
    pose proof (Nat.mod_upper_bound k 45). lia.
  - lia.
Defined.

(** ** The generators on an empty history *)




Lemma lookup_zrange (a : Z) (n i : nat) :
  (i < n)%nat -> zrange a n !! i = Some (a + Z.of_nat i).
Proof.
  intros Hi. unfold zrange. rewrite list_lookup_fmap.
  by rewrite lookup_seq_lt.
Qed.






(** ** getAdaptiveNumbers: the trend weights *)

Lemma objGet_alter_all {A : Type} (f : A -> A) (l : list Z) (n : Z)
    (o : Obj A) :
  NoDup l ->
  objGet n (foldl (fun ws w => objAlter f w ws) o l)
  = if decide (n ∈ l) then f <$> objGet n o else objGet n o.
Proof.
  intros Hnd. revert o.
  induction Hnd as [|w l Hw Hnd IH]; intros o; cbn [foldl].
  - by rewrite decide_False by apply not_elem_of_nil.
  - rewrite IH, objGet_alter.
    destruct (Z.eqb_spec n w) as [->|Hne].
    + rewrite decide_False by done.
      by rewrite decide_True by (by left).
    + destruct (decide (n ∈ l)) as [Hin|Hin].
      * by rewrite decide_True by (by right).
      * rewrite decide_False; [done|].
        intros Hc. apply elem_of_cons in Hc as [?|?]; done.
Qed.

Lemma objGet_reward (draw : list Z) (n : Z) (o : Obj Q) :
  objGet n (foldl (fun ws num =>
                     objAlter (fun v => v + CONFIG.ADAPTIVE_REWARD)%Q num ws)
                  o draw)
  = Nat.iter (occurrencesIn n draw) (fun v => v + CONFIG.ADAPTIVE_REWARD)%Q
      <$> objGet n o.
Proof.
  revert o. induction draw as [|m draw IH]; intros o; cbn [foldl].
  - change (occurrencesIn n []) with O. destruct (objGet n o); reflexivity.
  - rewrite IH, objGet_alter. unfold occurrencesIn. rewrite filter_cons.
    destruct (Z.eqb_spec n m) as [->|Hne].
    + rewrite decide_True by done. cbn [length].
      destruct (objGet m o); [|done]. cbn [fmap option_fmap option_map].
      by rewrite Nat.iter_succ_r.
    + by rewrite decide_False by (intros ->; done).
Qed.

Lemma iter_reward (c : nat) (v : Q) :
  (Nat.iter c (fun v => v + CONFIG.ADAPTIVE_REWARD) v
   == v + inject_Z (Z.of_nat c))%Q.
Proof.
  induction c as [|c IH].
  - change (v == v + 0)%Q. lra.
  - rewrite Nat.iter_succ, IH, Nat2Z.inj_succ. unfold Z.succ.
    rewrite inject_Z_plus. unfold CONFIG.ADAPTIVE_REWARD.
    change (inject_Z 1) with 1%Q. lra.
Qed.

Lemma trendStep_get (ws : Obj Q) (draw : list Z) (n : Z) (v : Q) :
  1 <= n <= 45 ->
  objGet n ws = Some v ->
  exists v',
    objGet n (trendStep ws (ArrayOf draw)) = Some v'
    /\ (v' == v * CONFIG.ADAPTIVE_DECAY_RATE
             + inject_Z (Z.of_nat (occurrencesIn n draw)))%Q.
Proof.
  intros Hn Hget. cbn [trendStep]. cbv zeta.
  rewrite objGet_reward, objGet_alter_all by apply zrange_NoDup.
  rewrite decide_True
    by (apply zrange_spec; unfold CONFIG.TOTAL_NUMBERS; lia).
  rewrite Hget. cbn [fmap option_fmap option_map].
  eexists. split; [done|]. apply iter_reward.
Qed.

Lemma trend_defined (entries : list HistoryEntry) (ws : Obj Q) (n : Z) (v : Q) :
  1 <= n <= 45 ->
  objGet n ws = Some v ->
  exists v', objGet n (foldl trendStep ws entries) = Some v'.
Proof.
  intros Hn. revert ws v.
  induction entries as [|[draw|] entries IH]; intros ws v Hget; cbn [foldl].
  - by exists v.
  - destruct (trendStep_get ws draw n v Hn Hget) as (v' & Hv' & _).
    by apply (IH _ v').
  - by apply (IH _ v).
Qed.

Lemma adaptiveWeights_defined (winningNumbers : list HistoryEntry) (n : Z) :
  1 <= n <= 45 ->
  exists v, objGet n (adaptiveWeights winningNumbers) = Some v.
Proof.
  intros Hn. unfold adaptiveWeights. cbv zeta.
  apply (trend_defined _ _ n 1%Q Hn). by apply objGet_allNumbers.
Qed.

Lemma adaptiveWeights_cons (entry : HistoryEntry)
    (winningNumbers : list HistoryEntry) :
  (length winningNumbers < RECENT_LIMIT)%nat ->
  adaptiveWeights (entry :: winningNumbers)
  = trendStep (adaptiveWeights winningNumbers) entry.
Proof.
  intros Hlen. unfold adaptiveWeights, RECENT_LIMIT in *. cbv zeta.
  cbn [take rev]. rewrite foldl_app. cbn [foldl].
  by rewrite !take_ge by lia.
Qed.

(** X9. The trend weights of [getAdaptiveNumbers]: every number of
    1..45 starts at 1; each draw, from the oldest to the newest of the
    history, multiplies the weight by 0.96 and then adds 1 for each
    occurrence of the number in that draw; an entry that is not an array
    changes nothing; and only the first 100 entries of the history are
    looked at. *)
Theorem adaptive_weight_decays_and_rewards
    (winningNumbers : list HistoryEntry) (draw : list Z) (n : Z)
    (Hn : 1 <= n <= 45)
    (Hlen : (length winningNumbers < 100)%nat) :
  weightOf (adaptiveWeights []) n = 1%Q
  /\ (weightOf (adaptiveWeights (ArrayOf draw :: winningNumbers)) n
      == (96 # 100) * weightOf (adaptiveWeights winningNumbers) n
         + inject_Z (Z.of_nat (occurrencesIn n draw)))%Q
  /\ adaptiveWeights (NotAnArray :: winningNumbers)
     = adaptiveWeights winningNumbers
  /\ (forall first older : list HistoryEntry,
        length first = 100%nat ->
        adaptiveWeights (first ++ older) = adaptiveWeights first).
Proof.
  split; [|split; [|split]].
  - change (adaptiveWeights []) with (allNumbers 1). unfold weightOf.
    by rewrite objGet_allNumbers.
  - rewrite adaptiveWeights_cons by done.
    destruct (adaptiveWeights_defined winningNumbers n Hn) as (v & Hv).
    destruct (trendStep_get _ draw n v Hn Hv) as (v' & Hv' & Heq).
    unfold weightOf. rewrite Hv, Hv'. cbn [from_option].
    unfold Datatypes.id. rewrite Heq.
    unfold CONFIG.ADAPTIVE_DECAY_RATE. lra.
  - by rewrite adaptiveWeights_cons by done.
  - intros first older Hfirst. unfold adaptiveWeights, RECENT_LIMIT. cbv zeta.
    rewrite take_app_length' by done. by rewrite take_ge by lia.
Qed.

Lemma adaptive_weight_decays_and_rewards_witness :
  (weightOf (adaptiveWeights (ArrayOf [7; 7; 9]%Z :: twice)) 7%Z
   == (96 # 100) * weightOf (adaptiveWeights twice) 7%Z + 2)%Q.
Proof.
  apply (adaptive_weight_decays_and_rewards twice [7; 7; 9] 7); [lia|].
  cbn. lia.
Defined.

(** ** getAdaptiveNumbers: numbers that leave the pool *)














(** ** getSequentialNumbers: the shuffle *)

Lemma swap_Permutation (i : nat) (j : Z) (sequence : list Z) :
  swap i j sequence ≡ₚ sequence.
Proof.
  unfold swap, at_.
  destruct (sequence !! i) as [a|] eqn:Hi; [|done].
  destruct (j <? 0) eqn:Hneg; [done|].
  destruct (sequence !! Z.to_nat j) as [b|] eqn:Hj; [|done].
  set (j' := Z.to_nat j) in *.
  pose proof (lookup_lt_Some _ _ _ Hi) as Hilen.
  pose proof (lookup_lt_Some _ _ _ Hj) as Hjlen.
  apply Permutation_inj. split; [by rewrite !length_insert|].
  exists (fun x => if decide (x = i) then j'
                   else if decide (x = j') then i else x).
  split.
  - intros x y. repeat case_decide; congruence.
  - intros x. destruct (decide (x = j')) as [->|Hxj].
    + rewrite list_lookup_insert_eq by (by rewrite length_insert).
      case_decide as Hji; [by rewrite <- Hji in Hi|done].
    + rewrite list_lookup_insert_ne by done.
      destruct (decide (x = i)) as [->|Hxi].
      * by rewrite list_lookup_insert_eq.
      * by rewrite list_lookup_insert_ne.
Qed.

Lemma shuffle_spec (i : nat) (sequence : list Z) (Math_random : nat -> Q)
    (k : nat) :
  fst (shuffle i sequence Math_random k) ≡ₚ sequence
  /\ snd (shuffle i sequence Math_random k) = (k + i)%nat.
Proof.
  revert sequence k. induction i as [|i IH]; intros sequence k.
  - cbn [shuffle fst snd]. split; [done|lia].
  - cbn [shuffle]. cbv zeta. destruct (IH (swap (S i) (scaled (Math_random k) (S i + 1)) sequence) (S k))
      as [Hperm Hcount].
    split; [|lia]. by rewrite Hperm, swap_Permutation.
Qed.

(** X11. The Fisher-Yates loop of [getSequentialNumbers], run on a draw
    with a [Math.random] of [0,1), only reorders the draw: at index [i]
    it swaps with an index of [0..i], so that no element is read or
    written outside the array; the shuffled sequence is a permutation
    of the draw; and the loop calls [Math.random] once for each index
    from the last down to 1. *)
Theorem shuffle_permutes_the_draw
    (draw : list Z) (Math_random : nat -> Q) (k : nat)
    (Hrandom : forall j, (0 <= Math_random j)%Q /\ (Math_random j < 1)%Q) :
  (forall i j : nat, 0 <= scaled (Math_random j) (i + 1) <= Z.of_nat i)
  /\ fst (shuffle (length draw - 1) draw Math_random k) ≡ₚ draw
  /\ snd (shuffle (length draw - 1) draw Math_random k)
     = (k + (length draw - 1))%nat.
Proof.
  split; [|apply shuffle_spec].
  intros i j.
  pose proof (scaled_range (Math_random j) (i + 1) (proj1 (Hrandom j))
                (proj2 (Hrandom j)) ltac:(lia)).
  lia.
Qed.

Lemma shuffle_permutes_the_draw_witness :
  fst (shuffle 5 [1; 2; 3; 4; 5; 6] spread 0) ≡ₚ [1; 2; 3; 4; 5; 6]
  /\ snd (shuffle 5 [1; 2; 3; 4; 5; 6] spread 0) = 5%nat.
Proof.
  apply (shuffle_permutes_the_draw [1; 2; 3; 4; 5; 6] spread 0).
  intros k. unfold spread, Qle, Qlt. cbn [Qnum Qden].
  pose proof (Nat.mod_upper_bound k 10). lia.
Defined.

(** ** getSequentialNumbers: the numbers of the draw *)

Lemma objGet_objSet {A : Type} (key n : Z) (v : A) (o : Obj A) :
  objGet n (objSet key v o) = if n =? key then Some v else objGet n o.
Proof.
  induction o as [|[k a] o IH]; cbn [objSet objGet].
  - destruct (Z.eqb_spec key n), (Z.eqb_spec n key); done || lia.
  - destruct (Z.eqb_spec k key) as [->|Hk].
    + cbn [objGet]. destruct (Z.eqb_spec key n), (Z.eqb_spec n key);
        done || lia.
    + destruct (isArrayIndex key && _); cbn [objGet].
      * destruct (Z.eqb_spec key n), (Z.eqb_spec n key); done || lia.
      * rewrite IH. destruct (Z.eqb_spec k n), (Z.eqb_spec n key);
          done || lia.
Qed.

Lemma objSet_keys {A : Type} (key n : Z) (v : A) (o : Obj A) :
  n ∈ map fst (objSet key v o) -> n = key \/ n ∈ map fst o.
Proof.
  induction o as [|[k a] o IH]; cbn [objSet map fst].
  - intros Hn. apply list_elem_of_singleton in Hn. by left.
  - destruct (Z.eqb_spec k key) as [->|Hk]; [by right|].
    destruct (isArrayIndex key && _); cbn [map fst].
    + intros Hn. apply elem_of_cons in Hn as [->|Hn]; [by left|by right].
    + intros Hn. apply elem_of_cons in Hn as [->|Hn].
      * right. by left.
      * destruct (IH Hn) as [->|Hin]; [by left|]. right. by right.
Qed.

Lemma objGet_keys {A : Type} (n : Z) (o : Obj A) (v : A) :
  objGet n o = Some v -> n ∈ map fst o.
Proof.
  intros Hget. destruct (decide (n ∈ map fst o)) as [|Hnot]; [done|].
  apply objGet_None_keys in Hnot. congruence.
Qed.

Section Learned.

Variable known : Z -> Prop.

Local Abbreviation rowsWithin := (Generators.rowsWithin known).

Lemma bump_within (current next : Z) (transitions : Obj (Obj Z)) :
  known next -> rowsWithin transitions ->
  rowsWithin (bump current next transitions).
Proof.
  intros Hnext Hrows c row n. unfold bump. cbv zeta.
  rewrite objGet_objSet. destruct (Z.eqb_spec c current) as [->|Hc].
  - intros [= <-] Hn. apply objSet_keys in Hn as [->|Hn]; [done|].
    destruct (objGet current transitions) as [old|] eqn:Hold.
    + by apply (Hrows current old n).
    + by apply elem_of_nil in Hn.
  - apply Hrows.
Qed.

Lemma record_within (sequence : list Z) (transitions : Obj (Obj Z)) :
  (forall z, z ∈ sequence -> known z) -> rowsWithin transitions ->
  rowsWithin (record sequence transitions).
Proof.
  revert transitions.
  induction sequence as [|current rest IH]; intros transitions Hseq Hrows;
    [done|].
  cbn [record]. destruct rest as [|next rest]; [done|].
  apply IH.
  - intros z Hz. apply Hseq. by right.
  - apply bump_within; [|done]. apply Hseq. right. by left.
Qed.

Lemma learnDraw_within (Math_random : nat -> Q) (st : Obj (Obj Z) * nat)
    (entry : HistoryEntry) :
  (forall z, z ∈ numbersOf [entry] -> known z) ->
  rowsWithin (fst st) ->
  rowsWithin (fst (learnDraw Math_random st entry)).
Proof.
  intros Hentry Hrows. destruct entry as [draw|]; [|done].
  cbn [learnDraw]. destruct (Nat.ltb _ _); [done|].
  destruct (shuffle _ _ _ _) as [sequence k] eqn:Hshuffle. cbn [fst].
  apply record_within; [|done].
  intros z Hz. apply Hentry. cbn [numbersOf flat_map]. rewrite app_nil_r.
  pose proof (shuffle_spec (length draw - 1) draw Math_random (snd st))
    as [Hperm _].
  rewrite Hshuffle in Hperm. cbn [fst] in Hperm. by rewrite <- Hperm.
Qed.

Lemma buildTransitions_within (history : list HistoryEntry)
    (Math_random : nat -> Q) (st : Obj (Obj Z) * nat) :
  (forall z, z ∈ numbersOf history -> known z) ->
  rowsWithin (fst st) ->
  rowsWithin (fst (foldl (learnDraw Math_random) st history)).
Proof.
  revert st.
  induction history as [|entry history IH]; intros st Hhist Hrows;
    cbn [foldl]; [done|].
  apply IH.
  - intros z Hz. apply Hhist. cbn [numbersOf flat_map].
    apply elem_of_app. by right.
  - apply learnDraw_within; [|done].
    intros z Hz. apply Hhist. cbn [numbersOf flat_map] in *.
    rewrite app_nil_r in Hz. apply elem_of_app. by left.
Qed.

Lemma candidatesOf_within (transitions : Obj (Obj Z)) (result : list Value)
    (currentNum : Value) (candidates : Obj Z) (n : Z) :
  rowsWithin transitions ->
  candidatesOf transitions result currentNum = Some candidates ->
  n ∈ map fst candidates -> known n.
Proof.
  intros Hrows. unfold candidatesOf. destruct currentNum as [c|]; [|done].
  destruct (objGet c transitions) as [row|] eqn:Hrow; [|done].
  intros [= <-] Hn. apply (Hrows c row n Hrow).
  clear Hrow. revert row Hn.
  induction result as [|picked result IH]; intros row Hn; cbn [foldl] in Hn;
    [done|].
  apply IH in Hn. destruct picked as [p|]; [|done].
  by apply objDelete_keys in Hn as [_ ?].
Qed.

Lemma followChain_within (transitions : Obj (Obj Z)) (rng : nat -> Q) :
  (forall j, (0 <= rng j)%Q /\ (rng j < 1)%Q) ->
  (forall z, 1 <= z <= 45 -> known z) ->
  rowsWithin transitions ->
  forall (fuel k : nat) (picked : list Z) (currentNum : Value)
         (main : list Z) (k' : nat),
    (forall z, z ∈ picked -> known z) ->
    followChain fuel transitions rng k (Some <$> picked) currentNum
    = Returned (Some <$> main, k') ->
    forall z, z ∈ main -> known z.
Proof.
  intros Hrng Hrange Hrows fuel.
  induction fuel as [|fuel IH];
    intros k picked currentNum main k' Hpicked; cbn [followChain];
    rewrite length_fmap.
  - destruct (Nat.ltb _ _); [done|]. intros [= Hmain _].
    apply (inj (fmap Some)) in Hmain as <-. done.
  - destruct (Nat.ltb_spec (length picked) 6) as [Hless|Hfull].
    2:{ intros [= Hmain _]. apply (inj (fmap Some)) in Hmain as <-. done. }
    assert (forall k0, exists z,
               pickAvailable (Some <$> picked) rng k0 = (Some z, S k0)
               /\ known z) as Hfallback.
    { intros k0.
      destruct (pickAvailable_fresh (Some <$> picked) rng k0)
        as (z & Hz & _ & Hin);
        [apply Hrng|apply Hrng|rewrite length_fmap; lia|].
      exists z. split; [done|]. by apply Hrange. }
    assert (forall z k0,
               known z ->
               followChain fuel transitions rng k0
                 ((Some <$> picked) ++ [Some z]) (Some z)
               = Returned (Some <$> main, k') ->
               forall x, x ∈ main -> known x) as Hnext.
    { intros z k0 Hz Hrun. apply (IH k0 (picked ++ [z]) (Some z) main k').
      - intros x Hx. apply elem_of_app in Hx as [Hx|Hx]; [by apply Hpicked|].
        by apply list_elem_of_singleton in Hx as ->.
      - by rewrite fmap_app. }
    destruct (candidatesOf transitions (Some <$> picked) currentNum)
      as [candidates|] eqn:Hcand.
    + destruct (Nat.ltb_spec 0 (length candidates)) as [Hpos|Hzero].
      * destruct (pickFromWeights_key candidates rng k) as (num & Hpick & Hkey).
        { destruct candidates; [cbn in Hpos; lia|done]. }
        rewrite Hpick. cbn [truthyValue].
        destruct (num =? 0) eqn:Hnum; cbn [negb].
        -- destruct (Hfallback (S k)) as (z & -> & Hz). by apply Hnext.
        -- apply Hnext. by apply (candidatesOf_within _ _ _ _ num Hrows Hcand).
      * cbn [truthyValue]. destruct (Hfallback k) as (z & -> & Hz).
        by apply Hnext.
    + cbn [truthyValue]. destruct (Hfallback k) as (z & -> & Hz).
      by apply Hnext.
Qed.

End Learned.

(** X12. On a fresh page (no cached transitions) and a history whose
    draws hold only numbers of 1..45, [getSequentialNumbers] with an
    [rng] of [0,1) returns, after at most five passes of its loop, seven
    pairwise distinct numbers of 1..45. *)
Theorem sequential_draw_is_a_valid_ticket
    (fuel : nat) (rng : nat -> Q)
    (allWinningNumbers : option (list HistoryEntry)) (Math_random : nat -> Q)
    (Hrng : forall k, (0 <= rng k)%Q /\ (rng k < 1)%Q)
    (Hrandom : forall j, (0 <= Math_random j)%Q /\ (Math_random j < 1)%Q)
    (Hhistory : forall z, z ∈ numbersOf (default [] allWinningNumbers) ->
                          1 <= z <= 45)
    (Hfuel : (5 <= fuel)%nat) :
  exists numbers : list Z,
    snd (getSequentialNumbers fuel rng None allWinningNumbers Math_random)
    = Returned (Some <$> numbers)
    /\ length numbers = CONFIG.TOTAL_DRAW_COUNT
    /\ NoDup numbers
    /\ (forall z, z ∈ numbers -> 1 <= z <= 45).
Proof.
  unfold getSequentialNumbers. cbn [snd transitionsLookup].
  set (transitions := fst (buildTransitions _ _ _)).
  assert (rowsWithin (fun z => 1 <= z <= 45) transitions) as Hrows.
  { apply buildTransitions_within; [done|]. intros c row n Hc. done. }
  set (firstNum := scaled (rng O) _ + 1).
  assert (1 <= firstNum <= 45) as Hfirst.
  { pose proof (scaled_range (rng O) 45 (proj1 (Hrng O)) (proj2 (Hrng O))
                  ltac:(lia)) as Hs.
    unfold firstNum. change (Z.to_nat CONFIG.TOTAL_NUMBERS) with 45%nat. lia. }
  destruct (followChain_distinct transitions rng Hrng fuel 1 [firstNum]
              (Some firstNum)) as (main & k' & Hchain & Hnd & Hlen).
  - apply NoDup_singleton.
  - cbn. lia.
  - cbn. lia.
  - pose proof (followChain_within (fun z => 1 <= z <= 45) transitions rng
                  Hrng ltac:(done) Hrows fuel 1 [firstNum] (Some firstNum)
                  main k') as Hmain.
    cbn [fmap list_fmap] in Hchain, Hmain. rewrite Hchain.
    destruct (pickAvailable_fresh (Some <$> main) rng k')
      as (bonus & Hbonus & Hfresh & Hbrange);
      [apply Hrng|apply Hrng|rewrite length_fmap; lia|].
    rewrite Hbonus. exists (main ++ [bonus]).
    split; [by rewrite fmap_app|].
    split; [by rewrite length_app, Hlen|]. split.
    + apply NoDup_app. split; [done|]. split; [|apply NoDup_singleton].
      intros x Hx Hx'. apply list_elem_of_singleton in Hx' as ->.
      apply Hfresh. by apply list_elem_of_fmap_2.
    + intros z Hz. apply elem_of_app in Hz as [Hz|Hz].
      * apply Hmain; [|done|done].
        intros x Hx. by apply list_elem_of_singleton in Hx as ->.
      * by apply list_elem_of_singleton in Hz as ->.
Qed.

Lemma sequential_draw_is_a_valid_ticket_witness :
  exists numbers : list Z,
    snd (getSequentialNumbers 5 spread None (Some twice) spread)
    = Returned (Some <$> numbers)
    /\ length numbers = CONFIG.TOTAL_DRAW_COUNT
    /\ NoDup numbers
    /\ (forall z, z ∈ numbers -> 1 <= z <= 45).
Proof.
  apply (sequential_draw_is_a_valid_ticket 5 spread (Some twice) spread).
  - intros k. unfold spread, Qle, Qlt. cbn [Qnum Qden].
    pose proof (Nat.mod_upper_bound k 10). lia.
  - intros k. unfold spread, Qle, Qlt. cbn [Qnum Qden].
    pose proof (Nat.mod_upper_bound k 10). lia.
  - intros z Hz. vm_compute in Hz.
    repeat (apply elem_of_cons in Hz as [->|Hz]; [lia|]).
    by apply elem_of_nil in Hz.
  - lia.
Defined.

End GeneratorsFacts.

(** * Properties of the random number generators *)

Module RNGFacts.
Import RNG.

Local Open Scope Z_scope.

(** ** 32-bit conversions *)

Lemma ToUint32_range (z : Z) : 0 <= ToUint32 z < 2 ^ 32.
Proof. unfold ToUint32. apply Z.mod_pos_bound. lia. Qed.

Lemma ToInt32_range (z : Z) : - 2 ^ 31 <= ToInt32 z < 2 ^ 31.
Proof.
  unfold ToInt32. pose proof (Z.mod_pos_bound (z + 2 ^ 31) (2 ^ 32)). lia.
Qed.

Lemma ToUint32_ToInt32 (z : Z) : ToUint32 (ToInt32 z) = ToUint32 z.
Proof.
  unfold ToUint32, ToInt32.
  rewrite <- Zminus_mod_idemp_l, Z.mod_mod by lia.
  rewrite Zminus_mod_idemp_l. f_equal. lia.
Qed.

Lemma ToInt32_eqm (a b : Z) :
  a mod 2 ^ 32 = b mod 2 ^ 32 -> ToInt32 a = ToInt32 b.
Proof.
  intros Heq. unfold ToInt32. f_equal.
  rewrite <- (Zplus_mod_idemp_l a), <- (Zplus_mod_idemp_l b). by rewrite Heq.
Qed.

Lemma ToInt32_mod (z : Z) : ToInt32 z mod 2 ^ 32 = z mod 2 ^ 32.
Proof. apply ToUint32_ToInt32. Qed.

Lemma ToInt32_small (z : Z) : - 2 ^ 31 <= z < 2 ^ 31 -> ToInt32 z = z.
Proof. intros Hz. unfold ToInt32. rewrite Z.mod_small; lia. Qed.

Lemma ToInt32_shift (z m : Z) : ToInt32 (z + 2 ^ 32 * m) = ToInt32 z.
Proof.
  apply ToInt32_eqm. rewrite Z.mul_comm. apply Z_mod_plus_full.
Qed.

Lemma ToUint32_shift (z m : Z) : ToUint32 (z + 2 ^ 32 * m) = ToUint32 z.
Proof. unfold ToUint32. rewrite Z.mul_comm. apply Z_mod_plus_full. Qed.

Lemma ToUint32_lor (a b : Z) :
  ToUint32 (Z.lor a b) = Z.lor (ToUint32 a) (ToUint32 b).
Proof.
  unfold ToUint32. rewrite <- !Z.land_ones by lia.
  apply Z.land_lor_distr_l.
Qed.

Lemma unit_interval (u : Z) :
  0 <= u < 2 ^ 32 ->
  (0 <= inject_Z u / inject_Z 4294967296)%Q
  /\ (inject_Z u / inject_Z 4294967296 < 1)%Q.
Proof.
  intros Hu. unfold Qdiv, Qinv, Qmult, Qle, Qlt, inject_Z. cbn. lia.
Qed.

Lemma shru_0 (z : Z) : shru z 0 = ToUint32 z.
Proof. unfold shru. by rewrite Z.shiftr_0_r. Qed.

(** X13. Each generator that [getRNG] builds itself returns a number of
    [0,1) at every call, which is what the sampling loops need for
    their index to fall inside the pool: the 'secure' generator for any
    word the platform supplies, the 'vrf' generator for any digest, and
    the 'blockchain' generator for any seed. *)
Theorem every_generator_stays_in_the_unit_interval
    (getRandomValues : nat -> Z) (k : nat)
    (digest : Z -> list byte) (counter : Z) (seedVal : Z) :
  ((0 <= secure getRandomValues k)%Q /\ (secure getRandomValues k < 1)%Q)
  /\ ((0 <= snd (vrf digest counter))%Q /\ (snd (vrf digest counter) < 1)%Q)
  /\ ((0 <= snd (mulberry32 seedVal))%Q /\ (snd (mulberry32 seedVal) < 1)%Q).
Proof.
  split; [|split].
  - unfold secure. cbv zeta. apply unit_interval, ToUint32_range.
  - unfold vrf. cbv zeta. cbn [snd]. rewrite shru_0.
    apply unit_interval, ToUint32_range.
  - unfold mulberry32. cbv zeta. cbn [snd]. rewrite shru_0.
    apply unit_interval, ToUint32_range.
Qed.

(** ** The 'vrf' value *)

Lemma land_high_low (a b n : Z) :
  0 <= n -> 0 <= b < 2 ^ n -> Z.land (a * 2 ^ n) b = 0.
Proof.
  intros Hn Hb. apply Z.bits_inj'. intros m Hm.
  rewrite Z.land_spec, Z.bits_0.
  destruct (Z.lt_ge_cases m n) as [Hlow|Hhigh].
  - by rewrite Z.mul_pow2_bits_low.
  - rewrite <- (Z.mod_small b (2 ^ n)) by done.
    rewrite <- Z.land_ones, Z.land_spec, Z.ones_spec_high by lia.
    by rewrite !andb_false_r.
Qed.

Lemma lor_high_low (a b n : Z) :
  0 <= n -> 0 <= b < 2 ^ n -> Z.lor (a * 2 ^ n) b = a * 2 ^ n + b.
Proof.
  intros Hn Hb. symmetry. apply Z.add_nocarry_lor. by apply land_high_low.
Qed.

Lemma byteAt_range (hashArray : list byte) (i : nat) :
  0 <= byteAt hashArray i < 256.
Proof.
  unfold byteAt. destruct (hashArray !! i) as [b|]; cbn; [|lia].
  pose proof (Byte.to_N_bounded b). lia.
Qed.

Lemma shl_byte (h n : Z) :
  0 <= h < 256 -> 0 <= n < 32 ->
  ToUint32 (shl h n) = ToUint32 (h * 2 ^ n).
Proof.
  intros Hh Hn. unfold shl.
  rewrite ToUint32_ToInt32, (ToInt32_small h) by lia.
  assert (ToUint32 n mod 32 = n) as ->.
  { unfold ToUint32. rewrite (Z.mod_small n (2 ^ 32)) by lia.
    apply Z.mod_small. lia. }
  by rewrite Z.shiftl_mul_pow2 by lia.
Qed.

(** X14. The 'vrf' generator reads the first four bytes of the digest
    as one big-endian 32-bit number: although [hashArray[0] << 24] is
    negative for a first byte of 128 or more, the final [>>> 0] makes
    the value [(b0 * 2^24 + b1 * 2^16 + b2 * 2^8 + b3) / 2^32]. *)
Theorem vrf_reads_four_bytes_big_endian
    (digest : Z -> list byte) (counter : Z) :
  vrf digest counter
  = (counter + 1,
     Qdiv (inject_Z (firstFourBytes (digest (counter + 1))))
          (inject_Z 4294967296)).
Proof.
  unfold vrf. cbv zeta. f_equal. f_equal. f_equal.
  rewrite shru_0. unfold vrfValue, firstFourBytes.
  set (hashArray := digest (counter + 1)).
  pose proof (byteAt_range hashArray 0) as H0.
  pose proof (byteAt_range hashArray 1) as H1.
  pose proof (byteAt_range hashArray 2) as H2.
  pose proof (byteAt_range hashArray 3) as H3.
  set (b0 := byteAt hashArray 0) in *. set (b1 := byteAt hashArray 1) in *.
  set (b2 := byteAt hashArray 2) in *. set (b3 := byteAt hashArray 3) in *.
  unfold bor. rewrite !ToUint32_lor, !ToUint32_ToInt32.
  rewrite !ToUint32_lor, !ToUint32_ToInt32.
  rewrite !ToUint32_lor, !ToUint32_ToInt32.
  rewrite !shl_byte by lia.
  unfold ToUint32. rewrite !Z.mod_small by lia.
  replace (b1 * 2 ^ 16) with (b1 * 2 ^ 8 * 2 ^ 8) by lia.
  replace (b0 * 2 ^ 24) with (b0 * 2 ^ 16 * 2 ^ 8) by lia.
  rewrite <- (Z.shiftl_mul_pow2 (b0 * 2 ^ 16) 8),
          <- (Z.shiftl_mul_pow2 (b1 * 2 ^ 8) 8),
          <- (Z.shiftl_mul_pow2 b2 8) by lia.
  rewrite <- !Z.shiftl_lor. rewrite !Z.shiftl_mul_pow2 by lia.
  rewrite (lor_high_low _ b3 8) by lia.
  replace (b0 * 2 ^ 16) with (b0 * 2 ^ 8 * 2 ^ 8) by lia.
  rewrite <- (Z.shiftl_mul_pow2 (b0 * 2 ^ 8) 8),
          <- (Z.shiftl_mul_pow2 b1 8) by lia.
  rewrite <- !Z.shiftl_lor. rewrite !Z.shiftl_mul_pow2 by lia.
  rewrite (lor_high_low _ b2 8) by lia.
  rewrite (lor_high_low _ b1 8) by lia.
  lia.
Qed.

(** ** The 'blockchain' seed *)

Lemma hashStep_spec (seedVal c : Z) :
  hashStep seedVal c = ToInt32 (31 * seedVal + c).
Proof.
  unfold hashStep, bor, shl. cbv zeta.
  change (ToInt32 0) with 0. rewrite Z.lor_0_r.
  change (ToUint32 5 mod 32) with 5.
  rewrite Z.shiftl_mul_pow2 by lia.
  apply ToInt32_eqm.
  rewrite <- Zplus_mod_idemp_l, <- Zminus_mod_idemp_l, ToInt32_mod.
  rewrite <- (Zmult_mod_idemp_l (ToInt32 seedVal)), ToInt32_mod.
  rewrite Zmult_mod_idemp_l, Zminus_mod_idemp_l, Zplus_mod_idemp_l.
  f_equal. lia.
Qed.

Lemma hashSeed_from (hash : list Z) (s h : Z) :
  s mod 2 ^ 32 = h mod 2 ^ 32 ->
  foldl hashStep s hash mod 2 ^ 32
  = foldl (fun h c => 31 * h + c) h hash mod 2 ^ 32.
Proof.
  revert s h. induction hash as [|c hash IH]; intros s h Heq; cbn [foldl];
    [done|].
  apply IH. rewrite hashStep_spec, ToInt32_mod.
  rewrite <- Zplus_mod_idemp_l, <- Zmult_mod_idemp_r, Heq.
  by rewrite Zmult_mod_idemp_r, Zplus_mod_idemp_l.
Qed.

Lemma hashSeed_int32 (hash : list Z) (s : Z) :
  - 2 ^ 31 <= s < 2 ^ 31 ->
  - 2 ^ 31 <= foldl hashStep s hash < 2 ^ 31.
Proof.
  revert s. induction hash as [|c hash IH]; intros s Hs; cbn [foldl]; [done|].
  apply IH. rewrite hashStep_spec. apply ToInt32_range.
Qed.

(** X15. The seed the 'blockchain' generator derives from the block
    hash is the classic 31-multiplier string hash
    [s[0]*31^(n-1) + ... + s[n-1]] wrapped to a signed 32-bit integer,
    plus [Date.now()]; and the numbers the generator returns depend on
    the seed only modulo 2^32. *)
Theorem blockchain_seed_is_the_31_hash
    (hash : list Z) (now seedVal m : Z) :
  blockchainSeed hash now = ToInt32 (hashCode hash) + now
  /\ snd (mulberry32 (seedVal + 2 ^ 32 * m)) = snd (mulberry32 seedVal).
Proof.
  split.
  - unfold blockchainSeed, hashCode. f_equal.
    rewrite <- (ToInt32_small (foldl hashStep 0 hash))
      by (apply hashSeed_int32; lia).
    apply ToInt32_eqm. by apply hashSeed_from.
  - unfold mulberry32. cbv zeta. cbn [snd]. do 3 f_equal.
    replace (seedVal + 2 ^ 32 * m + 1831565813)
      with (seedVal + 1831565813 + 2 ^ 32 * m) by lia.
    set (t := seedVal + 1831565813).
    assert (forall n, bxor (t + 2 ^ 32 * m) (shru (t + 2 ^ 32 * m) n)
                      = bxor t (shru t n)) as Hmix.
    { intros n. unfold bxor, shru.
      by rewrite ToInt32_shift, ToUint32_shift. }
    assert (forall n, bor (t + 2 ^ 32 * m) n = bor t n) as Hor.
    { intros n. unfold bor. by rewrite ToInt32_shift. }
    by rewrite Hmix, Hor.
Qed.

End RNGFacts.

(** * Properties of the policy network's sampling *)

Module DeepLearningFacts.
Import Algorithms Generators DeepLearning AlgorithmsFacts GeneratorsFacts.

Local Open Scope Z_scope.

(** ** getDeepLearningNumbers *)

Lemma sampleFrom_index (probabilities : Z -> Q) (randomVal cumulative : Q)
    (indices : list Z) (i : Z) :
  sampleFrom probabilities randomVal cumulative indices = Some i ->
  i ∈ indices.
Proof.
  revert cumulative.
  induction indices as [|j rest IH]; intros cumulative; cbn [sampleFrom];
    [done|].
  cbv zeta. destruct (Qle_bool _ _).
  - intros [= ->]. by left.
  - intros Hrest. right. by eapply IH.
Qed.

Lemma pickNumber_fresh (probabilities : Z -> Q) (rng : nat -> Q) (k : nat)
    (picked : list Z) :
  (forall j, (0 <= rng j)%Q /\ (rng j < 1)%Q) ->
  (length picked < 45)%nat ->
  exists z k',
    pickNumber probabilities rng k (Some <$> picked) = (Some z, k')
    /\ (z ∉ picked) /\ (1 <= z <= 45) /\ (S k <= k' <= S (S k))%nat.
Proof.
  intros Hrng Hlen. unfold pickNumber. cbv zeta.
  set (num := match sampleFrom _ _ _ _ with Some i => i | None => _ end).
  assert (1 <= num <= 45) as Hnum.
  { unfold num. destruct (sampleFrom _ _ _ _) as [i|] eqn:Hsample.
    - apply sampleFrom_index, zrange_spec in Hsample. lia.
    - apply (roll_range (rng k) 45); [apply Hrng|apply Hrng|lia]. }
  destruct (includes (Some <$> picked) (Some num)) eqn:Hinc.
  - destruct (pickAvailable_fresh (Some <$> picked) rng (S k))
      as (z & Hz & Hfresh & Hrange);
      [apply Hrng|apply Hrng|by rewrite length_fmap|].
    exists z, (S (S k)). split; [done|]. split; [|split; [done|lia]].
    intros Hin. apply Hfresh. by apply list_elem_of_fmap_2.
  - exists num, (S k). split; [done|]. split; [|split; [done|lia]].
    intros Hin. apply not_true_iff_false in Hinc. apply Hinc.
    apply includes_spec. by apply list_elem_of_fmap_2.
Qed.

Lemma policyLoop_returns (predict : list (option Q) -> Z -> Q)
    (rng : nat -> Q) :
  (forall j, (0 <= rng j)%Q /\ (rng j < 1)%Q) ->
  forall (fuel k : nat) (inputSeq : list (option Q)) (picked : list Z),
    NoDup picked ->
    (forall z, z ∈ picked -> 1 <= z <= 45) ->
    (length picked <= 7)%nat ->
    (7 - length picked <= fuel)%nat ->
    exists numbers k',
      policyLoop fuel predict rng k inputSeq (Some <$> picked)
      = Returned (Some <$> numbers, k')
      /\ NoDup numbers /\ length numbers = 7%nat
      /\ (forall z, z ∈ numbers -> 1 <= z <= 45)
      /\ (k + (7 - length picked) <= k' <= k + 2 * (7 - length picked))%nat.
Proof.
  intros Hrng fuel.
  induction fuel as [|fuel IH];
    intros k inputSeq picked Hnd Hrange Hlen Hfuel.
  - exists picked, k. cbn [policyLoop]. rewrite length_fmap.
    assert (Nat.ltb (length picked) 7 = false) as ->
      by (apply Nat.ltb_ge; lia).
    split; [done|]. split; [done|]. split; [lia|]. split; [done|lia].
  - destruct (decide (length picked = 7%nat)) as [Hfull|Hless].
    + exists picked, k. cbn [policyLoop]. rewrite length_fmap, Hfull.
      split; [done|]. split; [done|]. split; [done|]. split; [done|lia].
    + cbn [policyLoop]. rewrite length_fmap.
      assert (Nat.ltb (length picked) 7 = true) as ->
        by (apply Nat.ltb_lt; lia).
      cbv zeta.
      destruct (pickNumber_fresh (predict inputSeq) rng k picked Hrng)
        as (z & k1 & -> & Hfresh & Hz & Hk1); [lia|].
      destruct (IH k1 (drop 1 inputSeq ++ [Some (inject_Z z / 45)%Q])
                  (picked ++ [z]))
        as (numbers & k' & Hrun & Hres).
      * apply NoDup_app. split; [done|]. split; [|apply NoDup_singleton].
        intros x Hx Hx'. by apply list_elem_of_singleton in Hx' as ->.
      * intros x Hx. apply elem_of_app in Hx as [Hx|Hx]; [by apply Hrange|].
        by apply list_elem_of_singleton in Hx as ->.
      * rewrite length_app. cbn [length]. lia.
      * rewrite length_app. cbn [length]. lia.
      * rewrite fmap_app in Hrun. exists numbers, k'. split; [exact Hrun|].
        rewrite length_app in Hres. cbn [length] in Hres.
        destruct Hres as (? & ? & ? & ?).
        split; [done|]. split; [done|]. split; [done|]. lia.
Qed.

(** X16. With a trained network, [getDeepLearningNumbers] returns after
    exactly seven passes of its loop, whatever the network predicts
    (negative, zero or unnormalised probabilities included): for an
    [rng] of [0,1) the result holds seven pairwise distinct numbers of
    1..45, the run makes between 12 and 19 calls of [rng], and the
    transition cache of [getSequentialNumbers] is left alone. *)
Theorem policy_draw_is_a_valid_ticket
    (predict : list (option Q) -> Z -> Q) (rng : nat -> Q) (fuel : nat)
    (cachedTransitions : option (Obj (Obj Z)))
    (allWinningNumbers : option (list HistoryEntry)) (Math_random : nat -> Q)
    (Hrng : forall k, (0 <= rng k)%Q /\ (rng k < 1)%Q)
    (Hfuel : (7 <= fuel)%nat) :
  exists numbers : list Z,
    getDeepLearningNumbers fuel rng (Some predict) cachedTransitions
                           allWinningNumbers Math_random
    = (cachedTransitions, Returned (Some <$> numbers))
    /\ length numbers = CONFIG.TOTAL_DRAW_COUNT
    /\ NoDup numbers
    /\ (forall z, z ∈ numbers -> 1 <= z <= 45)
    /\ (12 <= rngCalls fuel predict rng <= 19)%nat.
Proof.
  destruct (policyLoop_returns predict rng Hrng fuel 5 (seedSequence rng) [])
    as (numbers & k' & Hrun & Hnd & Hlen & Hrange & Hcalls).
  - constructor.
  - intros z Hz. by apply elem_of_nil in Hz.
  - cbn. lia.
  - cbn. lia.
  - cbn [fmap list_fmap length] in Hrun, Hcalls.
    exists numbers. unfold getDeepLearningNumbers, rngCalls. rewrite Hrun.
    split; [done|]. split; [done|]. split; [done|]. split; [done|].
    cbv beta iota. lia.
Qed.

Lemma policy_draw_is_a_valid_ticket_witness :
  exists numbers : list Z,
    getDeepLearningNumbers 7 spread (Some alwaysSeven) None None spread
    = (None, Returned (Some <$> numbers))
    /\ length numbers = CONFIG.TOTAL_DRAW_COUNT
    /\ NoDup numbers
    /\ (forall z, z ∈ numbers -> 1 <= z <= 45)
    /\ (12 <= rngCalls 7 alwaysSeven spread <= 19)%nat.
Proof.
  apply (policy_draw_is_a_valid_ticket alwaysSeven spread 7 None None spread).
  - intros k. unfold spread, Qle, Qlt. cbn [Qnum Qden].
    pose proof (Nat.mod_upper_bound k 10). lia.
  - lia.
Defined.

(** ** prepareData *)

Lemma length_oneHot (targetNum : option Z) : length (oneHot targetNum) = 46%nat.
Proof.
  unfold oneHot. cbv zeta. destruct targetNum as [t|]; [|done].
  destruct (_ && _); [by rewrite length_insert|done].
Qed.

Lemma windowsOf_rows (draw : list Z) (windowSize : nat) (x : list Q)
    (y : list Z) :
  (x, y) ∈ windowsOf draw windowSize ->
  length x = windowSize
  /\ exists targetNum,
       targetNum ∈ draw /\ y = oneHot (Some targetNum)
       /\ exists i, draw !! (i + windowSize)%nat = Some targetNum
                    /\ x = map (fun n => inject_Z n / 45)%Q
                             (take windowSize (drop i draw)).
Proof.
  unfold windowsOf. intros Hrow.
  apply list_elem_of_fmap in Hrow as (i & [= -> ->] & Hi).
  apply elem_of_seq in Hi.
  split.
  - rewrite length_map, length_take, length_drop. lia.
  - destruct (draw !! (i + windowSize)%nat) as [t|] eqn:Ht.
    + exists t. split; [by eapply list_elem_of_lookup_2|].
      split; [done|]. by exists i.
    + apply lookup_ge_None in Ht. lia.
Qed.

(** X17. The training rows of [prepareData]: there are as many targets
    as inputs; every input is a window of [windowSize] numbers of one
    draw, each divided by 45, and its target is the one-hot vector of
    length 46 of the number that follows the window in that draw. On
    simulation results (seven numbers per draw) and the default window
    of 5 there are exactly two rows per draw. *)
Theorem prepareData_rows_are_windows_of_a_draw
    (history : list HistoryEntry) (windowSize : nat) :
  let (xs, ys) := prepareData history windowSize in
  length xs = length ys
  /\ (forall (r : nat) (x : list Q) (y : list Z),
        xs !! r = Some x -> ys !! r = Some y ->
        length x = windowSize /\ length y = 46%nat
        /\ exists draw i targetNum,
             ArrayOf draw ∈ history
             /\ draw !! (i + windowSize)%nat = Some targetNum
             /\ x = map (fun n => inject_Z n / 45)%Q
                      (take windowSize (drop i draw))
             /\ y = oneHot (Some targetNum))
  /\ (simulationData history ->
      length (fst (prepareData history 5)) = (2 * length history)%nat).
Proof.
  unfold prepareData. cbv zeta.
  set (rowsOf := fun entry => match entry with
                              | ArrayOf draw => _
                              | NotAnArray => []
                              end).
  split; [by rewrite !length_map|]. split.
  - intros r x y Hx Hy.
    rewrite list_lookup_fmap in Hx. rewrite list_lookup_fmap in Hy.
    destruct (flat_map rowsOf history !! r) as [[x' y']|] eqn:Hrow; [|done].
    cbn in Hx, Hy. injection Hx as ->. injection Hy as ->.
    apply list_elem_of_lookup_2 in Hrow.
    apply list_elem_of_In, in_flat_map in Hrow as (entry & Hentry & Hrow).
    apply list_elem_of_In in Hentry. apply list_elem_of_In in Hrow.
    destruct entry as [draw|]; cbn [rowsOf] in Hrow;
      [|by apply elem_of_nil in Hrow].
    unfold rowsOf in Hrow.
    destruct (Nat.ltb _ _); [by apply elem_of_nil in Hrow|].
    apply windowsOf_rows in Hrow
      as (Hlen & targetNum & _ & -> & i & Hi & ->).
    split; [done|]. split; [apply length_oneHot|].
    by exists draw, i, targetNum.
  - intros Hsim. cbn [fst]. rewrite length_map.
    clear rowsOf.
    induction history as [|entry history IH]; [done|].
    cbn [flat_map]. rewrite length_app, IH.
    + destruct (Hsim entry) as (draw & -> & Hseven); [by left|].
      unfold windowsOf. rewrite Hseven. cbn [Nat.ltb Nat.leb Nat.add].
      rewrite length_map, length_seq. cbn [length]. lia.
    + intros e He. apply Hsim. by right.
Qed.

End DeepLearningFacts.

(** * Properties of the physics over the real numbers *)

Module PhysicsFacts.
Import Simulation CollisionFacts.
#[local] Existing Instance Real.number.

Local Open Scope R_scope.

(** ** The wall of the drum *)

Lemma wall_touch (dx dy r Rd : R) :
  r <= Rd ->
  Rd < sqrt (dx * dx + dy * dy) + r ->
  let dist := sqrt (dx * dx + dy * dy) in
  let overlap := dist + r - Rd in
  sqrt ((dx - dx / dist * overlap) * (dx - dx / dist * overlap)
        + (dy - dy / dist * overlap) * (dy - dy / dist * overlap)) = Rd - r.
Proof.
  intros Hr Hhit dist overlap.
  assert (0 < dist) as Hdist by (unfold dist; lra).
  assert (dist * dist = dx * dx + dy * dy) as Hsq.
  { apply sqrt_def. nra. }
  set (a := dx - dx / dist * overlap). set (b := dy - dy / dist * overlap).
  apply sqrt_lem_1; [nra|lra|].
  unfold a, b, overlap.
  transitivity ((Rd - r) / dist * ((Rd - r) / dist) * (dx * dx + dy * dy));
    [rewrite <- Hsq; field; lra|field; lra].
Qed.

Lemma ltb_true (a b : R) : Real.ltb a b = true <-> a < b.
Proof. unfold Real.ltb. destruct (Rlt_dec a b); split; done || lra. Qed.

Lemma ltb_false (a b : R) : Real.ltb a b = false <-> b <= a.
Proof. unfold Real.ltb. destruct (Rlt_dec a b); split; done || lra. Qed.

Lemma wallCollision_inside (b : Ball) :
  ball_radius b <= 180 ->
  insideDrum (wallCollision b) /\ ball_radius (wallCollision b) = ball_radius b.
Proof.
  intros Hr. unfold wallCollision, insideDrum, fromCentre.
  cbn [nlt nadd nsub nmul ndiv nopp ofZ Math_sqrt Real.number dec
       drumCenter_x drumCenter_y drumRadius CONFIG.SIM_DRUM_RADIUS].
  unfold drumCenter_x, drumCenter_y, drumRadius, CONFIG.SIM_DRUM_RADIUS.
  cbn [ofZ Real.number].
  set (dx := ball_x b - 300). set (dy := ball_y b - 200).
  destruct (Real.ltb 180 _) eqn:Hhit.
  - apply ltb_true in Hhit.
    cbn [ball_x ball_y ball_radius with_pos with_vel]. split; [|done].
    pose proof (wall_touch dx dy (ball_radius b) 180 Hr Hhit) as Htouch.
    cbv zeta in Htouch.
    replace (ball_x b - dx / sqrt (dx * dx + dy * dy)
                        * (sqrt (dx * dx + dy * dy) + ball_radius b - 180)
             - 300)
      with (dx - dx / sqrt (dx * dx + dy * dy)
                 * (sqrt (dx * dx + dy * dy) + ball_radius b - 180))
      by (unfold dx; ring).
    replace (ball_y b - dy / sqrt (dx * dx + dy * dy)
                        * (sqrt (dx * dx + dy * dy) + ball_radius b - 180)
             - 200)
      with (dy - dy / sqrt (dx * dx + dy * dy)
                 * (sqrt (dx * dx + dy * dy) + ball_radius b - 180))
      by (unfold dy; ring).
    rewrite Htouch. lra.
  - apply ltb_false in Hhit. split; [|done]. fold dx dy. exact Hhit.
Qed.
Lemma airJet_radius (Math_random : nat -> R) (turbulenceVal : R) (b : Ball)
    (k : nat) :
  ball_radius (fst (airJet Math_random turbulenceVal b k)) = ball_radius b.
Proof.
  unfold airJet, bind, random, ret. repeat case_match; done.
Qed.



Lemma outward_unit (b : Ball) :
  fromCentre b <> 0 ->
  outward_x b * outward_x b + outward_y b * outward_y b = 1.
Proof.
  intros Hne. unfold outward_x, outward_y.
  assert (fromCentre b * fromCentre b
          = (ball_x b - 300) * (ball_x b - 300)
            + (ball_y b - 200) * (ball_y b - 200)) as Hsq.
  { unfold fromCentre. apply sqrt_def.
    apply Rplus_le_le_0_compat; apply Rle_0_sqr. }
  set (d := fromCentre b) in *.
  transitivity (((ball_x b - 300) * (ball_x b - 300)
                 + (ball_y b - 200) * (ball_y b - 200)) / (d * d));
    [field; done|].
  rewrite <- Hsq. field. done.
Qed.

Lemma bounce_components (vx vy nx ny e f : R) :
  nx * nx + ny * ny = 1 ->
  let dot := vx * nx + vy * ny in
  let vx1 := (vx - 2 * dot * nx) * e in
  let vy1 := (vy - 2 * dot * ny) * e in
  let tDot := vx1 * - ny + vy1 * nx in
  let vx2 := vx1 - - ny * tDot * f in
  let vy2 := vy1 - nx * tDot * f in
  vx2 * nx + vy2 * ny = - (e * (vx * nx + vy * ny))
  /\ vx2 * - ny + vy2 * nx = (1 - f) * (e * (vx * - ny + vy * nx))
  /\ vx2 * vx2 + vy2 * vy2
     = e * e * ((vx * nx + vy * ny) * (vx * nx + vy * ny)
                + (1 - f) * (1 - f)
                  * ((vx * - ny + vy * nx) * (vx * - ny + vy * nx)))
  /\ vx * vx + vy * vy
     = (vx * nx + vy * ny) * (vx * nx + vy * ny)
       + (vx * - ny + vy * nx) * (vx * - ny + vy * nx).
Proof.
  intros Hunit dot vx1 vy1 tDot vx2 vy2.
  subst dot vx1 vy1 tDot vx2 vy2.
  split; [nsatz|]. split; [nsatz|]. split; nsatz.
Qed.


Lemma head_on (m1 m2 a b : R) :
  m1 + m2 <> 0 ->
  let a' := ((m1 - m2) * a + 2 * m2 * b) / (m1 + m2) in
  let b' := ((m2 - m1) * b + 2 * m1 * a) / (m1 + m2) in
  m1 * a' + m2 * b' = m1 * a + m2 * b
  /\ m1 * (a' * a') + m2 * (b' * b') = m1 * (a * a) + m2 * (b * b).
Proof. intros Hm a' b'. subst a' b'. split; field; done. Qed.

Lemma rotated_collision (m1 m2 c s v1x v1y v2x v2y A B ux uy : R) :
  s * s + c * c = 1 ->
  let a := v1x * c + v1y * s in
  let p := v1y * c - v1x * s in
  let b := v2x * c + v2y * s in
  let q := v2y * c - v2x * s in
  m1 * A + m2 * B = m1 * a + m2 * b ->
  m1 * (A * A) + m2 * (B * B) = m1 * (a * a) + m2 * (b * b) ->
  m1 * ((A * c - p * s) * ux + (p * c + A * s) * uy)
  + m2 * ((B * c - q * s) * ux + (q * c + B * s) * uy)
  = m1 * (v1x * ux + v1y * uy) + m2 * (v2x * ux + v2y * uy)
  /\ m1 * ((A * c - p * s) * (A * c - p * s) + (p * c + A * s) * (p * c + A * s))
     + m2 * ((B * c - q * s) * (B * c - q * s) + (q * c + B * s) * (q * c + B * s))
     = m1 * (v1x * v1x + v1y * v1y) + m2 * (v2x * v2x + v2y * v2y).
Proof.
  intros Hunit a p b q Hmom Hkin. subst a p b q. split; nsatz.
Qed.


Lemma norm_positive (dx dy : R) :
  (dx, dy) <> (0, 0) ->
  0 < sqrt (dx * dx + dy * dy)
  /\ sqrt (dx * dx + dy * dy) * sqrt (dx * dx + dy * dy) = dx * dx + dy * dy.
Proof.
  intros Hne.
  assert (0 < dx * dx + dy * dy) as Hpos.
  { destruct (Req_dec dx 0) as [Hx|Hx]; destruct (Req_dec dy 0) as [Hy|Hy];
      [|nra..].
    exfalso. apply Hne. by rewrite Hx, Hy. }
  split; [by apply sqrt_lt_R0|apply sqrt_def; lra].
Qed.

Lemma atan_direction (dx dy : R) :
  dx <> 0 ->
  cos (atan (dy / dx)) = Rabs dx / sqrt (dx * dx + dy * dy)
  /\ sin (atan (dy / dx)) = dy / dx * (Rabs dx / sqrt (dx * dx + dy * dy)).
Proof.
  intros Hx.
  destruct (norm_positive dx dy) as [Hpos Hsq]; [intros [= ? ?]; done|].
  assert (0 < Rabs dx) as Habs by (by apply Rabs_pos_lt).
  assert (Rabs dx * Rabs dx = dx * dx) as Habs2.
  { unfold Rabs. destruct (Rcase_abs dx); ring. }
  assert (sqrt (1 + (dy / dx)²) = sqrt (dx * dx + dy * dy) / Rabs dx) as Hroot.
  { apply sqrt_lem_1.
    - unfold Rsqr. nra.
    - apply Rlt_le, Rdiv_lt_0_compat; done.
    - unfold Rsqr.
      transitivity (sqrt (dx * dx + dy * dy) * sqrt (dx * dx + dy * dy)
                    / (Rabs dx * Rabs dx)); [field; lra|].
      rewrite Hsq, Habs2. field. done. }
  rewrite cos_atan, sin_atan, Hroot. split; field; lra.
Qed.

Lemma atan2_direction (dx dy : R) :
  (dx, dy) <> (0, 0) ->
  cos (Real.atan2 dy dx) = dx / sqrt (dx * dx + dy * dy)
  /\ sin (Real.atan2 dy dx) = dy / sqrt (dx * dx + dy * dy).
Proof.
  intros Hne. destruct (norm_positive dx dy Hne) as [Hpos Hsq].
  unfold Real.atan2.
  destruct (Rlt_dec 0 dx) as [Hright|Hnotright].
  - destruct (atan_direction dx dy) as [-> ->]; [lra|].
    rewrite Rabs_right by lra. split; field; lra.
  - destruct (Rlt_dec dx 0) as [Hleft|Hnotleft].
    + destruct (atan_direction dx dy) as [Hc Hs]; [lra|].
      rewrite Rabs_left in Hc, Hs by lra.
      destruct (Rle_dec 0 dy).
      * rewrite neg_cos, neg_sin, Hc, Hs. split; field; lra.
      * assert (forall a, cos (a - PI) = - cos a) as Hcos.
        { intros a. rewrite <- (Ropp_involutive (cos (a - PI))), <- neg_cos.
          f_equal. f_equal. lra. }
        assert (forall a, sin (a - PI) = - sin a) as Hsin.
        { intros a. rewrite <- (Ropp_involutive (sin (a - PI))), <- neg_sin.
          f_equal. f_equal. lra. }
        rewrite Hcos, Hsin, Hc, Hs. split; field; lra.
    + assert (dx = 0) as -> by lra.
      assert (sqrt (0 * 0 + dy * dy) = Rabs dy) as Hroot.
      { replace (0 * 0 + dy * dy) with (dy²) by (unfold Rsqr; ring).
        apply sqrt_Rsqr_abs. }
      rewrite Hroot.
      destruct (Rlt_dec 0 dy) as [Hup|Hnotup].
      * rewrite cos_PI2, sin_PI2, Rabs_right by lra. split; field; lra.
      * destruct (Rlt_dec dy 0) as [Hdown|Hnotdown].
        -- replace (- PI / 2) with (- (PI / 2)) by lra.
           rewrite cos_neg, sin_neg, cos_PI2, sin_PI2, Rabs_left by lra.
           split; field; lra.
        -- exfalso. apply Hne. f_equal. lra.
Qed.

Lemma pushed_apart (dx dy nx ny radSum : R) :
  (dx, dy) <> (0, 0) ->
  0 <= radSum ->
  nx = dx / sqrt (dx * dx + dy * dy) ->
  ny = dy / sqrt (dx * dx + dy * dy) ->
  let overlap := (radSum - sqrt (dx * dx + dy * dy)) / 2 in
  sqrt ((dx + 2 * (nx * overlap)) * (dx + 2 * (nx * overlap))
        + (dy + 2 * (ny * overlap)) * (dy + 2 * (ny * overlap))) = radSum.
Proof.
  intros Hne Hrad -> -> overlap. subst overlap.
  destruct (norm_positive dx dy Hne) as [Hpos Hsq].
  set (d := sqrt (dx * dx + dy * dy)) in *.
  set (a := dx + 2 * (dx / d * ((radSum - d) / 2))).
  set (b := dy + 2 * (dy / d * ((radSum - d) / 2))).
  apply sqrt_lem_1; [nra|done|].
  unfold a, b.
  transitivity (radSum / d * (radSum / d) * (dx * dx + dy * dy));
    [rewrite <- Hsq; field; lra|field; lra].
Qed.


Lemma polar_distance (a r : R) :
  0 <= r ->
  sqrt ((300 + cos a * r - 300) * (300 + cos a * r - 300)
        + (200 + sin a * r - 200) * (200 + sin a * r - 200)) = r.
Proof.
  intros Hr. apply sqrt_lem_1; [nra|done|].
  pose proof (sin_cos_unit a) as Hunit.
  transitivity ((sin a * sin a + cos a * cos a) * (r * r));
    [rewrite Hunit; ring|ring].
Qed.

Lemma SimBall_new_inside (Math_random : nat -> R) (i : Z) (k : nat) :
  unitRandom Math_random ->
  let b := fst (SimBall_new Math_random i k) in
  fromCentre b < 160 /\ insideDrum b
  /\ ball_id b = i /\ ball_radius b = 10
  /\ (- (75 / 10) <= ball_vx b < 75 / 10)
  /\ (- (75 / 10) <= ball_vy b < 75 / 10)
  /\ (975 / 1000 <= ball_mass b < 1025 / 1000)
  /\ snd (SimBall_new Math_random i k) = (k + 5)%nat.
Proof.
  intros Hunit. unfold SimBall_new, bind, random, ret.
  cbn [fst snd]. cbv zeta.
  unfold insideDrum, fromCentre, dec, drumCenter_x, drumCenter_y, drumRadius,
    CONFIG.SIM_DRUM_RADIUS.
  cbn [ball_id ball_x ball_y ball_vx ball_vy ball_radius ball_mass
       nadd nsub nmul ndiv ofZ Math_cos Math_sin Math_PI Real.number].
  pose proof (Hunit (S k)) as H2. pose proof (Hunit (S (S k))) as H3.
  pose proof (Hunit (S (S (S k)))) as H4.
  pose proof (Hunit (S (S (S (S k))))) as H5.
  rewrite polar_distance by nra.
  repeat split; try lra; try lia.
Qed.

Lemma headlessBall_inside (Math_random : nat -> R) (i : Z) (k : nat) :
  unitRandom Math_random ->
  let b := fst (headlessBall Math_random i k) in
  fromCentre b < 160 /\ insideDrum b
  /\ ball_id b = i /\ ball_radius b = 10
  /\ (- (75 / 10) <= ball_vx b < 75 / 10)
  /\ (- (75 / 10) <= ball_vy b < 75 / 10)
  /\ ball_mass b = 1
  /\ snd (headlessBall Math_random i k) = (k + 4)%nat.
Proof.
  intros Hunit. unfold headlessBall, bind, random, ret.
  cbn [fst snd]. cbv zeta.
  unfold insideDrum, fromCentre, dec, center_x, center_y, drumR,
    CONFIG.SIM_DRUM_RADIUS, CONFIG.SIM_CANVAS_WIDTH, CONFIG.SIM_CANVAS_HEIGHT.
  cbn [ball_id ball_x ball_y ball_vx ball_vy ball_radius ball_mass
       nadd nsub nmul ndiv ofZ Math_cos Math_sin Math_PI Real.number].
  replace (600 / 2) with 300 by lra. replace (400 / 2) with 200 by lra.
  pose proof (Hunit (S k)) as H2. pose proof (Hunit (S (S k))) as H3.
  pose proof (Hunit (S (S (S k)))) as H4.
  rewrite polar_distance by nra.
  repeat split; try lra; try lia.
Qed.

Lemma forEach_elem {A B : Type} (f : A -> Rand B) (l : list A) (k : nat)
    (b : B) :
  b ∈ fst (forEach f l k) -> exists a j, a ∈ l /\ b = fst (f a j).
Proof.
  revert k. induction l as [|a l IH]; intros k; cbn [forEach].
  - unfold ret. cbn [fst]. intros Hb. by apply elem_of_nil in Hb.
  - unfold bind, ret. destruct (f a k) as [b0 k0] eqn:Hf.
    specialize (IH k0). destruct (forEach f l k0) as [bs k1]. cbn [fst] in *.
    intros Hb. apply elem_of_cons in Hb as [->|Hb].
    + exists a, k. split; [by left|]. by rewrite Hf.
    + destruct (IH Hb) as (a' & j & Ha' & ->). exists a', j.
      split; [by right|done].
Qed.

(** ** The properties *)

(** X18. A ball no larger than the drum lies within the wall of the
    drum (distance from the centre plus radius at most 180) after every
    [update] of the animated drum and after every position update of
    the headless run, wherever it was and however fast it moved. *)
Theorem ball_is_inside_the_drum_after_every_update
    (Math_random : nat -> R) (turbulenceVal : R) (gravityVal : option R)
    (b : Ball) (k : nat)
    (Hr : ball_radius b <= 180) :
  insideDrum (fst (update Math_random turbulenceVal gravityVal b k))
  /\ insideDrum (fst (moveBall Math_random b k)).
Proof.
  split.
  - unfold update, bind, ret.
    pose proof (airJet_radius Math_random turbulenceVal
                  (with_vel b (ball_vx b)
                     (nadd (ball_vy b) (default (dec 3 10) gravityVal))) k)
      as Hjet.
    destruct (airJet _ _ _ k) as [b' k']. cbn [fst] in *.
    apply wallCollision_inside. cbn [ball_radius with_pos with_vel].
    rewrite Hjet. exact Hr.
  - unfold moveBall, bind, random, ret.
    destruct (_ && _)%bool;
      unfold insideDrum, fromCentre;
      unfold center_x, center_y, drumR, CONFIG.SIM_CANVAS_WIDTH,
        CONFIG.SIM_CANVAS_HEIGHT, CONFIG.SIM_DRUM_RADIUS;
      cbn [nlt nadd nsub nmul ndiv nopp ofZ Math_sqrt Real.number
           ball_x ball_y ball_radius ball_vx ball_vy with_pos with_vel];
      replace (600 / 2) with 300 by lra; replace (400 / 2) with 200 by lra;
      match goal with
      | |- context [Real.ltb 180 (sqrt ((?x - 300) * _ + (?y - 200) * _) + _)] =>
          set (dx := x - 300) in *; set (dy := y - 200) in *;
          set (x' := x) in *; set (y' := y) in *
      end;
      (destruct (Real.ltb 180 _) eqn:Hhit;
       cbn [fst ball_x ball_y ball_radius with_pos with_vel];
       [apply ltb_true in Hhit;
        pose proof (wall_touch dx dy (ball_radius b) 180 Hr Hhit) as Htouch;
        cbv zeta in Htouch;
        replace (x' - dx / sqrt (dx * dx + dy * dy)
                      * (sqrt (dx * dx + dy * dy) + ball_radius b - 180)
                 - 300)
          with (dx - dx / sqrt (dx * dx + dy * dy)
                     * (sqrt (dx * dx + dy * dy) + ball_radius b - 180))
          by (unfold dx; ring);
        replace (y' - dy / sqrt (dx * dx + dy * dy)
                      * (sqrt (dx * dx + dy * dy) + ball_radius b - 180)
                 - 200)
          with (dy - dy / sqrt (dx * dx + dy * dy)
                     * (sqrt (dx * dx + dy * dy) + ball_radius b - 180))
          by (unfold dy; ring);
        rewrite Htouch; lra
       |apply ltb_false in Hhit; exact Hhit]).
Qed.

Lemma ball_is_inside_the_drum_after_every_update_witness :
  insideDrum (fst (update constantRandom 5 None escaping 0%nat))
  /\ insideDrum (fst (moveBall constantRandom escaping 0%nat)).
Proof.
  apply (ball_is_inside_the_drum_after_every_update
           constantRandom 5 None escaping 0%nat).
  cbn. lra.
Defined.

Lemma escaping_is_outside : ~ insideDrum escaping.
Proof.
  unfold insideDrum, fromCentre. cbn [escaping ball_x ball_y ball_radius].
  replace ((480 - 300) * (480 - 300) + (200 - 200) * (200 - 200))
    with (180 * 180) by lra.
  rewrite sqrt_square; lra.
Qed.

(** X19. A bounce off the wall of the animated drum takes energy: for a
    ball that has crossed the wall, [update]'s wall step reverses the
    velocity component along the outward normal and scales it by the
    elasticity, scales the tangential component by 0.95 times the
    elasticity, and so leaves at most elasticity^2 (0.7225) of the
    squared speed. *)
Theorem wall_bounce_loses_energy
    (b : Ball) (Hr : ball_radius b <= 180) (Hout : ~ insideDrum b) :
  along (outward_x b) (outward_y b) (wallCollision b)
  = - (ball_elasticity b * along (outward_x b) (outward_y b) b)
  /\ along (- outward_y b) (outward_x b) (wallCollision b)
     = 95 / 100 * (ball_elasticity b * along (- outward_y b) (outward_x b) b)
  /\ speedSq (wallCollision b)
     <= ball_elasticity b * ball_elasticity b * speedSq b.
Proof.
  assert (180 < fromCentre b + ball_radius b) as Hhit
    by (unfold insideDrum in Hout; lra).
  assert (fromCentre b <> 0) as Hne by lra.
  pose proof (outward_unit b Hne) as Hunit.
  unfold wallCollision, along, speedSq.
  unfold drumCenter_x, drumCenter_y, drumRadius, CONFIG.SIM_DRUM_RADIUS.
  cbn [nlt nadd nsub nmul ndiv nopp ofZ Math_sqrt Real.number].
  fold (fromCentre b).
  apply ltb_true in Hhit as ->.
  cbn [ball_x ball_y ball_vx ball_vy ball_radius ball_elasticity
       with_pos with_vel].
  unfold dec. cbn [ndiv ofZ Real.number].
  fold (outward_x b) (outward_y b).
  pose proof (bounce_components (ball_vx b) (ball_vy b) (outward_x b)
                (outward_y b) (ball_elasticity b) (5 / 100) Hunit)
    as (Hn & Ht & Hsq & Hv).
  cbv zeta in Hn, Ht, Hsq.
  split; [exact Hn|]. split; [rewrite Ht; lra|].
  rewrite Hsq, Hv.
  set (vn := ball_vx b * outward_x b + ball_vy b * outward_y b).
  set (vt := ball_vx b * - outward_y b + ball_vy b * outward_x b).
  set (e := ball_elasticity b).
  assert (0 <= e * e) by nra. assert (0 <= vt * vt) by nra.
  nra.
Qed.

Lemma wall_bounce_loses_energy_witness :
  speedSq (wallCollision escaping)
  <= ball_elasticity escaping * ball_elasticity escaping * speedSq escaping.
Proof.
  apply (wall_bounce_loses_energy escaping); [cbn; lra|].
  apply escaping_is_outside.
Defined.

(** X20. [resolveCollisions] conserves momentum and kinetic energy for
    balls of any two masses whose sum is not zero (the animated drum
    gives every ball its own mass): after the resolution of a touching
    pair the sum of mass times velocity, in every direction, and the sum
    of mass times squared speed are what they were, and the masses are
    unchanged. *)
Theorem collision_conserves_momentum_and_energy
    (b1 b2 b1' b2' : Ball)
    (Hm : ball_mass b1 + ball_mass b2 <> 0)
    (Hc : collide b1 b2 = Some (b1', b2')) :
  (forall ux uy,
      momentum ux uy b1' + momentum ux uy b2'
      = momentum ux uy b1 + momentum ux uy b2)
  /\ kinetic b1' + kinetic b2' = kinetic b1 + kinetic b2
  /\ ball_mass b1' = ball_mass b1 /\ ball_mass b2' = ball_mass b2.
Proof.
  revert Hc. unfold collide. destruct (nlt _ _); [|done]. intros [= <- <-].
  unfold momentum, kinetic, along, speedSq.
  cbn [ball_vx ball_vy ball_mass with_pos with_vel nadd nsub nmul ndiv ofZ
       Math_sin Math_cos Math_atan2 Real.number].
  fold (axisAngle b1 b2).
  set (c := cos (axisAngle b1 b2)). set (s := sin (axisAngle b1 b2)).
  pose proof (sin_cos_unit (axisAngle b1 b2)) as Hunit. fold c s in Hunit.
  pose proof (head_on (ball_mass b1) (ball_mass b2)
                (ball_vx b1 * c + ball_vy b1 * s)
                (ball_vx b2 * c + ball_vy b2 * s) Hm) as [Hmom Hkin].
  cbv zeta in Hmom, Hkin.
  split; [|split; [|done]].
  - intros ux uy.
    apply (rotated_collision _ _ c s _ _ _ _ _ _ ux uy Hunit Hmom Hkin).
  - apply (rotated_collision _ _ c s _ _ _ _ _ _ 0 0 Hunit Hmom Hkin).
Qed.

Lemma collision_conserves_momentum_and_energy_witness :
  exists b1' b2',
    collide heavy upper = Some (b1', b2')
    /\ momentum 1 0 b1' + momentum 1 0 b2'
       = momentum 1 0 heavy + momentum 1 0 upper
    /\ kinetic b1' + kinetic b2' = kinetic heavy + kinetic upper.
Proof.
  destruct (collide heavy upper) as [[b1' b2']|] eqn:Hc.
  - exists b1', b2'. split; [reflexivity|].
    destruct (collision_conserves_momentum_and_energy heavy upper b1' b2')
      as (Hmom & Hkin & _); [cbn; lra|exact Hc|].
    split; [apply Hmom|exact Hkin].
  - exfalso. unfold collide in Hc.
    cbn [heavy upper ball_x ball_y ball_radius nadd nsub nmul nlt
         Math_sqrt Real.number] in Hc.
    unfold Real.ltb in Hc.
    destruct (Rlt_dec _ _) as [|Hnot]; [discriminate Hc|].
    apply Hnot, lower_upper_touch.
Defined.

(** X21. The resolution of a collision leaves the two balls exactly
    touching: for two balls with distinct centres (and radii whose sum
    is not negative), both [resolveCollisions] and the collision step
    of the headless run move the centres apart along the line through
    them until their distance is the sum of the radii, and keep the
    midpoint of the two centres. *)
Theorem collision_leaves_the_balls_touching
    (b1 b2 b1' b2' : Ball)
    (Hdistinct : (ball_x b1, ball_y b1) <> (ball_x b2, ball_y b2))
    (Hrad : 0 <= ball_radius b1 + ball_radius b2)
    (Hc : collide b1 b2 = Some (b1', b2')
          \/ collideHeadless b1 b2 = Some (b1', b2')) :
  centreDistance b1' b2' = ball_radius b1 + ball_radius b2
  /\ ball_x b1' + ball_x b2' = ball_x b1 + ball_x b2
  /\ ball_y b1' + ball_y b2' = ball_y b1 + ball_y b2.
Proof.
  set (dx := ball_x b2 - ball_x b1). set (dy := ball_y b2 - ball_y b1).
  assert ((dx, dy) <> (0, 0)) as Hne.
  { intros [= Hx Hy]. apply Hdistinct. subst dx dy. f_equal; lra. }
  destruct Hc as [Hc|Hc]; revert Hc.
  - unfold collide. destruct (nlt _ _); [|done]. intros [= <- <-].
    unfold centreDistance.
    cbn [ball_x ball_y with_pos with_vel nadd nsub nmul ndiv ofZ
         Math_sin Math_cos Math_atan2 Math_sqrt Real.number].
    fold dx dy.
    destruct (atan2_direction dx dy Hne) as [Hcos Hsin].
    set (c := cos (Real.atan2 dy dx)) in *.
    set (s := sin (Real.atan2 dy dx)) in *.
    split; [|split; ring].
    pose proof (pushed_apart dx dy c s _ Hne Hrad Hcos Hsin) as Hpush.
    cbv zeta in Hpush. etransitivity; [|exact Hpush].
    f_equal. unfold dx, dy. ring.
  - unfold collideHeadless. destruct (nlt _ _); [|done]. intros [= <- <-].
    unfold centreDistance.
    cbn [ball_x ball_y with_pos with_vel nadd nsub nmul ndiv ofZ
         Math_sqrt Real.number].
    fold dx dy.
    split; [|split; ring].
    pose proof (pushed_apart dx dy _ _ _ Hne Hrad eq_refl eq_refl) as Hpush.
    cbv zeta in Hpush. etransitivity; [|exact Hpush].
    f_equal. unfold dx, dy. ring.
Qed.

Lemma collision_leaves_the_balls_touching_witness :
  exists b1' b2',
    collideHeadless lower upper = Some (b1', b2')
    /\ centreDistance b1' b2' = ball_radius lower + ball_radius upper.
Proof.
  destruct (collideHeadless lower upper) as [[b1' b2']|] eqn:Hc.
  - exists b1', b2'. split; [reflexivity|].
    apply (collision_leaves_the_balls_touching lower upper b1' b2').
    + cbn. intros [= Hx Hy]. lra.
    + cbn. lra.
    + by right.
  - exfalso. unfold collideHeadless in Hc.
    cbn [lower upper ball_x ball_y ball_radius nadd nsub nmul nlt
         Real.number] in Hc.
    unfold Real.ltb in Hc.
    destruct (Rlt_dec _ _) as [|Hnot]; [discriminate Hc|].
    apply Hnot. lra.
Defined.

(** X22. Every ball starts inside the drum: with a [Math.random] of
    [0,1), the [SimBall] constructor and the set-up of the headless run
    place the centre of a ball less than 160 from the centre of the
    drum, so that the ball of radius 10 lies within the wall; each
    velocity component is in [-7.5, 7.5), and the mass is in
    [0.975, 1.025) for a [SimBall] and 1 in the headless run. The
    constructor calls [Math.random] five times, the headless set-up
    four times per ball. *)
Theorem every_ball_starts_inside_the_drum
    (Math_random : nat -> R) (Hunit : unitRandom Math_random) :
  (forall (i : Z) (k : nat),
      let b := fst (SimBall_new Math_random i k) in
      fromCentre b < 160 /\ insideDrum b
      /\ ball_id b = i /\ ball_radius b = 10
      /\ (- (75 / 10) <= ball_vx b < 75 / 10)
      /\ (- (75 / 10) <= ball_vy b < 75 / 10)
      /\ (975 / 1000 <= ball_mass b < 1025 / 1000)
      /\ snd (SimBall_new Math_random i k) = (k + 5)%nat)
  /\ (forall (i : Z) (k : nat),
        let b := fst (headlessBall Math_random i k) in
        fromCentre b < 160 /\ insideDrum b
        /\ ball_id b = i /\ ball_radius b = 10
        /\ (- (75 / 10) <= ball_vx b < 75 / 10)
        /\ (- (75 / 10) <= ball_vy b < 75 / 10)
        /\ ball_mass b = 1
        /\ snd (headlessBall Math_random i k) = (k + 4)%nat)
  /\ (forall (k : nat) (b : Ball),
        b ∈ fst (newBalls Math_random k)
        \/ b ∈ fst (headlessBalls Math_random k) ->
        insideDrum b).
Proof.
  split; [|split].
  - intros i k. by apply SimBall_new_inside.
  - intros i k. by apply headlessBall_inside.
  - intros k b [Hb|Hb]; apply forEach_elem in Hb as (i & j & _ & ->).
    + by apply SimBall_new_inside.
    + by apply headlessBall_inside.
Qed.

Lemma every_ball_starts_inside_the_drum_witness :
  insideDrum (fst (SimBall_new constantRandom 1%Z 0%nat))
  /\ insideDrum (fst (headlessBall constantRandom 1%Z 0%nat)).
Proof.
  destruct (every_ball_starts_inside_the_drum constantRandom)
    as (Hnew & Hheadless & _).
  - intros k. unfold constantRandom. lra.
  - split; [apply Hnew|apply Hheadless].
Defined.

End PhysicsFacts.

(** * Properties of the result of a headless run *)

Module HeadlessResultFacts.
Import Simulation SimulationFacts.

Local Open Scope nat_scope.

Section Generic.
Context {num : Type} `{JSNumber num}.
Variable Math_random : nat -> num.

Lemma headlessBalls_ids (k : nat) :
  ids (fst (headlessBalls Math_random k))
  = zrange 1 (Z.to_nat CONFIG.TOTAL_NUMBERS).
Proof.
  unfold headlessBalls. generalize (zrange 1 (Z.to_nat CONFIG.TOTAL_NUMBERS)).
  intros numbers. revert k.
  induction numbers as [|i numbers IH]; intros k; [done|].
  cbn [forEach]. unfold bind at 1.
  destruct (headlessBall Math_random i k) as [b k'] eqn:Hb.
  assert (ball_id b = i) as Hid.
  { unfold headlessBall, bind, random, ret in Hb. by injection Hb as <- _. }
  unfold bind. specialize (IH k').
  destruct (forEach _ numbers k') as [balls k'']. cbn [ret fst] in *.
  unfold ids in *. cbn [map]. by rewrite Hid, IH.
Qed.

Lemma attempt_sound (known : list Z) (balls : list Ball) (selected : list Z)
    (k : nat) (balls' : list Ball) (selected' : list Z) (k' : nat) :
  attempt Math_random (balls, selected, k) = (balls', selected', k') ->
  sound known balls selected ->
  sound known balls' selected' /\ length selected' <= S (length selected).
Proof.
  cbn [attempt]. intros Hattempt [Hnd Hknown].
  pose proof (times_ids (Z.to_nat STEPS_PER_EXTRACTION)
                (physicsStep Math_random) balls k
                (physicsStep_ids Math_random)) as Hids.
  destruct (times _ _ balls k) as [moved k1]. cbn [fst] in Hids.
  unfold extractionAttempt in Hattempt.
  destruct (firstBall _ moved) as [[i b]|] eqn:Hfirst.
  - injection Hattempt as <- <- <-.
    apply firstBall_Some in Hfirst as [Hlookup _].
    assert (ids moved !! i = Some (ball_id b)) as Hid
      by (unfold ids; by rewrite list_lookup_fmap, Hlookup).
    rewrite Hids in Hid.
    split; [split|rewrite length_app; cbn [length]; lia].
    + rewrite ids_delete, Hids. by apply NoDup_move.
    + intros id Hin. apply Hknown. rewrite ids_delete, Hids in Hin.
      rewrite !elem_of_app in Hin. rewrite elem_of_app.
      destruct Hin as [[Hin|Hin]|Hin].
      * by left.
      * apply list_elem_of_singleton in Hin as ->. right.
        by eapply list_elem_of_lookup_2.
      * right. by eapply list_elem_of_delete_inv.
  - injection Hattempt as <- <- <-.
    split; [|lia]. split; by rewrite Hids.
Qed.

Lemma physicsLoop_sound (known : list Z) (fuel : nat) (balls : list Ball)
    (selected : list Z) (k : nat) (balls' : list Ball) (selected' : list Z)
    (k' : nat) :
  physicsLoop Math_random fuel balls selected k
  = (Returned (balls', selected'), k') ->
  length selected <= CONFIG.TOTAL_DRAW_COUNT ->
  sound known balls selected ->
  length selected' = CONFIG.TOTAL_DRAW_COUNT /\ sound known balls' selected'.
Proof.
  revert balls selected k.
  induction fuel as [|fuel IH]; intros balls selected k.
  - cbn [physicsLoop].
    destruct (Nat.ltb_spec (length selected) CONFIG.TOTAL_DRAW_COUNT);
      [done|]. intros [= <- <- <-] Hlen Hsound. split; [lia|done].
  - destruct (Nat.ltb_spec (length selected) CONFIG.TOTAL_DRAW_COUNT)
      as [Hlt|Hge].
    + rewrite physicsLoop_unroll by done.
      destruct (attempt _ _) as [[b s] j] eqn:Hattempt.
      intros Hrun Hlen Hsound.
      destruct (attempt_sound known _ _ _ _ _ _ Hattempt Hsound)
        as [Hsound' Hgrow].
      apply (IH _ _ _ Hrun); [lia|done].
    + cbn [physicsLoop]. apply Nat.ltb_ge in Hge as Hge'. rewrite Hge'.
      intros [= <- <- <-] Hlen Hsound. split; [lia|done].
Qed.

Lemma physicsLoop_no_throw (fuel : nat) (balls : list Ball)
    (selected : list Z) (k : nat) :
  fst (physicsLoop Math_random fuel balls selected k) <> Threw.
Proof.
  revert balls selected k.
  induction fuel as [|fuel IH]; intros balls selected k.
  - cbn [physicsLoop]. by destruct (Nat.ltb _ _).
  - destruct (Nat.ltb_spec (length selected) CONFIG.TOTAL_DRAW_COUNT)
      as [Hlt|Hge].
    + rewrite physicsLoop_unroll by done.
      destruct (attempt _ _) as [[b s] j]. apply IH.
    + cbn [physicsLoop]. apply Nat.ltb_ge in Hge as ->. done.
Qed.

Lemma fillLoop_full (fuel : nat) (balls : list Ball) (selected : list Z)
    (k : nat) :
  length selected = CONFIG.TOTAL_DRAW_COUNT ->
  fillLoop Math_random fuel balls selected k = (Returned selected, k).
Proof.
  intros Hfull. destruct fuel; cbn [fillLoop]; by rewrite Hfull.
Qed.

(** X23. Whatever the arithmetic and whatever [Math.random] yields,
    [runHeadlessSimulation] never throws, and a run that returns
    returns what its comment promises: exactly seven ids, pairwise
    distinct, each one of 1..45. They are the ids extracted by the
    physics loop, in the order of extraction: the fill loop after it
    adds nothing. *)
Theorem headless_result_is_seven_distinct_balls
    (fuel : nat) (selected : list Z)
    (Hret : fst (runHeadlessSimulation Math_random fuel 0)
            = Returned selected) :
  length selected = CONFIG.TOTAL_DRAW_COUNT
  /\ NoDup selected
  /\ (forall id, id ∈ selected -> (1 <= id <= 45)%Z)
  /\ (exists balls k',
        physicsLoop Math_random fuel (fst (headlessBalls Math_random 0)) []
                    (snd (headlessBalls Math_random 0))
        = (Returned (balls, selected), k'))
  /\ (forall fuel', fst (runHeadlessSimulation Math_random fuel' 0) <> Threw).
Proof.
  assert (forall fuel' result,
             fst (runHeadlessSimulation Math_random fuel' 0) = result ->
             result <> Threw
             /\ forall chosen, result = Returned chosen ->
                  length chosen = CONFIG.TOTAL_DRAW_COUNT
                  /\ NoDup chosen
                  /\ (forall id, id ∈ chosen -> (1 <= id <= 45)%Z)
                  /\ exists balls k',
                       physicsLoop Math_random fuel'
                         (fst (headlessBalls Math_random 0)) []
                         (snd (headlessBalls Math_random 0))
                       = (Returned (balls, chosen), k')) as Hrun.
  { intros fuel' result. unfold runHeadlessSimulation, bind.
    pose proof (headlessBalls_ids 0) as Hids.
    destruct (headlessBalls Math_random 0) as [balls k]. cbn [fst snd] in *.
    pose proof (physicsLoop_no_throw fuel' balls [] k) as Hno.
    pose proof (physicsLoop_sound (zrange 1 (Z.to_nat CONFIG.TOTAL_NUMBERS))
                  fuel' balls [] k) as Hsound.
    destruct (physicsLoop Math_random fuel' balls [] k)
      as [[[balls' chosen']| |] k'] eqn:Hloop; cbn [fst] in *.
    - destruct (Hsound balls' chosen' k' eq_refl) as (Hlen & Hnd & Hknown).
      { unfold CONFIG.TOTAL_DRAW_COUNT. cbn. lia. }
      { split; cbn [app]; rewrite Hids; [apply zrange_NoDup|done]. }
      rewrite fillLoop_full by done. cbn [fst]. intros <-.
      split; [done|]. intros chosen [= <-].
      split; [done|]. split; [by apply NoDup_app in Hnd as [? _]|].
      split; [|by exists balls', k'].
      intros id Hin.
      assert (id ∈ zrange 1 (Z.to_nat CONFIG.TOTAL_NUMBERS)) as Hrange
        by (apply Hknown, elem_of_app; by left).
      apply zrange_spec in Hrange. unfold CONFIG.TOTAL_NUMBERS in Hrange. lia.
    - done.
    - cbn [ret fst]. intros <-. split; [done|]. by intros chosen. }
  destruct (Hrun fuel _ eq_refl) as [_ Hres].
  destruct (Hres selected Hret) as (Hlen & Hnd & Hrange & Hloop).
  repeat (split; [done|]).
  intros fuel'. by destruct (Hrun fuel' _ eq_refl) as [Hno _].
Qed.

End Generic.

Lemma headless_result_is_seven_distinct_balls_witness :
  fst (runHeadlessSimulation (H := @Double.number Double.constantHost)
         scattered 30 0)
  = Returned [28; 42; 16; 9; 13; 7; 25]%Z
  /\ NoDup [28; 42; 16; 9; 13; 7; 25]%Z.
Proof.
  assert (fst (runHeadlessSimulation (H := @Double.number Double.constantHost)
                 scattered 30 0)
          = Returned [28; 42; 16; 9; 13; 7; 25]%Z) as Hret
    by (vm_compute; reflexivity).
  split; [exact Hret|].
  by destruct (headless_result_is_seven_distinct_balls
                 (H := @Double.number Double.constantHost) scattered 30 _ Hret)
    as (_ & Hnd & _).
Defined.

End HeadlessResultFacts.

(** * Properties of the page *)

Module UIFacts.
Import Algorithms UI.
Import String.StringSyntax.
Local Delimit Scope string_scope with string.

Local Open Scope Z_scope.

(** ** The colour ranges *)

(** X24. For every integer [num], [getBallRangeClass] answers the class
    of the decade of [num] ("range-1" up to 10, ..., "range-4" up to
    40, "range-5" above), [getBallColor] the colour of the same range,
    and the bar of [num] in the chart has that colour, the fallbacks
    included; for a number up to 45 no fallback is taken. *)
Theorem ball_class_and_colour_follow_the_range (num : Z) :
  getBallRangeClass num
  = (if decide (num <= 10) then "range-1"
     else if decide (num <= 20) then "range-2"
     else if decide (num <= 30) then "range-3"
     else if decide (num <= 40) then "range-4"
     else "range-5")%string
  /\ getBallColor num
     = Some (if decide (num <= 10) then "#fbc531"
             else if decide (num <= 20) then "#0984e3"
             else if decide (num <= 30) then "#e84118"
             else if decide (num <= 40) then "#7f8fa6"
             else "#4cd137")%string
  /\ barColor num = getBallColor num ≫= rgbOf
  /\ (num <= 45 -> findRange num <> None).
Proof.
  unfold getBallRangeClass, getBallColor, barColor, findRange, RANGES.
  cbn [list_find fmap option_fmap option_map range_max].
  repeat case_decide; try lia; cbn; try done.
  all: repeat split; try done; lia.
Qed.

(** ** The order of the balls in the history *)

Lemma includes_Sequential (selectedAlgo : String.string) :
  includesString (getAlgoName selectedAlgo) "Sequential"%string
  = String.eqb selectedAlgo "sequential"%string.
Proof.
  unfold getAlgoName.
  destruct (String.eqb_spec selectedAlgo "weighted"%string) as [->|_]; [done|].
  destruct (String.eqb_spec selectedAlgo "adaptive"%string) as [->|_]; [done|].
  destruct (String.eqb_spec selectedAlgo "non-frequency"%string) as [->|_]; [done|].
  destruct (String.eqb_spec selectedAlgo "sequential"%string) as [->|_]; done.
Qed.

Lemma merge_sort_sorted (l : list Z) :
  Sorted Z.le l -> merge_sort Z.le l = l.
Proof.
  intros Hsorted. apply (Sorted_unique Z.le); [|done|].
  - apply Sorted_merge_sort. apply _.
  - apply merge_sort_Permutation.
Qed.

(** X25. [addToHistory] shows the main numbers in the order
    [generateNumbers] logs them: handed [getAlgoName(selectedAlgo)], it
    sorts the first six numbers exactly when [selectedAlgo] is not
    'sequential' (the name of that algorithm alone contains
    "Sequential"), and leaves the seventh as the bonus; and the entry
    of a finished drum simulation shows the six main numbers sorted. *)
Theorem history_shows_the_logged_order
    (numbers : list Z) (selectedAlgo : String.string) (selected : list Z) :
  fst (historyBalls numbers (getAlgoName selectedAlgo))
  = loggedMain numbers selectedAlgo
  /\ (fst (historyBalls numbers (getAlgoName selectedAlgo)) = take 6 numbers
      \/ selectedAlgo <> "sequential"%string
         /\ Sorted Z.le (fst (historyBalls numbers (getAlgoName selectedAlgo)))
         /\ fst (historyBalls numbers (getAlgoName selectedAlgo))
            ≡ₚ take 6 numbers)
  /\ snd (historyBalls numbers (getAlgoName selectedAlgo)) = numbers !! 6%nat
  /\ (length selected = 7%nat ->
      historyBalls (Simulation.finalResult selected) "Mechanical Sim"%string
      = (merge_sort Z.le (take 6 selected), selected !! 6%nat)).
Proof.
  unfold historyBalls, loggedMain. cbv zeta. cbn [fst snd].
  rewrite includes_Sequential.
  split; [done|]. split; [|split; [done|]].
  - destruct (String.eqb_spec selectedAlgo "sequential"%string) as [->|Hne];
      cbn [negb]; [by left|right].
    split; [done|]. split; [|apply merge_sort_Permutation].
    apply Sorted_merge_sort. apply _.
  - intros Hlen. unfold Simulation.finalResult.
    change (includesString "Mechanical Sim"%string "Sequential"%string) with false.
    cbn [negb]. unfold CONFIG.MAIN_NUMBERS_COUNT.
    assert (length (merge_sort Z.le (take 6 selected)) = 6%nat) as Hsix.
    { rewrite merge_sort_Permutation, length_take. lia. }
    rewrite take_app_length' by done.
    rewrite lookup_app_r by lia. rewrite Hsix, Nat.sub_diag.
    f_equal.
    + apply merge_sort_sorted, Sorted_merge_sort. apply _.
    + destruct (selected !! 6%nat); done.
Qed.

(** ** The pages of the winning history *)

Lemma lastPage_spec (total : Z) :
  exists q, lastPage total = 20 * q /\ 20 * q <= total - 1 < 20 * q + 20.
Proof.
  exists ((total - 1) / 20). unfold lastPage, PAGE_SIZE.
  pose proof (Z.div_mod (total - 1) 20 ltac:(lia)).
  pose proof (Z.mod_pos_bound (total - 1) 20 ltac:(lia)). lia.
Qed.

Lemma listener_on_page (total : Z) (button : Button) (index : Z) :
  0 <= total ->
  (exists a, index = 20 * a) /\ 0 <= index <= Z.max 0 (total - 1) ->
  (exists a, listener total button index = 20 * a)
  /\ 0 <= listener total button index <= Z.max 0 (total - 1).
Proof.
  intros Htotal [[a ->] Hrange].
  destruct (lastPage_spec total) as (q & Hlast & Hq).
  destruct button; cbn [listener]; unfold PAGE_SIZE.
  - destruct (0 <? 20 * a); [|by eauto]. split; [by exists 0|lia].
  - destruct (Z.ltb_spec 0 (20 * a)); [|by eauto].
    split; [|lia]. destruct (Z.max_spec 0 (20 * a - 20)) as [[_ ->]|[_ ->]].
    + exists (a - 1). lia.
    + by exists 0.
  - destruct (Z.ltb_spec (20 * a + 20) total); [|by eauto].
    split; [exists (a + 1)|]; lia.
  - destruct (Z.ltb_spec (20 * a + 20) total); [|by eauto].
    fold PAGE_SIZE. fold (lastPage total). rewrite Hlast.
    split; [by exists q|lia].
Qed.

Lemma listeners_on_page (total : Z) (button : Button) (m : nat) (index : Z) :
  0 <= total ->
  (exists a, index = 20 * a) /\ 0 <= index <= Z.max 0 (total - 1) ->
  (exists a, Nat.iter m (listener total button) index = 20 * a)
  /\ 0 <= Nat.iter m (listener total button) index <= Z.max 0 (total - 1).
Proof.
  intros Htotal Hpage. induction m as [|m IH]; [done|].
  rewrite Nat.iter_succ. by apply listener_on_page.
Qed.

Lemma visited_on_page (total : Z) (p : Pager) :
  0 <= total -> visited total p ->
  (exists a, currentHistoryIndex p = 20 * a)
  /\ 0 <= currentHistoryIndex p <= Z.max 0 (total - 1).
Proof.
  intros Htotal Hvisited.
  induction Hvisited as [|p Hp IH|p button Hp IH].
  - cbn. split; [by exists 0|lia].
  - unfold renderWinningHistory. cbv zeta.
    destruct (populated p); cbn [currentHistoryIndex]; [done|].
    split; [by exists 0|lia].
  - cbn [click currentHistoryIndex]. by apply listeners_on_page.
Qed.

Lemma length_renderHistoryPage (total index : Z) :
  length (renderHistoryPage total index)
  = Z.to_nat (Z.min (index + PAGE_SIZE) total - index).
Proof.
  unfold renderHistoryPage. cbv zeta. by rewrite length_map, length_zrange.
Qed.

(** X26. Whatever the openings of the history tab and the clicks on
    First, Prev, Next and Last, [currentHistoryIndex] is a multiple of
    the page size inside the history: the page rendered holds
    [min(20, total - index)] items (at least one when there is a
    draw), their round numbers are [total - i], between 1 and [total];
    First and Prev are hidden exactly on the first page, Next and Last
    exactly on the last. *)
Theorem history_page_is_never_out_of_range
    (total : Z) (p : Pager)
    (Htotal : 0 <= total) (Hvisited : visited total p) :
  let index := currentHistoryIndex p in
  let page := renderHistoryPage total index in
  index mod PAGE_SIZE = 0
  /\ 0 <= index <= Z.max 0 (total - 1)
  /\ Z.of_nat (length page) = Z.min PAGE_SIZE (total - index)
  /\ (0 < total -> page <> [])
  /\ (forall i round, (i, round) ∈ page ->
        index <= i < total /\ round = total - i /\ 1 <= round <= total)
  /\ (fst (updateNavButtons total index) = true <-> index = 0)
  /\ (snd (updateNavButtons total index) = true <->
      index = Z.max 0 (lastPage total)).
Proof.
  cbv zeta.
  destruct (visited_on_page total p Htotal Hvisited) as [[a Ha] Hrange].
  destruct (lastPage_spec total) as (q & Hlast & Hq).
  set (index := currentHistoryIndex p) in *.
  assert (Z.of_nat (length (renderHistoryPage total index))
          = Z.min PAGE_SIZE (total - index)) as Hlen.
  { rewrite length_renderHistoryPage. unfold PAGE_SIZE. lia. }
  split; [|split; [done|split; [done|split; [|split; [|split]]]]].
  - rewrite Ha. unfold PAGE_SIZE. rewrite Z.mul_comm. apply Z_mod_mult.
  - intros Hsome Hempty. rewrite Hempty in Hlen. cbn in Hlen.
    unfold PAGE_SIZE in Hlen. lia.
  - intros i round Hin. unfold renderHistoryPage in Hin. cbv zeta in Hin.
    apply list_elem_of_fmap in Hin as (j & [= -> ->] & Hj).
    apply zrange_spec in Hj. unfold PAGE_SIZE in Hj. lia.
  - unfold updateNavButtons. cbn [fst]. rewrite Z.leb_le. lia.
  - unfold updateNavButtons. cbn [snd]. rewrite Z.leb_le, Hlast.
    unfold PAGE_SIZE. lia.
Qed.

Lemma history_page_is_never_out_of_range_witness :
  currentHistoryIndex (click 100 Last openedTwice) = 80
  /\ length (renderHistoryPage 100 80) = 20%nat
  /\ snd (updateNavButtons 100 80) = true.
Proof.
  assert (currentHistoryIndex (click 100 Last openedTwice) = 80) as Hlast
    by reflexivity.
  destruct (history_page_is_never_out_of_range 100
              (click 100 Last openedTwice))
    as (_ & _ & Hlen & _ & _ & _ & Hhidden).
  - lia.
  - apply visit_click. unfold openedTwice. do 2 apply visit_open.
    apply visit_load.
  - rewrite Hlast in Hlen, Hhidden. split; [done|]. split.
    + apply Nat2Z.inj. rewrite Hlen. reflexivity.
    + apply Hhidden. reflexivity.
Defined.

Lemma next_listeners (total : Z) (m : nat) (index : Z) :
  0 <= total ->
  (exists a, index = 20 * a) /\ 0 <= index <= Z.max 0 (total - 1) ->
  Nat.iter m (listener total Next) index
  = Z.min (index + PAGE_SIZE * Z.of_nat m) (Z.max index (lastPage total)).
Proof.
  intros Htotal. revert index.
  destruct (lastPage_spec total) as (q & Hlast & Hq).
  induction m as [|m IH]; intros index Hpage.
  - cbn [Nat.iter nat_rect]. unfold PAGE_SIZE. lia.
  - rewrite Nat.iter_succ_r.
    rewrite IH by (by apply listener_on_page).
    destruct Hpage as [[a ->] Hrange].
    cbn [listener]. unfold PAGE_SIZE. rewrite Hlast.
    destruct (Z.ltb_spec (20 * a + 20) total); lia.
Qed.

(** X27. [initHistoryNavigation] runs at every opening of the history
    tab and attaches one more listener to each button, so that a click
    on Next moves as many pages forward as the tab has been opened, as
    far as the last page. *)
Theorem next_moves_one_page_per_opening
    (total : Z) (p : Pager)
    (Htotal : 0 <= total) (Hvisited : visited total p) :
  currentHistoryIndex (click total Next p)
  = Z.min (currentHistoryIndex p + PAGE_SIZE * Z.of_nat (listeners p))
          (Z.max (currentHistoryIndex p) (lastPage total))
  /\ listeners (renderWinningHistory total p) = S (listeners p)
  /\ (forall button, listeners (click total button p) = listeners p).
Proof.
  split; [|split].
  - cbn [click currentHistoryIndex]. apply next_listeners; [done|].
    by apply visited_on_page.
  - unfold renderWinningHistory. cbv zeta. by destruct (populated p).
  - done.
Qed.

Lemma next_moves_one_page_per_opening_witness :
  listeners openedTwice = 2%nat
  /\ currentHistoryIndex (click 100 Next openedTwice) = 40.
Proof.
  destruct (next_moves_one_page_per_opening 100 openedTwice) as (Hnext & _).
  - lia.
  - unfold openedTwice. do 2 apply visit_open. apply visit_load.
  - split; [reflexivity|]. rewrite Hnext. reflexivity.
Defined.

(** ** The chart *)

Lemma countNumber_length (frequency : list Z) (num : Z) :
  length (countNumber frequency num) = length frequency.
Proof.
  unfold countNumber. destruct (_ && _); [apply length_alter|done].
Qed.

Lemma countNumber_lookup (frequency : list Z) (num n : Z) (c : Z) :
  1 <= n <= 45 ->
  frequency !! Z.to_nat n = Some c ->
  countNumber frequency num !! Z.to_nat n
  = Some (c + Z.of_nat (occurrencesIn n [num])).
Proof.
  intros Hn Hc. unfold countNumber, occurrencesIn.
  rewrite filter_cons, filter_nil. unfold CONFIG.TOTAL_NUMBERS.
  destruct (decide (num = n)) as [->|Hne]; cbn [length].
  - assert ((1 <=? n) && (n <=? 45) = true) as -> by lia.
    rewrite list_lookup_alter_eq, Hc. cbn. f_equal; lia.
  - destruct (_ && _).
    + rewrite list_lookup_alter_ne by lia. rewrite Hc. f_equal; lia.
    + rewrite Hc. f_equal; lia.
Qed.

Lemma countDraw_lookup (draw : list Z) (frequency : list Z) (n c : Z) :
  1 <= n <= 45 ->
  frequency !! Z.to_nat n = Some c ->
  foldl countNumber frequency draw !! Z.to_nat n
  = Some (c + Z.of_nat (occurrencesIn n draw)).
Proof.
  intros Hn. revert frequency c.
  induction draw as [|num draw IH]; intros frequency c Hc; cbn [foldl].
  - rewrite Hc. f_equal. unfold occurrencesIn. cbn. lia.
  - rewrite (IH _ (c + Z.of_nat (occurrencesIn n [num])))
      by (by apply countNumber_lookup).
    f_equal. unfold occurrencesIn. rewrite !filter_cons, filter_nil.
    case_decide; cbn [length]; lia.
Qed.

Lemma mainFrequency_lookup (winningNumbers : list HistoryEntry) (n : Z) :
  1 <= n <= 45 ->
  mainFrequency winningNumbers !! Z.to_nat n
  = Some (Z.of_nat (occurrences n winningNumbers)).
Proof.
  intros Hn. unfold mainFrequency.
  assert (forall frequency c,
             frequency !! Z.to_nat n = Some c ->
             foldl (fun frequency entry =>
                      match entry with
                      | ArrayOf draw => foldl countNumber frequency draw
                      | NotAnArray => frequency
                      end) frequency winningNumbers !! Z.to_nat n
             = Some (c + Z.of_nat (occurrences n winningNumbers))) as Hfold.
  { induction winningNumbers as [|[draw|] h IH]; intros frequency c Hc;
      cbn [foldl].
    - rewrite Hc. f_equal. unfold occurrences. cbn. lia.
    - rewrite (IH _ (c + Z.of_nat (occurrencesIn n draw)))
        by (by apply countDraw_lookup).
      f_equal. rewrite AlgorithmsFacts.occurrences_cons. lia.
    - rewrite (IH _ c) by done. done. }
  rewrite (Hfold _ 0); [done|].
  apply lookup_replicate_2. unfold CONFIG.TOTAL_NUMBERS. lia.
Qed.

Lemma mainFrequency_zero (winningNumbers : list HistoryEntry) :
  mainFrequency winningNumbers !! 0%nat = Some 0.
Proof.
  unfold mainFrequency.
  generalize (replicate (Z.to_nat (CONFIG.TOTAL_NUMBERS + 1)) 0)
    (eq_refl : replicate (Z.to_nat (CONFIG.TOTAL_NUMBERS + 1)) 0 !! 0%nat
               = Some 0).
  induction winningNumbers as [|[draw|] h IH]; intros frequency Hf;
    cbn [foldl]; [done| |exact (IH frequency Hf)].
  apply (IH (foldl countNumber frequency draw)). clear IH.
  revert frequency Hf.
  induction draw as [|num draw IHd]; intros frequency Hf; cbn [foldl];
    [done|].
  apply IHd. unfold countNumber. destruct (Z.leb_spec 1 num); [|done].
  destruct (_ <=? _); cbn [andb]; [|done].
  rewrite list_lookup_alter_ne by lia. done.
Qed.

(** X28. The bars of the chart count the occurrences: the [data] of
    the "Main Numbers" dataset has 45 entries, the entry of the number
    [n] is the number of occurrences of [n] in the draws of the
    history, which is the weight [getWeightedNumbers] gives [n] less
    its base weight 1; the unused entry 0 of the frequency array stays
    0. *)
Theorem chart_bars_count_the_occurrences
    (winningNumbers : list HistoryEntry) (n : Z) (Hn : 1 <= n <= 45) :
  length (dataOf (mainFrequency winningNumbers)) = 45%nat
  /\ dataOf (mainFrequency winningNumbers) !! Z.to_nat (n - 1)
     = Some (Z.of_nat (occurrences n winningNumbers))
  /\ frequencyWeight winningNumbers n
     = inject_Z (1 + default 0 (dataOf (mainFrequency winningNumbers)
                                  !! Z.to_nat (n - 1)))
  /\ mainFrequency winningNumbers !! 0%nat = Some 0.
Proof.
  assert (dataOf (mainFrequency winningNumbers) !! Z.to_nat (n - 1)
          = Some (Z.of_nat (occurrences n winningNumbers))) as Hbar.
  { unfold dataOf. rewrite list_lookup_fmap.
    rewrite GeneratorsFacts.lookup_zrange
      by (unfold CONFIG.TOTAL_NUMBERS; lia).
    cbn [fmap option_fmap option_map].
    replace (1 + Z.of_nat (Z.to_nat (n - 1))) with n by lia.
    by rewrite mainFrequency_lookup. }
  split; [|split; [done|split; [|apply mainFrequency_zero]]].
  - unfold dataOf. by rewrite length_map, length_zrange.
  - rewrite Hbar. unfold frequencyWeight.
    by rewrite AlgorithmsFacts.frequencyWeights_get.
Qed.

Lemma chart_bars_count_the_occurrences_witness :
  dataOf (mainFrequency twice) !! 2%nat = Some 2
  /\ frequencyWeight twice 3 = inject_Z 3.
Proof.
  destruct (chart_bars_count_the_occurrences twice 3) as (_ & Hbar & Hw & _);
    [lia|].
  split; [exact Hbar|]. rewrite Hw, Hbar. reflexivity.
Defined.

End UIFacts.

(** * Properties of the end of an animated run *)

Module FrameFacts.
Import Simulation SimulationFacts.

Local Open Scope nat_scope.

Section Generic.
Context {num : Type} `{JSNumber num}.
Variable Math_random : nat -> num.

Lemma finalResult_spec (selected : list Z) :
  length selected = CONFIG.TOTAL_DRAW_COUNT ->
  length (finalResult selected) = CONFIG.TOTAL_DRAW_COUNT
  /\ Sorted Z.le (take CONFIG.MAIN_NUMBERS_COUNT (finalResult selected))
  /\ take CONFIG.MAIN_NUMBERS_COUNT (finalResult selected)
     ≡ₚ take CONFIG.MAIN_NUMBERS_COUNT selected
  /\ finalResult selected !! CONFIG.MAIN_NUMBERS_COUNT
     = selected !! CONFIG.MAIN_NUMBERS_COUNT
  /\ finalResult selected ≡ₚ selected.
Proof.
  unfold finalResult, CONFIG.TOTAL_DRAW_COUNT, CONFIG.MAIN_NUMBERS_COUNT.
  intros Hlen.
  assert (length (merge_sort Z.le (take 6 selected)) = 6) as Hsix.
  { rewrite merge_sort_Permutation, length_take. lia. }
  destruct (selected !! 6) as [bonus|] eqn:Hbonus;
    [|apply lookup_ge_None in Hbonus; lia].
  cbn [option_list].
  rewrite take_app_length' by done.
  split; [by rewrite length_app, Hsix|].
  split; [apply Sorted_merge_sort; apply _|].
  split; [apply merge_sort_Permutation|].
  split; [rewrite lookup_app_r by lia; by rewrite Hsix, Nat.sub_diag|].
  rewrite merge_sort_Permutation.
  rewrite <- (take_drop 6 selected) at 2. f_equiv.
  rewrite (drop_S _ bonus 6) by done.
  rewrite drop_ge by lia. done.
Qed.

(** X29. The seventh ball ends the run of the animated drum: the frame
    that extracts it, and no other frame, stops the simulation and adds
    one entry to the history, which holds the seven selected ids with
    the first six sorted ascending and the seventh, the bonus, last;
    and a frame that arrives after the run has stopped changes nothing
    and calls [Math.random] not once. *)
Theorem seventh_ball_ends_the_run (f : Frame) (s : SimState) (k : nat) :
  let s' := fst (animateSimulation Math_random f s k) in
  (length (simSelected s') = CONFIG.TOTAL_DRAW_COUNT ->
   simSelected s' <> simSelected s ->
   simRunning s' = false
   /\ simHistory s' = simHistory s ++ [finalResult (simSelected s')])
  /\ (simSelected s' = simSelected s
      \/ length (simSelected s') <> CONFIG.TOTAL_DRAW_COUNT ->
      simRunning s' = simRunning s /\ simHistory s' = simHistory s)
  /\ (simRunning s = false ->
      animateSimulation Math_random f s k = (s, k))
  /\ (forall selected : list Z,
        length selected = CONFIG.TOTAL_DRAW_COUNT ->
        length (finalResult selected) = CONFIG.TOTAL_DRAW_COUNT
        /\ Sorted Z.le (take CONFIG.MAIN_NUMBERS_COUNT (finalResult selected))
        /\ take CONFIG.MAIN_NUMBERS_COUNT (finalResult selected)
           ≡ₚ take CONFIG.MAIN_NUMBERS_COUNT selected
        /\ finalResult selected !! CONFIG.MAIN_NUMBERS_COUNT
           = selected !! CONFIG.MAIN_NUMBERS_COUNT
        /\ finalResult selected ≡ₚ selected).
Proof.
  cbv zeta.
  split; [|split; [|split; [|apply finalResult_spec]]].
  - unfold animateSimulation.
    destruct (simRunning s) eqn:Hrun; cbn [negb];
      [|cbn [ret fst]; intros _ Hchanged; by destruct Hchanged].
    unfold bind. destruct (forEach _ _ k) as [balls k']. cbn [ret fst].
    unfold extraction. cbn [simSelected simBalls lastExtractionTime
                            simRunning simHistory].
    destruct (Nat.ltb _ _); [|intros _ Hchanged; by destruct Hchanged].
    destruct (_ || _); [|intros _ Hchanged; by destruct Hchanged].
    destruct (firstBall _ _) as [[i b]|];
      [|intros _ Hchanged; by destruct Hchanged].
    cbn [simSelected simRunning simHistory]. intros Hfull _.
    unfold isLast. apply Nat.eqb_eq in Hfull as ->. done.
  - unfold animateSimulation.
    destruct (simRunning s) eqn:Hrun; cbn [negb]; [|done].
    unfold bind. destruct (forEach _ _ k) as [balls k']. cbn [ret fst].
    unfold extraction. cbn [simSelected simBalls lastExtractionTime
                            simRunning simHistory].
    destruct (Nat.ltb _ _); [|done].
    destruct (_ || _); [|done].
    destruct (firstBall _ _) as [[i b]|]; [|done].
    cbn [simSelected simRunning simHistory]. intros [Hsame|Hnot].
    + exfalso. apply (f_equal length) in Hsame.
      rewrite length_app in Hsame. cbn [length] in Hsame. lia.
    + unfold isLast. by apply Nat.eqb_neq in Hnot as ->.
  - intros Hstopped. unfold animateSimulation. by rewrite Hstopped.
Qed.

End Generic.

End FrameFacts.

(** * Properties of the batch of headless runs *)

Module BatchFacts.
Import Simulation SimulationFacts.

Local Open Scope Z_scope.

Section Batch.
Variable run : Rand (Outcome (list Z)).
Hypothesis run_returns :
  forall k, exists selected k', run k = (Returned selected, k').

Lemma chunkLoop_returns (chunk : nat) (count i : Z)
    (results : list (list Z)) (k : nat) :
  exists results' k',
    chunkLoop run chunk count i results k
    = (Returned (Z.min (i + Z.of_nat chunk) (Z.max i count), results'), k')
    /\ Z.of_nat (length results')
       = Z.of_nat (length results)
         + (Z.min (i + Z.of_nat chunk) (Z.max i count) - i).
Proof using run_returns.
  revert i results k.
  induction chunk as [|chunk IH]; intros i results k; cbn [chunkLoop].
  - exists results, k. unfold ret.
    replace (Z.min (i + Z.of_nat 0) (Z.max i count)) with i by lia.
    split; [done|lia].
  - destruct (Z.ltb_spec i count) as [Hlt|Hge].
    + unfold bind. destruct (run_returns k) as (selected & k1 & ->).
      destruct (IH (i + 1) (results ++ [selected]) k1)
        as (results' & k' & -> & Hlen).
      exists results', k'. rewrite length_app in Hlen. cbn [length] in Hlen.
      replace (Z.min (i + 1 + Z.of_nat chunk) (Z.max (i + 1) count))
        with (Z.min (i + Z.of_nat (S chunk)) (Z.max i count)) in * by lia.
      split; [done|lia].
    + exists results, k. unfold ret.
      replace (Z.min (i + Z.of_nat (S chunk)) (Z.max i count)) with i by lia.
      split; [done|lia].
Qed.

Lemma step_returns (steps : nat) (count i : Z) (results : list (list Z))
    (reported : list Z) (k : nat) :
  0 <= i ->
  count - i <= 10 * Z.of_nat steps ->
  (0 < steps)%nat ->
  exists results' reported' k',
    step steps run count i results reported k
    = (Returned (results', reported'), k')
    /\ Z.of_nat (length results')
       = Z.of_nat (length results) + (Z.max i count - i)
    /\ last reported' = Some (Z.max i count)
    /\ Z.of_nat (length reported')
       = Z.of_nat (length reported) + Z.max 1 ((count - i + 9) / 10).
Proof using run_returns.
  revert i results reported k.
  induction steps as [|steps IH]; intros i results reported k Hi Hfuel Hsteps;
    [lia|].
  cbn [step]. unfold bind.
  destruct (chunkLoop_returns 10 count i results k)
    as (results1 & k1 & -> & Hlen1).
  set (i1 := Z.min (i + Z.of_nat 10) (Z.max i count)) in *.
  cbv zeta.
  destruct (Z.ltb_spec i1 count) as [Hmore|Hdone].
  - assert (i1 = i + 10) as Hi1 by lia.
    destruct (IH i1 results1 (reported ++ [i1]) k1)
      as (results' & reported' & k' & -> & Hlen & Hlast & Hreports);
      [lia|lia|lia|].
    exists results', reported', k'. split; [done|].
    split; [lia|]. split; [rewrite Hlast; f_equal; lia|].
    rewrite Hreports, length_app. cbn [length].
    replace (count - i + 9) with (count - i1 + 9 + 1 * 10) by lia.
    rewrite Z.div_add by lia.
    assert (0 < (count - i1 + 9) / 10) by (apply Z.div_str_pos; lia).
    lia.
  - exists results1, (reported ++ [i1]), k1. unfold ret.
    split; [done|]. split; [lia|].
    split; [rewrite last_snoc; f_equal; lia|].
    rewrite length_app. cbn [length].
    destruct (Z.le_gt_cases count i) as [Hnone|Hsome].
    + assert ((count - i + 9) / 10 <= 0); [|lia].
      apply Z.lt_succ_r, Z.div_lt_upper_bound; lia.
    + assert ((count - i + 9) / 10 = 1); [|lia].
      symmetry. apply (Z.div_unique _ _ _ (count - i - 1)); lia.
Qed.

(** X30. [batchRunSimulations(count, progressCb)], when every headless
    run returns: after at most [max 1 (ceil (count / 10))] calls of
    [step] the promise resolves with exactly [max 0 count] results (one
    per run, none for a [count] of zero or less); [progressCb] has then
    been called once per [step], that is
    [max 1 (floor ((count + 9) / 10))] times, and its last call is made
    at [i = max 0 count]. *)
Theorem batch_resolves_with_count_results (steps : nat) (count : Z)
    (k : nat) :
  (0 < steps)%nat ->
  count <= 10 * Z.of_nat steps ->
  exists results reported k',
    step steps run count 0 [] [] k = (Returned (results, reported), k')
    /\ Z.of_nat (length results) = Z.max 0 count
    /\ Z.of_nat (length reported) = Z.max 1 ((count + 9) / 10)
    /\ last reported = Some (Z.max 0 count).
Proof using run_returns.
  intros Hsteps Hfuel.
  destruct (step_returns steps count 0 [] [] k)
    as (results & reported & k' & Hrun & Hlen & Hlast & Hreports);
    [lia|lia|done|].
  exists results, reported, k'. split; [done|].
  cbn [length] in Hlen, Hreports.
  replace (count - 0 + 9) with (count + 9) in Hreports by lia.
  split; [lia|]. split; [lia|done].
Qed.

End Batch.

Lemma batch_resolves_with_count_results_witness :
  (forall k : nat, exists selected k', sameRun k = (Returned selected, k'))
  /\ (0 < 3)%nat
  /\ 25 <= 10 * Z.of_nat 3
  /\ exists results reported k',
       step 3 sameRun 25 0 [] [] 0%nat = (Returned (results, reported), k')
       /\ Z.of_nat (length results) = Z.max 0 25
       /\ Z.of_nat (length reported) = Z.max 1 ((25 + 9) / 10)
       /\ last reported = Some (Z.max 0 25).
Proof.
  assert (forall k : nat,
    exists selected k', sameRun k = (Returned selected, k')) as Hruns
    by (intros k; eexists _, _; reflexivity).
  split; [exact Hruns|]. split; [lia|]. split; [lia|].
  apply (batch_resolves_with_count_results sameRun Hruns 3 25 0%nat); lia.
Defined.

End BatchFacts.
